(** * The galaxy economy of naev (src/economy.c)

    A shallow embedding of the simulation engine: the production and
    consumption step, the aggregation of planetary production modifiers,
    pairwise trade between neighbouring systems, pricing, the tick driver,
    the price query and the buy-cost integrator.

    Numbers.  The C code computes with [double].  Here a [double] is
    idealised as an exact rational ([Q]): rounding, infinities and NaN are
    out of the model, and a division by zero yields [0] as [Qinv] does.
    Strict comparisons and sign conditions proved of these rationals are
    results about exact arithmetic.  Where rounding decides such a result,
    the production step is given a second time with the operations of
    IEEE 754 binary64 ([production_f64], [produce_consume_f64]), and
    inputs at which the two models part are evaluated.
    C [int] array indices and loop counters that only count upwards from
    zero are [nat]; the [unsigned int] counter of the tick driver is a [Z]
    with its 32-bit wrap-around written out. *)

From Stdlib Require Import QArith Qabs Qround Lqa Lia ZArith String Floats.
From stdpp Require Import base option list.

Local Open Scope Q_scope.

(** ** Exact rational helpers *)

(** Sum of a list of rationals. *)
Definition Qsum (l : list Q) : Q := foldr Qplus 0 l.

(** Conversion [(credits_t) x] of a [double] to an integer: the fractional
    part is discarded (truncation toward zero). *)
Definition Qtrunc (q : Q) : Z := Z.quot (Qnum q) (Zpos (Qden q)).

(** ** Data model (economy.h, space.h) *)

(** A catalog entry.  [price] is read with [xmlr_int] and cast to [double]
    where it is used; [index] is the slot in the priced subset. *)
Record Commodity := mkCommodity {
  name : string;
  description : string;
  price : Z;
  index : Z
}.

(** A planet, as far as the economy reads it.  [planet_prod_mods] is a
    pointer to a per-good array: [None] is the null pointer. *)
Record Planet := mkPlanet {
  planet_name : string;
  planet_prod_mods : option (list Q)
}.

(** A star system, as far as the economy reads and writes it.  [jumps]
    holds the [targetid] of every jump, [planets] the planets present. *)
Record StarSystem := mkStarSystem {
  id : Z;
  credits : Q;
  stockpiles : list Q;
  prices : list Q;
  prod_mods : list Q;
  bought : list Q;
  jumps : list nat;
  planets : list Planet
}.

(** [systems_stack], with [systems_nstack] its length. *)
Abbreviation galaxy := (list StarSystem).

Definition set_credits (f : Q → Q) (s : StarSystem) : StarSystem :=
  mkStarSystem (id s) (f (credits s)) (stockpiles s) (prices s)
               (prod_mods s) (bought s) (jumps s) (planets s).
Definition set_stockpiles (f : list Q → list Q) (s : StarSystem) : StarSystem :=
  mkStarSystem (id s) (credits s) (f (stockpiles s)) (prices s)
               (prod_mods s) (bought s) (jumps s) (planets s).
Definition set_prices (f : list Q → list Q) (s : StarSystem) : StarSystem :=
  mkStarSystem (id s) (credits s) (stockpiles s) (f (prices s))
               (prod_mods s) (bought s) (jumps s) (planets s).
Definition set_prod_mods (f : list Q → list Q) (s : StarSystem) : StarSystem :=
  mkStarSystem (id s) (credits s) (stockpiles s) (prices s)
               (f (prod_mods s)) (bought s) (jumps s) (planets s).
Definition set_bought (f : list Q → list Q) (s : StarSystem) : StarSystem :=
  mkStarSystem (id s) (credits s) (stockpiles s) (prices s)
               (prod_mods s) (f (bought s)) (jumps s) (planets s).

(** Reads [a[g]] of a [double] array; outside the array the C read is
    undefined, the model reads [0]. *)
Definition rd (a : list Q) (g : nat) : Q := default 0 (a !! g).

(** Reads through [systems_stack[i]]. *)
Definition sys_credits (st : galaxy) (i : nat) : Q :=
  default 0 (credits <$> st !! i).
Definition sys_stock (st : galaxy) (i g : nat) : Q :=
  default 0 ((λ s, rd (stockpiles s) g) <$> st !! i).
Definition sys_price (st : galaxy) (i g : nat) : Q :=
  default 0 ((λ s, rd (prices s) g) <$> st !! i).
Definition sys_prod_mod (st : galaxy) (i g : nat) : Q :=
  default 0 ((λ s, rd (prod_mods s) g) <$> st !! i).
Definition sys_bought (st : galaxy) (i g : nat) : Q :=
  default 0 ((λ s, rd (bought s) g) <$> st !! i).

(** Writes through [systems_stack[i]]: [x op= e] is [alter] with the
    function [x ↦ x op e]. *)
Definition upd_credits (i : nat) (f : Q → Q) (st : galaxy) : galaxy :=
  alter (set_credits f) i st.
Definition upd_stock (i g : nat) (f : Q → Q) (st : galaxy) : galaxy :=
  alter (set_stockpiles (alter f g)) i st.
Definition upd_price (i g : nat) (f : Q → Q) (st : galaxy) : galaxy :=
  alter (set_prices (alter f g)) i st.
Definition upd_prod_mod (i g : nat) (f : Q → Q) (st : galaxy) : galaxy :=
  alter (set_prod_mods (alter f g)) i st.
Definition upd_bought (i g : nat) (f : Q → Q) (st : galaxy) : galaxy :=
  alter (set_bought (alter f g)) i st.

(** Totals over the whole galaxy. *)
Definition total_credits (st : galaxy) : Q := Qsum (credits <$> st).
Definition total_stock (g : nat) (st : galaxy) : Q :=
  Qsum ((λ s, rd (stockpiles s) g) <$> st).

(** Every per-system array has [nprices] slots and every jump leads to a
    system of the stack: what [economy_init] and the galaxy loader set up,
    and what the C loops need for their array accesses to be defined. *)
Record wf_system (nprices nsys : nat) (s : StarSystem) : Prop := {
  wf_stockpiles : length (stockpiles s) = nprices;
  wf_prices : length (prices s) = nprices;
  wf_prod_mods : length (prod_mods s) = nprices;
  wf_bought : length (bought s) = nprices;
  wf_jumps : Forall (λ t, (t < nsys)%nat) (jumps s)
}.
Definition wf_galaxy (nprices : nat) (st : galaxy) : Prop :=
  Forall (wf_system nprices (length st)) st.

(** ** The engine *)

Section Engine.

(** [PRICE(Credits, Goods)], a macro of economy.h. *)
Variable PRICE : Q → Q → Q.
(** [econ_nprices], [trade_modifier], [production_modifier] and
    [commodity_stack]: globals the engine reads and never writes. *)
Variable econ_nprices : nat.
Variable trade_modifier : Q.
Variable production_modifier : Q.
Variable commodity_stack : list Commodity.

(** [production(mod, goods)]: how much to produce or consume in a
    single update. *)
Definition production (modifier goods : Q) : Q :=
  if Qle_bool 0 modifier
  then production_modifier * modifier * (180000 / goods)
  else production_modifier * modifier * (goods / 18000).

(** Body of the inner loop of [produce_consume], for system [i] and good
    [goodnum]. *)
Definition produce_consume_good (i : nat) (st : galaxy) (goodnum : nat) : galaxy :=
  let modifier := sys_prod_mod st i goodnum in
  let goods := sys_stock st i goodnum in
  upd_stock i goodnum (λ s, s + production modifier goods) st.

Definition produce_consume_system (st : galaxy) (i : nat) : galaxy :=
  foldl (produce_consume_good i) st (seq 0 econ_nprices).

(** [produce_consume()]. *)
Definition produce_consume (st : galaxy) : galaxy :=
  foldl produce_consume_system st (seq 0 (length st)).

(** Body of the inner loop of [refresh_prices]: the base price is read
    from [commodity_stack[goodnum]]. *)
Definition refresh_prices_good (i : nat) (st : galaxy) (goodnum : nat) : galaxy :=
  let credits := sys_credits st i in
  let goods := sys_stock st i goodnum in
  let price := inject_Z (default 0%Z (price <$> commodity_stack !! goodnum)) in
  upd_price i goodnum (λ _, price * PRICE credits goods) st.

Definition refresh_prices_system (st : galaxy) (i : nat) : galaxy :=
  foldl (refresh_prices_good i) st (seq 0 econ_nprices).

(** [refresh_prices()]. *)
Definition refresh_prices (st : galaxy) : galaxy :=
  foldl refresh_prices_system st (seq 0 (length st)).

(** The local [price] of the innermost loop of [trade_update], for good
    [goodnum] on the jump from [sys1 = systems_stack[i]] to
    [sys2 = systems_stack[j]]. *)
Definition trade_price (st : galaxy) (i j goodnum : nat) : Q :=
  (sys_credits st i + sys_credits st j)
  / (sys_stock st i goodnum + sys_stock st j goodnum).

(** The local [trade] of the same loop. *)
Definition trade_flow (st : galaxy) (i j goodnum : nat) : Q :=
  trade_modifier
  * (sys_credits st i * sys_stock st j goodnum
     - sys_credits st j * sys_stock st i goodnum)
  / (trade_price st i j goodnum
     * (sys_stock st i goodnum + sys_stock st j goodnum)
     + sys_credits st i + sys_credits st j).

(** Body of the innermost loop of [trade_update]: [price] and [trade] are
    computed first; the six compound assignments then run in the order of
    the source, each on the store the previous one left (so that [i = j]
    aliases as in C). *)
Definition trade_good (i j : nat) (st : galaxy) (goodnum : nat) : galaxy :=
  let price := trade_price st i j goodnum in
  let trade := trade_flow st i j goodnum in
  let st := upd_credits i (λ c, c - price * trade) st in
  let st := upd_credits j (λ c, c + price * trade) st in
  let st := upd_stock i goodnum (λ s, s + trade) st in
  let st := upd_stock j goodnum (λ s, s - trade) st in
  let st := upd_bought i goodnum (λ b, b + trade) st in
  upd_bought j goodnum (λ b, b - trade) st.

(** All goods over one jump. *)
Definition trade_edge (i j : nat) (st : galaxy) : galaxy :=
  foldl (trade_good i j) st (seq 0 econ_nprices).

(** The guard [i < sys2->id], with [sys2 = &systems_stack[targetid]].
    A [targetid] outside the stack is undefined in C; the model skips
    the jump. *)
Definition trade_guard (st : galaxy) (i j : nat) : bool :=
  match st !! j with
  | Some sys2 => bool_decide (Z.of_nat i < id sys2)%Z
  | None => false
  end.

(** Body of the loop over [jumpnum]. *)
Definition trade_jump (i : nat) (st : galaxy) (jumpnum : nat) : galaxy :=
  match (st !! i) ≫= (λ sys1, jumps sys1 !! jumpnum) with
  | Some targetid =>
      if trade_guard st i targetid then trade_edge i targetid st else st
  | None => st
  end.

Definition sys_njumps (st : galaxy) (i : nat) : nat :=
  default 0%nat ((λ s, length (jumps s)) <$> st !! i).

Definition trade_system (st : galaxy) (i : nat) : galaxy :=
  foldl (trade_jump i) st (seq 0 (sys_njumps st i)).

(** First loop nest of [trade_update]: [bought[goodnum] = 0.]. *)
Definition reset_bought (st : galaxy) : galaxy :=
  foldl (λ st i,
           foldl (λ st goodnum, upd_bought i goodnum (λ _, 0) st)
                 st (seq 0 econ_nprices))
        st (seq 0 (length st)).

(** [trade_update()]. *)
Definition trade_update (st : galaxy) : galaxy :=
  foldl trade_system (reset_bought st) (seq 0 (length st)).

(** One round of the loop body of [economy_update]. *)
Definition economy_round (st : galaxy) : galaxy :=
  refresh_prices (produce_consume (trade_update st)).

(** [i += 10000000] on an [unsigned int] of 32 bits. *)
Definition uint_add_step (i : Z) : Z := ((i + 10000000) mod 2 ^ 32)%Z.

(** The [for] loop of [economy_update], from counter [i].  [fuel] bounds
    the number of rounds the model is allowed to run: [None] means the
    loop was still running when the fuel ran out. *)
Fixpoint economy_update_loop (fuel : nat) (i dt : Z) (st : galaxy)
  : option galaxy :=
  if bool_decide (i < dt)%Z then
    match fuel with
    | O => None
    | S fuel' =>
        economy_update_loop fuel' (uint_add_step i) dt (economy_round st)
    end
  else Some st.

(** [economy_update(dt)], [dt] an [unsigned int]; the [printf] is left
    out. *)
Definition economy_update (fuel : nat) (dt : Z) (st : galaxy) : option galaxy :=
  economy_update_loop fuel 0 dt (refresh_prices st).

End Engine.

(** ** The production step in binary64

    [production] and the update of one stockpile by [produce_consume]
    once more, with [double] as IEEE 754 binary64: every operation is
    rounded to nearest, ties to even, as C does on a target that
    evaluates [double] expressions in [double].  The integer literals
    [180000] and [18000] convert exactly. *)

(** [production(mod, goods)], with [production_modifier] as an
    argument. *)
Definition production_f64
    (production_modifier modifier goods : float) : float :=
  if PrimFloat.leb 0 modifier
  then (production_modifier * modifier * (180000 / goods))%float
  else (production_modifier * modifier * (goods / 18000))%float.

(** [sys->stockpiles[goodnum] += production(sys->prod_mods[goodnum],
    sys->stockpiles[goodnum])] on one stockpile. *)
Definition produce_consume_f64
    (production_modifier modifier goods : float) : float :=
  (goods + production_f64 production_modifier modifier goods)%float.

(** ** Aggregation of planetary production: [refresh_economy] *)

(** The test [sys->planets[pl]->prod_mods+comm == NULL].  The sum of a
    non-null array base and an offset is not null; the null pointer plus
    [comm] doubles is null for [comm = 0] only. *)
Definition prod_mods_plus_is_null (p : Planet) (comm : nat) : bool :=
  match planet_prod_mods p with
  | None => Nat.eqb comm 0
  | Some _ => false
  end.

Definition uninitialized_msg (p : Planet) : string :=
  ("planet " ++ planet_name p ++ " prod_mods hasn't been initialized")%string.

(** The loop over the planets of system [i] for good [comm], from the
    planets [pls] still to visit.  The state is the galaxy and what was
    printed so far.  [None] is a fault: the read
    [sys->planets[pl]->prod_mods[comm]] through a null [prod_mods]. *)
Fixpoint refresh_economy_planets (i comm : nat) (pls : list Planet)
    (st : galaxy) (out : list string) : option (galaxy * list string) :=
  match pls with
  | [] => Some (st, out)
  | p :: pls' =>
      if prod_mods_plus_is_null p comm
      then Some (st, out ++ [uninitialized_msg p])        (* printf; break *)
      else
        match planet_prod_mods p with
        | None => None
        | Some a =>
            refresh_economy_planets i comm pls'
              (upd_prod_mod i comm (λ m, m + rd a comm) st) out
        end
  end.

(** Body of the loop over [comm]. *)
Definition refresh_economy_good (i : nat) (acc : option (galaxy * list string))
    (comm : nat) : option (galaxy * list string) :=
  '(st, out) ← acc;
  let st := upd_prod_mod i comm (λ _, 0) st in
  refresh_economy_planets i comm
    (default [] (planets <$> st !! i)) st out.

Definition refresh_economy_system (econ_nprices : nat)
    (acc : option (galaxy * list string)) (i : nat)
    : option (galaxy * list string) :=
  foldl (refresh_economy_good i) acc (seq 0 econ_nprices).

(** [refresh_economy()]; the leading [printf] is the first line of the
    output. *)
Definition refresh_economy (econ_nprices : nat) (st : galaxy)
    : option (galaxy * list string) :=
  foldl (refresh_economy_system econ_nprices)
        (Some (st, ["refreshing economy"%string])) (seq 0 (length st)).

(** ** The catalog: the part of [commodity_load] that builds the priced
    subset *)

(** [commodity_stack], [commodity_nstack] (its length), [econ_comm] and
    [econ_nprices]. *)
Record Catalog := mkCatalog {
  cat_stack : list Commodity;
  cat_comm : list Z;
  cat_nprices : nat
}.

Definition set_index (k : Z) (c : Commodity) : Commodity :=
  mkCommodity (name c) (description c) (price c) k.

(** One [commodity] node: the entry is appended ([commodity_parse] clears
    it and fills in name, description and price), and when its price is
    positive [commodity_stack[econ_nprices].index] is set and the new slot
    [commodity_nstack-1] is appended to [econ_comm]. *)
Definition commodity_load_node (c : Catalog) (node : string * string * Z)
    : Catalog :=
  let '(nm, descr, pr) := node in
  let stack := cat_stack c ++ [mkCommodity nm descr pr 0] in
  if bool_decide (0 < pr)%Z then
    mkCatalog (alter (set_index (Z.of_nat (cat_nprices c))) (cat_nprices c) stack)
              (cat_comm c ++ [Z.of_nat (length stack - 1)])
              (S (cat_nprices c))
  else mkCatalog stack (cat_comm c) (cat_nprices c).

(** The loop of [commodity_load] over the [commodity] nodes of the data
    file, from the empty catalog. *)
Definition commodity_load (nodes : list (string * string * Z)) : Catalog :=
  foldl commodity_load_node (mkCatalog [] [] 0) nodes.

(** ** Price queries *)

Section Queries.

Variable PRICE : Q → Q → Q.
Variable econ_nprices : nat.
Variable econ_comm : list Z.

(** The search loop of [economy_getPrice], from counter [i] with
    [fuel = econ_nprices - i] iterations left: the value of [i] after
    the loop. *)
Fixpoint getPrice_scan (idx : Z) (i fuel : nat) : nat :=
  match fuel with
  | O => i
  | S fuel' =>
      if bool_decide (econ_comm !! i = Some idx) then i
      else getPrice_scan idx (S i) fuel'
  end.

Definition price_unknown_msg (com : Commodity) : string :=
  ("Price for commodity '" ++ name com ++ "' not known.")%string.

(** [economy_getPrice(com, sys, p)], run on the warnings logged so far:
    the result and the warnings after the call. *)
Definition economy_getPrice (com : Commodity) (sys : StarSystem)
    (p : Planet) (warnings : list string) : Z * list string :=
  let i := getPrice_scan (index com) 0 econ_nprices in
  if bool_decide (econ_nprices ≤ i)%nat
  then (0%Z, warnings ++ [price_unknown_msg com])
  else (Qtrunc (PRICE (credits sys) (rd (stockpiles sys) i)), warnings).

(** Modelled from the spec: [credits_t] is declared in economy.h.  It is
    taken as the unsigned integers of 64 bits, the type in which the
    literal [0xFFFFFFFFFFFFFFF0] of [price_of_buying] is the
    maximum-magnitude cost the spec speaks of. *)
Definition CREDITS_MAX : Z := (2 ^ 64 - 1)%Z.

Definition UNAFFORDABLE : Z := 0xFFFFFFFFFFFFFFF0%Z.

(** Body of the loop of [price_of_buying] on [(p_creds, p_goods,
    f_price)], with [increment = 1]. *)
Definition price_of_buying_step (buying : Z) (s : Q * Q * Q) : Q * Q * Q :=
  let '(p_creds, p_goods, f_price) := s in
  let price := PRICE p_creds p_goods in
  (p_creds + price * inject_Z buying * 1,
   p_goods - inject_Z (buying * 1),
   f_price + price).

(** [price_of_buying(n_tons, p_creds, p_goods)].  The counter [i] runs
    from [0] to [n_tons] in steps of [buying], that is [|n_tons|]
    rounds. *)
Definition price_of_buying (n_tons : Z) (p_creds p_goods : Q) : Z :=
  if Qle_bool (p_goods - inject_Z n_tons) 1 then UNAFFORDABLE
  else
    let buying := if bool_decide (0 < n_tons)%Z then 1%Z else (-1)%Z in
    let '(_, _, f_price) :=
      Nat.iter (Z.abs_nat n_tons) (price_of_buying_step buying)
               (p_creds, p_goods, 0) in
    Qtrunc f_price.

End Queries.

(** ** Catalog lookup and ordering *)

(** The loop of [commodity_get] and of [commodity_getW] over the stack
    from slot [i] on, [rest] being the entries from there: the slot of
    the first entry whose name compares equal ([strcmp(...) == 0]), as
    the pointer [&commodity_stack[i]] that is returned. *)
Fixpoint commodity_scan (nm : string) (i : nat) (rest : list Commodity)
    : option nat :=
  match rest with
  | [] => None
  | c :: rest' =>
      if String.eqb (name c) nm then Some i
      else commodity_scan nm (S i) rest'
  end.

(** [commodity_getW(name)]: [None] is the null pointer. *)
Definition commodity_getW (commodity_stack : list Commodity) (nm : string)
    : option nat :=
  commodity_scan nm 0 commodity_stack.

Definition commodity_not_found_msg (nm : string) : string :=
  ("Commodity '" ++ nm ++ "' not found in stack")%string.

(** [commodity_get(name)], run on the warnings logged so far. *)
Definition commodity_get (commodity_stack : list Commodity) (nm : string)
    (warnings : list string) : option nat * list string :=
  match commodity_scan nm 0 commodity_stack with
  | Some i => (Some i, warnings)
  | None => (None, warnings ++ [commodity_not_found_msg nm])
  end.

(** The sign of [strcmp(a, b)]: strings compare byte by byte, as unsigned
    characters.  C leaves the magnitude of a non-zero result open. *)
Definition strcmp (a b : string) : Z :=
  match String.compare a b with
  | Eq => 0
  | Lt => -1
  | Gt => 1
  end%Z.

(** [commodity_compareTech], on the two commodities its arguments point
    to. *)
Definition commodity_compareTech (c1 c2 : Commodity) : Z :=
  if bool_decide (price c1 < price c2)%Z then 1%Z
  else if bool_decide (price c1 > price c2)%Z then (-1)%Z
  else strcmp (name c1) (name c2).

(** ** Credits for display *)

(** What [credits2str] hands to [nsnprintf]: the integer itself
    ([CREDITS_PRI]), or a precision, a scaled value and a suffix
    ([%.*f] followed by a letter). *)
Inductive credits_format :=
| PlainCredits (credits : Z)
| ScaledCredits (decimals : Z) (value : Q) (suffix : string).

(** [credits2str(str, credits, decimals)]. *)
Definition credits2str (credits decimals : Z) : credits_format :=
  if bool_decide (decimals < 0)%Z then PlainCredits credits
  else if bool_decide (credits >= 1000000000000000)%Z
  then ScaledCredits decimals (inject_Z credits / 1000000000000000) "Q"
  else if bool_decide (credits >= 1000000000000)%Z
  then ScaledCredits decimals (inject_Z credits / 1000000000000) "T"
  else if bool_decide (credits >= 1000000000)%Z
  then ScaledCredits decimals (inject_Z credits / 1000000000) "B"
  else if bool_decide (credits >= 1000000)%Z
  then ScaledCredits decimals (inject_Z credits / 1000000) "M"
  else if bool_decide (credits >= 1000)%Z
  then ScaledCredits decimals (inject_Z credits / 1000) "K"
  else PlainCredits credits.

(** ** Initialization: [economy_init] *)

(** The economy's own globals, the galaxy and what was printed. *)
Record Econ := mkEcon {
  econ_initialized : bool;
  econ_trade_modifier : Q;
  econ_systems : galaxy;
  econ_out : list string
}.

(** Body of the loop of [economy_init] over the systems: fresh zeroed
    arrays ([calloc]), the starting credits, and the starting goods in
    every slot of [stockpiles]. *)
Definition economy_init_system (econ_nprices : nat) (st : galaxy) (i : nat)
    : galaxy :=
  let st :=
    alter (λ s, mkStarSystem (id s) 100000000
                  (replicate econ_nprices 0) (replicate econ_nprices 0)
                  (replicate econ_nprices 0) (bought s) (jumps s) (planets s))
          i st in
  let st :=
    foldl (λ st goodnum, upd_stock i goodnum (λ _, 100000) st)
          st (seq 0 econ_nprices) in
  alter (set_bought (λ _, replicate econ_nprices 0)) i st.

(** [economy_init()].  [None] is a fault inside [refresh_economy]. *)
Definition economy_init (PRICE : Q → Q → Q) (econ_nprices : nat)
    (commodity_stack : list Commodity) (w : Econ) : option Econ :=
  let out := econ_out w ++ ["Init ing economy"%string] in
  if econ_initialized w
  then Some (mkEcon true (econ_trade_modifier w) (econ_systems w) out)
  else
    let st :=
      foldl (economy_init_system econ_nprices) (econ_systems w)
            (seq 0 (length (econ_systems w))) in
    '(st', printed) ← refresh_economy econ_nprices st;
    Some (mkEcon true (99 # 100)
                 (refresh_prices PRICE econ_nprices commodity_stack st')
                 (out ++ printed)).

(** ** Auxiliary notions *)

(** Number of sub-steps of 10,000,000 needed to reach [dt]:
    [ceiling(dt / 10,000,000)]. *)
Definition rounds_needed (dt : Z) : nat :=
  Z.to_nat ((dt + 9999999) / 10000000).

(** What a galaxy [st'] reached from [st] by writes to stockpiles alone
    has in common with [st]. *)
Record pc_frame (econ_nprices : nat) (st st' : galaxy) : Prop := {
  pc_wf : wf_galaxy econ_nprices st';
  pc_length : length st' = length st;
  pc_credits : ∀ k, sys_credits st' k = sys_credits st k;
  pc_prod_mods : ∀ k h, sys_prod_mod st' k h = sys_prod_mod st k h
}.

(** What a galaxy [st'] reached from [st] by writes to prices alone has
    in common with [st]. *)
Record rp_frame (econ_nprices : nat) (st st' : galaxy) : Prop := {
  rp_wf : wf_galaxy econ_nprices st';
  rp_length : length st' = length st;
  rp_credits : ∀ k, sys_credits st' k = sys_credits st k;
  rp_stock : ∀ k h, sys_stock st' k h = sys_stock st k h;
  rp_prod_mods : ∀ k h, sys_prod_mod st' k h = sys_prod_mod st k h
}.

(** The base price [refresh_prices] reads for good [g]: that of
    [commodity_stack[g]]. *)
Definition stack_price (commodity_stack : list Commodity) (g : nat) : Q :=
  inject_Z (default 0%Z (price <$> commodity_stack !! g)).

(** The base price of priced commodity [g]: that of the catalog entry
    [econ_comm[g]], the [g]-th entry with a positive price. *)
Definition priced_base_price (c : Catalog) (g : nat) : Q :=
  inject_Z (default 0%Z
    (cat_comm c !! g ≫= λ slot, price <$> cat_stack c !! Z.to_nat slot)).

(** A well-formed galaxy [st'] with the systems, the total credits and
    the total stock of every good of [st]. *)
Record conserved (econ_nprices : nat) (st st' : galaxy) : Prop := {
  cons_wf : wf_galaxy econ_nprices st';
  cons_length : length st' = length st;
  cons_credits : total_credits st' == total_credits st;
  cons_stock : ∀ h, total_stock h st' == total_stock h st
}.

(** All stockpiles of the priced commodities are strictly positive. *)
Definition stocked (econ_nprices : nat) (st : galaxy) : Prop :=
  ∀ k h, (k < length st)%nat → (h < econ_nprices)%nat → 0 < sys_stock st k h.

(** All credits are strictly positive. *)
Definition funded (st : galaxy) : Prop :=
  ∀ k, (k < length st)%nat → 0 < sys_credits st k.

(** A production modifier [m] that [production] can apply to every
    positive stockpile without emptying it: production is not negative,
    and consumption takes less than the whole stockpile. *)
Definition sustained (production_modifier m : Q) : Prop :=
  (0 <= m → 0 <= production_modifier * m)
  ∧ (m < 0 → -18000 < production_modifier * m).

Definition sustainable (econ_nprices : nat) (production_modifier : Q)
    (st : galaxy) : Prop :=
  ∀ k h, (k < length st)%nat → (h < econ_nprices)%nat →
         sustained production_modifier (sys_prod_mod st k h).

(** A galaxy the engine can run on without ever dividing by a stockpile
    that is not positive. *)
Record healthy (econ_nprices : nat) (production_modifier : Q) (st : galaxy)
    : Prop := {
  healthy_wf : wf_galaxy econ_nprices st;
  healthy_credits : funded st;
  healthy_stock : stocked econ_nprices st;
  healthy_prod_mods : sustainable econ_nprices production_modifier st
}.

(** The part of a galaxy the trade loops branch on: the identifier and
    the jumps of every system. *)
Definition skeleton (st : galaxy) : list (Z * list nat) :=
  (λ s, (id s, jumps s)) <$> st.

(** The [targetid]s of the jumps of system [i]. *)
Definition jumps_of (st : galaxy) (i : nat) : list nat :=
  default [] (jumps <$> st !! i).

(** The jumps of system [i] that pass the guard of [trade_update], as
    pairs of the iterating system and the target, in the order of the
    loop over [jumpnum]. *)
Definition visited_among (st : galaxy) (i : nat) (js : list nat)
    : list (nat * nat) :=
  (λ j, (i, j)) <$> filter (λ j, trade_guard st i j) js.
Definition visited_from (st : galaxy) (i : nat) : list (nat * nat) :=
  visited_among st i (jumps_of st i).

(** All jumps a pass of [trade_update] trades over, in the order of the
    two outer loops. *)
Definition visited_jumps (st : galaxy) : list (nat * nat) :=
  seq 0 (length st) ≫= visited_from st.

(** How often [e] occurs in [l]. *)
Definition occurrences (e : nat * nat) (l : list (nat * nat)) : nat :=
  length (filter (λ x, x = e) l).

(** The planets of system [i]. *)
Definition planets_of (st : galaxy) (i : nat) : list Planet :=
  default [] (planets <$> st !! i).

(** The modifier of planet [p] for good [comm], once its array is set. *)
Definition planet_mod (p : Planet) (comm : nat) : Q :=
  rd (default [] (planet_prod_mods p)) comm.

(** The modifiers of the planets of system [i] for good [comm], added up
    from zero in the order of the planets. *)
Definition aggregated (st : galaxy) (i comm : nat) : Q :=
  foldl (λ m p, m + planet_mod p comm) 0 (planets_of st i).

(** Every planet of every system has its per-good array. *)
Definition initialized (st : galaxy) : Prop :=
  ∀ i p, p ∈ planets_of st i → is_Some (planet_prod_mods p).

(** What a galaxy [st'] reached from [st] by writes to production
    modifiers alone has in common with [st]. *)
Record re_frame (econ_nprices : nat) (st st' : galaxy) : Prop := {
  re_wf : wf_galaxy econ_nprices st';
  re_length : length st' = length st;
  re_planets : ∀ k, planets_of st' k = planets_of st k
}.

(** How far the jump from [i] to [j] is from equal prices of good [g]:
    [credits1 * stock2 - credits2 * stock1], the numerator of the flow of
    [trade_update]. *)
Definition imbalance (st : galaxy) (i j g : nat) : Q :=
  sys_credits st i * sys_stock st j g - sys_credits st j * sys_stock st i g.

(** All credits and stockpiles are strictly positive, and any two systems
    value every good alike: [credits_i / stock_i = credits_j / stock_j]. *)
Record balanced (econ_nprices : nat) (st : galaxy) : Prop := {
  balanced_wf : wf_galaxy econ_nprices st;
  balanced_credits : ∀ k, (k < length st)%nat → 0 < sys_credits st k;
  balanced_stock :
    ∀ k h, (k < length st)%nat → (h < econ_nprices)%nat → 0 < sys_stock st k h;
  balanced_prices :
    ∀ i j g, (i < length st)%nat → (j < length st)%nat →
             (g < econ_nprices)%nat → imbalance st i j g == 0
}.

(** A galaxy [st'] that reads like [st] in credits and stockpiles. *)
Record same_holdings (econ_nprices : nat) (st st' : galaxy) : Prop := {
  same_wf : wf_galaxy econ_nprices st';
  same_length : length st' = length st;
  same_credits : ∀ k, sys_credits st' k == sys_credits st k;
  same_stock : ∀ k h, sys_stock st' k h == sys_stock st k h
}.


(** What [trade_update] has no business with: identifiers, jumps,
    planets, prices and production modifiers. *)
Record trade_frame (st st' : galaxy) : Prop := {
  tf_length : length st' = length st;
  tf_skeleton : skeleton st' = skeleton st;
  tf_planets : ∀ k, planets_of st' k = planets_of st k;
  tf_prices : ∀ k h, sys_price st' k h = sys_price st k h;
  tf_prod_mods : ∀ k h, sys_prod_mod st' k h = sys_prod_mod st k h
}.

(** A galaxy whose prices are the ones [refresh_prices] computes from its
    credits and stockpiles. *)
Definition all_priced (PRICE : Q → Q → Q) (econ_nprices : nat)
    (commodity_stack : list Commodity) (st : galaxy) : Prop :=
  ∀ i g, (i < length st)%nat → (g < econ_nprices)%nat →
    sys_price st i g
    = stack_price commodity_stack g
      * PRICE (sys_credits st i) (sys_stock st i g).

(** The price of node [k] of a data file, and the slots of the nodes with
    a positive price, in ascending order. *)
Definition node_price (nodes : list (string * string * Z)) (k : nat) : Z :=
  default 0%Z (snd <$> nodes !! k).
Definition priced_slots (nodes : list (string * string * Z)) : list nat :=
  filter (λ k, (0 < node_price nodes k)%Z) (seq 0 (length nodes)).

(** What the data file says of a catalog entry. *)
Definition commodity_node (c : Commodity) : string * string * Z :=
  (name c, description c, price c).

(** What [commodity_load] has built after the nodes [nodes]: the stack
    holds the nodes in order, [econ_comm] the slots of the priced ones in
    ascending order, [econ_nprices] their number, and the entry at slot
    [k] has index [k] if [k < econ_nprices] and index 0 otherwise. *)
Record loaded (nodes : list (string * string * Z)) (c : Catalog) : Prop := {
  loaded_nodes : commodity_node <$> cat_stack c = nodes;
  loaded_comm : cat_comm c = Z.of_nat <$> priced_slots nodes;
  loaded_nprices : cat_nprices c = length (priced_slots nodes);
  loaded_index :
    ∀ k e, cat_stack c !! k = Some e →
      index e = if bool_decide (k < cat_nprices c)%nat then Z.of_nat k else 0%Z
}.

(** The sum [f_price] of marginal prices after [k] rounds of the loop of
    [price_of_buying]. *)
Definition bought_so_far (PRICE : Q → Q → Q) (buying : Z)
    (p_creds p_goods : Q) (k : nat) : Q :=
  (Nat.iter k (price_of_buying_step PRICE buying) (p_creds, p_goods, 0)).2.

(** The unit a suffix of [credits2str] stands for. *)
Definition suffix_unit (suffix : string) : Q :=
  if String.eqb suffix "K" then 1000
  else if String.eqb suffix "M" then 1000000
  else if String.eqb suffix "B" then 1000000000
  else if String.eqb suffix "T" then 1000000000000
  else if String.eqb suffix "Q" then 1000000000000000
  else 1.

(** What [economy_init] makes of a system: the starting credits and
    goods, zeroed prices, production modifiers and telemetry. *)
Definition fresh_system (econ_nprices : nat) (s : StarSystem) : StarSystem :=
  mkStarSystem (id s) 100000000 (replicate econ_nprices 100000)
               (replicate econ_nprices 0) (replicate econ_nprices 0)
               (replicate econ_nprices 0) (jumps s) (planets s).

(** Every jump of every system leads to a system of the stack. *)
Definition jumps_in_range (st : galaxy) : Prop :=
  Forall (λ s, Forall (λ t, (t < length st)%nat) (jumps s)) st.

(** What a galaxy [st'] reached from [st] by writes to production
    modifiers alone reads like. *)
Record pm_frame (st st' : galaxy) : Prop := {
  pmf_skeleton : skeleton st' = skeleton st;
  pmf_credits : ∀ k, sys_credits st' k = sys_credits st k;
  pmf_stock : ∀ k h, sys_stock st' k h = sys_stock st k h;
  pmf_prices : ∀ k h, sys_price st' k h = sys_price st k h;
  pmf_bought : ∀ k h, sys_bought st' k h = sys_bought st k h
}.

(** ** Sample data *)

(** Two systems joined by one jump, one priced commodity; the first
    system produces it, the second consumes it. *)
Definition sample_sys0 : StarSystem :=
  mkStarSystem 0 150000000 [100000] [0] [5] [0] [1%nat] [].
Definition sample_sys1 : StarSystem :=
  mkStarSystem 1 100000000 [100000] [0] [-5] [0] [0%nat] [].
Definition sample_galaxy : galaxy := [sample_sys0; sample_sys1].

(** The price curve [Credits / Goods]. *)
Definition sample_PRICE (c g : Q) : Q := c / g.

(** One system that consumes heavily: its production modifier is
    -360000. *)
Definition sample_drained : galaxy :=
  [mkStarSystem 0 100000000 [100000] [0] [-360000] [0] [] []].

(** A data file whose first commodity has no price. *)
Definition sample_nodes : list (string * string * Z) :=
  [("Mission Cargo"%string, ""%string, 0%Z); ("Food"%string, ""%string, 10%Z)].

(** One system with two planets, the first without production data. *)
Definition sample_planet_A : Planet := mkPlanet "A" None.
Definition sample_planet_B : Planet := mkPlanet "B" (Some [5; 7]).
Definition sample_lonely (econ_nprices : nat) : galaxy :=
  [mkStarSystem 0 100000000 (replicate econ_nprices 100000)
     (replicate econ_nprices 0) (replicate econ_nprices 0)
     (replicate econ_nprices 0) [] [sample_planet_A; sample_planet_B]].

(** Two systems joined by one jump, alike in credits and stock. *)
Definition sample_even : galaxy :=
  [mkStarSystem 0 100000000 [100000] [7] [0] [3] [1%nat] [];
   mkStarSystem 1 100000000 [100000] [7] [0] [-3] [0%nat] []].

(** One system with two planets that both have their production
    arrays, and an economy on it that is not yet initialized. *)
Definition sample_inhabited : galaxy :=
  [mkStarSystem 0 100000000 [100000; 100000] [0; 0] [0; 0] [0; 0] []
     [sample_planet_B; sample_planet_B]].
Definition sample_world : Econ := mkEcon false 0 sample_inhabited [].

(** One system that produces, with little in stock. *)
Definition sample_producer : galaxy :=
  [mkStarSystem 0 100000000 [100] [0] [5] [0] [] []].

(** Two systems joined by one jump, the first in debt and short of
    stock. *)
Definition sample_indebted : galaxy :=
  [mkStarSystem 0 (-1) [1] [0] [0] [0] [1%nat] [];
   mkStarSystem 1 3 [100] [0] [0] [0] [0%nat] []].

(** Two systems joined by one jump, alike in stock, the second nearly
    without credits. *)
Definition sample_lopsided : galaxy :=
  [mkStarSystem 0 150000000 [100000] [0] [0] [0] [1%nat] [];
   mkStarSystem 1 1 [100000] [0] [0] [0] [0%nat] []].

(** Two systems joined by one jump, alike in credits, the first nearly
    without stock. *)
Definition sample_scarce : galaxy :=
  [mkStarSystem 0 100000000 [1] [0] [0] [0] [1%nat] [];
   mkStarSystem 1 100000000 [100] [0] [0] [0] [0%nat] []].

(** A data file in which commodities with and without a price
    alternate. *)
Definition sample_mixed_nodes : list (string * string * Z) :=
  [("Ore"%string, ""%string, 5%Z); ("Mission Cargo"%string, ""%string, 0%Z);
   ("Food"%string, ""%string, 7%Z); ("Passengers"%string, ""%string, 0%Z)].

(** A system with two priced commodities in stock. *)
Definition sample_market : StarSystem :=
  mkStarSystem 0 150000000 [100000; 50000] [0; 0] [0; 0] [0; 0] [] [].

(** [INITIAL_PRODUCTION_MODIFIER], the [double] nearest to [.1]. *)
Definition rate_f64 : float := 0x1.999999999999ap-4%float.

(** The two [double]s just below [180000]: 179999.99999999997 and
    179999.99999999994. *)
Definition below_180000 : float := PrimFloat.next_down 180000.
Definition further_below_180000 : float := PrimFloat.next_down below_180000.

(** Two neighbouring [double]s just above [100000]: 100000.00000001454
    and 100000.00000001455. *)
Definition above_100000 : float := 0x1.86a00000003e7p+16%float.
Definition further_above_100000 : float := PrimFloat.next_up above_100000.

(** A positive subnormal [double]: 9001 times the smallest one, about
    4.4e-320. *)
Definition subnormal_stock : float := 0x2329p-1074%float.

(** * Properties *)

(** ** The production function *)

Section ProductionFacts.

Variable production_modifier : Q.

Lemma production_producing (m goods : Q) :
  0 <= m →
  production production_modifier m goods
  = production_modifier * m * (180000 / goods).
Proof.
  intros Hm. unfold production.
  destruct (Qle_bool 0 m) eqn:E; [done|].
  apply Qle_bool_iff in Hm. congruence.
Qed.

Lemma production_consuming (m goods : Q) :
  m < 0 →
  production production_modifier m goods
  = production_modifier * m * (goods / 18000).
Proof.
  intros Hm. unfold production.
  destruct (Qle_bool 0 m) eqn:E; [|done].
  apply Qle_bool_iff in E. lra.
Qed.

Lemma throttle_decreasing (a b : Q) :
  0 < a → a < b → 180000 / b < 180000 / a.
Proof.
  intros Ha Hab.
  apply Qlt_shift_div_l; [lra|].
  assert (180000 / b * a == 180000 * (a / b)) as -> by (field; lra).
  assert (a / b < 1) by (apply Qlt_shift_div_r; lra).
  lra.
Qed.

Lemma scaling_increasing (a b : Q) : a < b → a / 18000 < b / 18000.
Proof.
  intros Hab. apply Qlt_shift_div_l; [lra|].
  assert (a / 18000 * 18000 == a) as -> by field. done.
Qed.

End ProductionFacts.

(** C9, in exact arithmetic.  With a positive production rate, and the
    products and quotients of [production] taken exactly: for a fixed
    modifier [m > 0] the adjustment [production m goods] is strictly
    decreasing in [goods] over [goods > 0]; for a fixed modifier [m < 0]
    the adjustment is negative and its magnitude is strictly increasing in
    [goods] over [goods > 0]. *)
Theorem production_monotone (production_modifier m g1 g2 : Q) :
  0 < production_modifier → 0 < g1 → g1 < g2 →
  (0 < m →
   production production_modifier m g2 < production production_modifier m g1)
  ∧ (m < 0 →
     production production_modifier m g1 < 0
     ∧ production production_modifier m g2 < 0
     ∧ Qabs (production production_modifier m g1)
       < Qabs (production production_modifier m g2)).
Proof.
  intros Hpm Hg1 Hg12. split; intros Hm.
  - rewrite !production_producing by lra.
    pose proof (throttle_decreasing g1 g2 Hg1 Hg12) as Hthr.
    assert (0 < production_modifier * m) as Hk by nra.
    nra.
  - rewrite !production_consuming by lra.
    pose proof (scaling_increasing g1 g2 Hg12) as Hsc.
    assert (0 < g1 / 18000) as Hp1 by (apply Qlt_shift_div_l; lra).
    assert (production_modifier * m < 0) as Hk by nra.
    assert (production_modifier * m * (g1 / 18000) < 0) as Hn1 by nra.
    assert (production_modifier * m * (g2 / 18000) < 0) as Hn2 by nra.
    split; [done|]. split; [done|].
    rewrite !Qabs_neg by lra. nra.
Qed.

Lemma production_monotone_witness :
  production (1 # 10) 5 200 < production (1 # 10) 5 100
  ∧ Qabs (production (1 # 10) (-5) 100) < Qabs (production (1 # 10) (-5) 200).
Proof.
  split.
  - apply (production_monotone (1 # 10) 5 100 200); reflexivity.
  - apply (production_monotone (1 # 10) (-5) 100 200); reflexivity.
Defined.

(** C9, as stated of the [double]s the code computes with, fails.  At the
    initial production rate [.1] and modifier 5, the neighbouring
    stockpiles 179999.99999999994 < 179999.99999999997 get the same
    adjustment; at modifier -5, the neighbouring stockpiles
    100000.00000001454 < 100000.00000001455 get the same negative
    adjustment.  Rounding makes the adjustment constant over such pairs:
    it is monotone at best, not strictly. *)
Lemma production_f64_ties :
  PrimFloat.ltb 0 rate_f64 = true
  ∧ (PrimFloat.ltb 0 further_below_180000 = true
     ∧ PrimFloat.ltb further_below_180000 below_180000 = true
     ∧ production_f64 rate_f64 5 further_below_180000
       = production_f64 rate_f64 5 below_180000)
  ∧ (PrimFloat.ltb 0 above_100000 = true
     ∧ PrimFloat.ltb above_100000 further_above_100000 = true
     ∧ PrimFloat.ltb (production_f64 rate_f64 (-5) above_100000) 0 = true
     ∧ production_f64 rate_f64 (-5) above_100000
       = production_f64 rate_f64 (-5) further_above_100000).
Proof. vm_compute. repeat split. Qed.

(** ** Reads after writes *)

Section Store.

Implicit Types (st : galaxy) (a : list Q) (f : Q → Q).

Lemma rd_alter_eq a (g : nat) f :
  (g < length a)%nat → rd (alter f g a) g = f (rd a g).
Proof.
  intros Hg. unfold rd. rewrite list_lookup_alter_eq.
  destruct (lookup_lt_is_Some_2 a g Hg) as [x ->]. done.
Qed.

Lemma rd_alter_ne a (g h : nat) f : g ≠ h → rd (alter f g a) h = rd a h.
Proof. intros Hne. unfold rd. by rewrite list_lookup_alter_ne. Qed.

Lemma wf_lookup n st (i : nat) s :
  wf_galaxy n st → st !! i = Some s → wf_system n (length st) s.
Proof. intros Hwf Hs. eapply Forall_lookup_1; eauto. Qed.

Lemma wf_alter n st (i : nat) (F : StarSystem → StarSystem) :
  (∀ s, wf_system n (length st) s → wf_system n (length st) (F s)) →
  wf_galaxy n st → wf_galaxy n (alter F i st).
Proof.
  intros HF Hwf. unfold wf_galaxy. rewrite length_alter.
  apply Forall_alter; [done|]. intros s _. apply HF.
Qed.

Lemma wf_upd_credits n st i f :
  wf_galaxy n st → wf_galaxy n (upd_credits i f st).
Proof. apply wf_alter. intros s [? ? ? ? ?]. by constructor. Qed.

Lemma wf_upd_stock n st i g f :
  wf_galaxy n st → wf_galaxy n (upd_stock i g f st).
Proof.
  apply wf_alter. intros s [? ? ? ? ?].
  constructor; simpl; rewrite ?length_alter; done.
Qed.

Lemma wf_upd_price n st i g f :
  wf_galaxy n st → wf_galaxy n (upd_price i g f st).
Proof.
  apply wf_alter. intros s [? ? ? ? ?].
  constructor; simpl; rewrite ?length_alter; done.
Qed.

Lemma wf_upd_prod_mod n st i g f :
  wf_galaxy n st → wf_galaxy n (upd_prod_mod i g f st).
Proof.
  apply wf_alter. intros s [? ? ? ? ?].
  constructor; simpl; rewrite ?length_alter; done.
Qed.

Lemma wf_upd_bought n st i g f :
  wf_galaxy n st → wf_galaxy n (upd_bought i g f st).
Proof.
  apply wf_alter. intros s [? ? ? ? ?].
  constructor; simpl; rewrite ?length_alter; done.
Qed.

Lemma length_upd_credits st i f : length (upd_credits i f st) = length st.
Proof. apply length_alter. Qed.
Lemma length_upd_stock st i g f : length (upd_stock i g f st) = length st.
Proof. apply length_alter. Qed.
Lemma length_upd_price st i g f : length (upd_price i g f st) = length st.
Proof. apply length_alter. Qed.
Lemma length_upd_prod_mod st i g f :
  length (upd_prod_mod i g f st) = length st.
Proof. apply length_alter. Qed.
Lemma length_upd_bought st i g f : length (upd_bought i g f st) = length st.
Proof. apply length_alter. Qed.

(** A write to one field leaves the reads of the other fields alone. *)
Ltac frame :=
  intros;
  unfold sys_credits, sys_stock, sys_price, sys_prod_mod, sys_bought,
    upd_credits, upd_stock, upd_price, upd_prod_mod, upd_bought;
  rewrite list_lookup_alter; case_decide; [subst|done];
  match goal with |- context [?st !! ?i] => destruct (st !! i) end; done.

Lemma credits_upd_stock st i g f k :
  sys_credits (upd_stock i g f st) k = sys_credits st k.
Proof. frame. Qed.
Lemma credits_upd_price st i g f k :
  sys_credits (upd_price i g f st) k = sys_credits st k.
Proof. frame. Qed.
Lemma credits_upd_bought st i g f k :
  sys_credits (upd_bought i g f st) k = sys_credits st k.
Proof. frame. Qed.
Lemma stock_upd_credits st i f k h :
  sys_stock (upd_credits i f st) k h = sys_stock st k h.
Proof. frame. Qed.
Lemma stock_upd_price st i g f k h :
  sys_stock (upd_price i g f st) k h = sys_stock st k h.
Proof. frame. Qed.
Lemma stock_upd_bought st i g f k h :
  sys_stock (upd_bought i g f st) k h = sys_stock st k h.
Proof. frame. Qed.
Lemma prod_mod_upd_credits st i f k h :
  sys_prod_mod (upd_credits i f st) k h = sys_prod_mod st k h.
Proof. frame. Qed.
Lemma prod_mod_upd_stock st i g f k h :
  sys_prod_mod (upd_stock i g f st) k h = sys_prod_mod st k h.
Proof. frame. Qed.
Lemma prod_mod_upd_price st i g f k h :
  sys_prod_mod (upd_price i g f st) k h = sys_prod_mod st k h.
Proof. frame. Qed.
Lemma prod_mod_upd_bought st i g f k h :
  sys_prod_mod (upd_bought i g f st) k h = sys_prod_mod st k h.
Proof. frame. Qed.

(** A write is read back, and leaves the other cells of its field
    alone. *)
Lemma credits_upd_credits_eq st i f :
  (i < length st)%nat →
  sys_credits (upd_credits i f st) i = f (sys_credits st i).
Proof.
  intros Hi. unfold sys_credits, upd_credits.
  rewrite list_lookup_alter_eq.
  destruct (lookup_lt_is_Some_2 st i Hi) as [s ->]. done.
Qed.

Lemma credits_upd_credits_ne st i f k :
  i ≠ k → sys_credits (upd_credits i f st) k = sys_credits st k.
Proof.
  intros Hne. unfold sys_credits, upd_credits.
  by rewrite list_lookup_alter_ne.
Qed.

Lemma stock_upd_stock_eq n st i g f :
  wf_galaxy n st → (i < length st)%nat → (g < n)%nat →
  sys_stock (upd_stock i g f st) i g = f (sys_stock st i g).
Proof.
  intros Hwf Hi Hg. unfold sys_stock, upd_stock.
  rewrite list_lookup_alter_eq.
  destruct (lookup_lt_is_Some_2 st i Hi) as [s Hs]. rewrite Hs. simpl.
  apply rd_alter_eq. rewrite (wf_stockpiles _ _ _ (wf_lookup _ _ _ _ Hwf Hs)).
  done.
Qed.

Lemma stock_upd_stock_ne st i g f k h :
  i ≠ k ∨ g ≠ h →
  sys_stock (upd_stock i g f st) k h = sys_stock st k h.
Proof.
  intros Hne. unfold sys_stock, upd_stock.
  rewrite list_lookup_alter. case_decide; [subst|done].
  destruct (st !! k); [simpl|done].
  apply rd_alter_ne. destruct Hne; done.
Qed.

Lemma price_upd_price_eq n st i g f :
  wf_galaxy n st → (i < length st)%nat → (g < n)%nat →
  sys_price (upd_price i g f st) i g = f (sys_price st i g).
Proof.
  intros Hwf Hi Hg. unfold sys_price, upd_price.
  rewrite list_lookup_alter_eq.
  destruct (lookup_lt_is_Some_2 st i Hi) as [s Hs]. rewrite Hs. simpl.
  apply rd_alter_eq. rewrite (wf_prices _ _ _ (wf_lookup _ _ _ _ Hwf Hs)).
  done.
Qed.

Lemma price_upd_price_ne st i g f k h :
  i ≠ k ∨ g ≠ h →
  sys_price (upd_price i g f st) k h = sys_price st k h.
Proof.
  intros Hne. unfold sys_price, upd_price.
  rewrite list_lookup_alter. case_decide; [subst|done].
  destruct (st !! k); [simpl|done].
  apply rd_alter_ne. destruct Hne; done.
Qed.

End Store.

(** ** Loops *)

(** A property every round of a loop keeps holds after the loop. *)
Lemma foldl_invariant {A B} (P : A → Prop) (f : A → B → A) (l : list B) (a : A) :
  P a → (∀ a b, b ∈ l → P a → P (f a b)) → P (foldl f a l).
Proof.
  revert a. induction l as [|b l IH]; intros a Ha Hstep; [done|].
  simpl. apply IH.
  - apply Hstep; [left|done].
  - intros a' b' Hb'. apply Hstep. by right.
Qed.

Lemma foldl_seq_S {A} (f : A → nat → A) (a : A) (m : nat) :
  foldl f a (seq 0 (S m)) = f (foldl f a (seq 0 m)) m.
Proof. rewrite seq_S, foldl_app. done. Qed.

(** ** Production and consumption *)

Section ProduceConsume.

Variable econ_nprices : nat.
Variable production_modifier : Q.

Local Abbreviation produced st k h :=
  (sys_stock st k h
   + production production_modifier (sys_prod_mod st k h) (sys_stock st k h)).

Lemma produce_consume_goods_spec (st0 st : galaxy) (i m : nat) :
  pc_frame econ_nprices st0 st → (i < length st)%nat → (m ≤ econ_nprices)%nat →
  let st' := foldl (produce_consume_good production_modifier i) st (seq 0 m) in
  pc_frame econ_nprices st0 st'
  ∧ ∀ k h, sys_stock st' k h
           = if decide (k = i ∧ (h < m)%nat) then produced st k h
             else sys_stock st k h.
Proof.
  intros Hfr Hi. induction m as [|m IH]; intros Hm; cbv zeta.
  - split; [done|]. intros k h. case_decide; [lia|done].
  - destruct IH as [IHfr IHst]; [lia|].
    rewrite foldl_seq_S.
    set (st1 := foldl (produce_consume_good production_modifier i) st (seq 0 m)) in *.
    destruct IHfr as [Hwf Hlen Hcr Hpm].
    assert (i < length st1)%nat as Hi1
        by (rewrite Hlen, <- (pc_length _ _ _ Hfr); done).
    unfold produce_consume_good. split.
    + constructor.
      * by apply wf_upd_stock.
      * by rewrite length_upd_stock.
      * intros k. by rewrite credits_upd_stock.
      * intros k h. by rewrite prod_mod_upd_stock.
    + intros k h.
      destruct (decide (i = k ∧ m = h)) as [[-> ->]|Hne].
      * rewrite (stock_upd_stock_eq econ_nprices) by (done || lia).
        rewrite decide_True by lia.
        rewrite IHst, decide_False by lia.
        destruct Hfr as [_ _ _ Hpm0].
        f_equal. f_equal. rewrite Hpm. done.
      * rewrite stock_upd_stock_ne
          by (destruct (decide (i = k)); [right; intros ->; tauto|by left]).
        rewrite IHst. repeat case_decide; try done; lia.
Qed.

Lemma produce_consume_systems_spec (st : galaxy) (m : nat) :
  wf_galaxy econ_nprices st → (m ≤ length st)%nat →
  let st' :=
    foldl (produce_consume_system econ_nprices production_modifier) st
          (seq 0 m) in
  pc_frame econ_nprices st st'
  ∧ ∀ k h, sys_stock st' k h
           = if decide ((k < m)%nat ∧ (h < econ_nprices)%nat)
             then produced st k h else sys_stock st k h.
Proof.
  intros Hwf. induction m as [|m IH]; intros Hm; cbv zeta.
  - split; [constructor; done|]. intros k h. case_decide; [lia|done].
  - destruct IH as [IHfr IHst]; [lia|].
    rewrite foldl_seq_S.
    set (st1 := foldl _ st (seq 0 m)) in *.
    unfold produce_consume_system.
    destruct (produce_consume_goods_spec st st1 m econ_nprices)
      as [Hfr Hst]; [done|rewrite (pc_length _ _ _ IHfr); lia|done|].
    split; [done|]. intros k h. rewrite Hst.
    rewrite !IHst, (pc_prod_mods _ _ _ IHfr).
    repeat case_decide; try done; lia.
Qed.

(** [produce_consume] adds [production] of the old stockpile to every
    stockpile, and changes nothing else the engine reads. *)
Lemma produce_consume_spec (st : galaxy) :
  wf_galaxy econ_nprices st →
  pc_frame econ_nprices st (produce_consume econ_nprices production_modifier st)
  ∧ ∀ i g, (i < length st)%nat → (g < econ_nprices)%nat →
      sys_stock (produce_consume econ_nprices production_modifier st) i g
      = produced st i g.
Proof.
  intros Hwf.
  destruct (produce_consume_systems_spec st (length st) Hwf) as [Hfr Hst];
    [done|].
  split; [done|]. intros i g Hi Hg.
  unfold produce_consume. rewrite Hst, decide_True; done.
Qed.

End ProduceConsume.

Lemma sample_galaxy_wf : wf_galaxy 1 sample_galaxy.
Proof. repeat constructor. Qed.

(** C4, as the code has it.  For every system [i] and priced commodity
    [g], [produce_consume] replaces [stockpiles[g]] by [stockpiles[g] +
    production(prod_mods[g], stockpiles[g])], where for a modifier [>= 0]
    the adjustment is [production_modifier * modifier * (180000 /
    stockpile)] and for a modifier [< 0] it is [production_modifier *
    modifier * (stockpile / 18000)]: the producing constant 180000 is of
    order 10^5, the consuming constant 18000 of order 10^4. *)
Theorem produce_consume_adjustment
    (econ_nprices : nat) (production_modifier : Q) (st : galaxy) (i g : nat) :
  wf_galaxy econ_nprices st → (i < length st)%nat → (g < econ_nprices)%nat →
  sys_stock (produce_consume econ_nprices production_modifier st) i g
  = sys_stock st i g
    + production production_modifier (sys_prod_mod st i g) (sys_stock st i g)
  ∧ (∀ m s, 0 <= m →
       production production_modifier m s
       = production_modifier * m * (180000 / s))
  ∧ (∀ m s, m < 0 →
       production production_modifier m s
       = production_modifier * m * (s / 18000))
  ∧ (10 ^ 5 <= 180000 ∧ 180000 < 10 ^ 6)
  ∧ (10 ^ 4 <= 18000 ∧ 18000 < 10 ^ 5).
Proof.
  intros Hwf Hi Hg. split; [|split; [|split]].
  - by apply produce_consume_spec.
  - apply production_producing.
  - apply production_consuming.
  - done.
Qed.

Lemma produce_consume_adjustment_witness :
  sys_stock (produce_consume 1 (1 # 10) sample_galaxy) 1 0
  = sys_stock sample_galaxy 1 0
    + production (1 # 10) (sys_prod_mod sample_galaxy 1 0)
                 (sys_stock sample_galaxy 1 0).
Proof.
  apply (produce_consume_adjustment 1 (1 # 10) sample_galaxy 1 0).
  - apply sample_galaxy_wf.
  - simpl. lia.
  - lia.
Defined.

(** C4, as stated, fails: with the initial production rate [0.1], the
    consumption of a modifier [-1] on a stockpile of 18000 is not
    [production_modifier * modifier * (stockpile / K)] for any constant
    [K] of order 10^5. *)
Lemma consumption_constant_not_of_order_1e5 :
  ¬ ∃ K : Q, 10 ^ 5 <= K ∧ K < 10 ^ 6
             ∧ production (1 # 10) (-1) 18000
               == (1 # 10) * (-1) * (18000 / K).
Proof.
  intros (K & Hlo & Hhi & HK).
  assert (production (1 # 10) (-1) 18000 == - (1 # 10)) as Hp by reflexivity.
  rewrite Hp in HK.
  assert (10 ^ 5 == 100000) as H5 by reflexivity. rewrite H5 in Hlo.
  assert (18000 / K < 1) by (apply Qlt_shift_div_r; lra).
  lra.
Qed.

(** ** The buy-cost integrator and the price query *)

(** C8.  Whenever [p_goods - n_tons <= 1], [price_of_buying] returns the
    sentinel [0xFFFFFFFFFFFFFFF0] whatever the price curve and the
    credits are: no per-unit price is computed.  In the credits type the
    sentinel is 15 below the largest value. *)
Theorem price_of_buying_unaffordable
    (PRICE : Q → Q → Q) (n_tons : Z) (p_creds p_goods : Q) :
  p_goods - inject_Z n_tons <= 1 →
  price_of_buying PRICE n_tons p_creds p_goods = UNAFFORDABLE
  ∧ UNAFFORDABLE = (CREDITS_MAX - 15)%Z
  ∧ ∀ v : Z, (0 ≤ v ≤ CREDITS_MAX)%Z → (v ≤ UNAFFORDABLE + 15)%Z.
Proof.
  intros Hle. split; [|split].
  - unfold price_of_buying.
    apply Qle_bool_iff in Hle. by rewrite Hle.
  - reflexivity.
  - intros v. unfold CREDITS_MAX, UNAFFORDABLE. lia.
Qed.

Lemma price_of_buying_unaffordable_witness :
  price_of_buying sample_PRICE 99999 100000000 100000 = UNAFFORDABLE.
Proof.
  apply (price_of_buying_unaffordable sample_PRICE 99999 100000000 100000).
  vm_compute. discriminate.
Defined.

Section GetPrice.

Variable econ_comm : list Z.

(** The search loop stops at the first slot of [econ_comm] that holds
    [idx], or at the end. *)
Lemma getPrice_scan_spec (idx : Z) (fuel i : nat) :
  let r := getPrice_scan econ_comm idx i fuel in
  (i ≤ r ≤ i + fuel)%nat
  ∧ (∀ j, (i ≤ j < r)%nat → econ_comm !! j ≠ Some idx)
  ∧ ((r < i + fuel)%nat → econ_comm !! r = Some idx).
Proof.
  revert i. induction fuel as [|fuel IH]; intros i; simpl.
  - split; [lia|]. split; intros; lia.
  - case_bool_decide as Hi.
    + split; [lia|]. split; [intros; lia|done].
    + destruct (IH (S i)) as (Hr & Hbefore & Hat).
      split; [lia|]. split.
      * intros j Hj. destruct (decide (j = i)) as [->|]; [done|].
        apply Hbefore. lia.
      * intros Hlt. apply Hat. lia.
Qed.

End GetPrice.

(** The query in the terms of its own loop, for any [econ_comm] and any
    [com->index].  When [com->index] is in none of the [econ_nprices]
    slots of [econ_comm], [economy_getPrice] returns 0 and logs one
    warning; when it is, the result is the price curve at the system's
    credits and its stockpile [i], truncated to an integer, with [i] the
    first slot that holds [com->index], and nothing is logged.  There is
    no other effect, and the planet does not matter.  Whether that slot
    is the commodity's own is another matter: [econ_comm] holds catalog
    slots, [com->index] is assigned by [commodity_load]. *)
Lemma economy_getPrice_spec
    (PRICE : Q → Q → Q) (econ_nprices : nat) (econ_comm : list Z)
    (com : Commodity) (sys : StarSystem) (p : Planet) (warnings : list string) :
  (index com ∉ take econ_nprices econ_comm →
   economy_getPrice PRICE econ_nprices econ_comm com sys p warnings
   = (0%Z, warnings ++ [price_unknown_msg com]))
  ∧ (index com ∈ take econ_nprices econ_comm →
     ∃ i : nat,
       (i < econ_nprices)%nat
       ∧ econ_comm !! i = Some (index com)
       ∧ (∀ j, (j < i)%nat → econ_comm !! j ≠ Some (index com))
       ∧ economy_getPrice PRICE econ_nprices econ_comm com sys p warnings
         = (Qtrunc (PRICE (credits sys) (rd (stockpiles sys) i)), warnings))
  ∧ (∀ p' : Planet,
       economy_getPrice PRICE econ_nprices econ_comm com sys p' warnings
       = economy_getPrice PRICE econ_nprices econ_comm com sys p warnings).
Proof.
  pose proof (getPrice_scan_spec econ_comm (index com) econ_nprices 0)
    as (Hr & Hbefore & Hat).
  cbv zeta in *. unfold economy_getPrice.
  set (r := getPrice_scan econ_comm (index com) 0 econ_nprices) in *.
  split; [|split].
  - intros Hnotin. rewrite bool_decide_true; [done|].
    destruct (decide (econ_nprices ≤ r)%nat) as [|Hlt]; [done|].
    exfalso. apply Hnotin. apply list_elem_of_lookup. exists r.
    rewrite lookup_take_lt by lia. apply Hat. lia.
  - intros Hin. apply list_elem_of_lookup in Hin as [j Hj].
    assert (j < econ_nprices)%nat as Hjn.
    { apply lookup_lt_Some in Hj. rewrite length_take in Hj. lia. }
    rewrite lookup_take_lt in Hj by done.
    assert (r ≤ j)%nat as Hrj.
    { destruct (decide (r ≤ j)%nat); [done|].
      exfalso. apply (Hbefore j); [lia|done]. }
    exists r. split; [lia|]. split; [apply Hat; lia|].
    split; [intros k Hk; apply Hbefore; lia|].
    rewrite bool_decide_false by lia. done.
  - done.
Qed.

Lemma economy_getPrice_spec_witness :
  economy_getPrice sample_PRICE 2 [0; 1]%Z (mkCommodity "Scrap" "" 0 7)
                   sample_sys0 sample_planet_A []
  = (0%Z, [price_unknown_msg (mkCommodity "Scrap" "" 0 7)])
  ∧ ∃ i : nat,
      (i < 2)%nat
      ∧ [0; 1]%Z !! i = Some 0%Z
      ∧ (∀ j, (j < i)%nat → [0; 1]%Z !! j ≠ Some 0%Z)
      ∧ economy_getPrice sample_PRICE 2 [0; 1]%Z (mkCommodity "Food" "" 10 0)
                         sample_sys0 sample_planet_A []
        = (Qtrunc (sample_PRICE (credits sample_sys0)
                                (rd (stockpiles sample_sys0) i)), []).
Proof.
  split.
  - apply (proj1 (economy_getPrice_spec sample_PRICE 2 [0; 1]%Z
             (mkCommodity "Scrap" "" 0 7) sample_sys0 sample_planet_A [])).
    apply (bool_decide_unpack _). vm_compute. exact I.
  - apply (proj1 (proj2 (economy_getPrice_spec sample_PRICE 2 [0; 1]%Z
             (mkCommodity "Food" "" 10 0) sample_sys0 sample_planet_A []))).
    simpl. constructor.
Defined.

(** C10, on the catalogs [commodity_load] builds.  From the data file
    [Mission Cargo (no price), Food (10)], Food is catalog slot 1 and the
    priced commodity 0, with [index] 0; [econ_comm] is [[1]].  The query
    compares [econ_comm[i]], a catalog slot, with [com->index]: for Food
    it finds nothing, logs the warning and returns 0, where the price at
    stockpile 0 is 1500.  From [Ore (5), Mission Cargo (no price), Food
    (7), Passengers (no price)], [econ_comm] is [[0; 2]]; Food, the priced
    commodity 1, has [index] 0 and is priced at stockpile 0, that of Ore
    (1500, not 3000); Passengers, which has no price, has [index] 0 too
    and gets 1500 without a warning. *)
Theorem economy_getPrice_confuses_slots :
  let food := mkCommodity "Food" "" 10 0 in
  let food' := mkCommodity "Food" "" 7 0 in
  let passengers := mkCommodity "Passengers" "" 0 0 in
  (commodity_load sample_nodes
   = mkCatalog [mkCommodity "Mission Cargo" "" 0 0; food] [1%Z] 1
   ∧ Qtrunc (sample_PRICE (credits sample_sys0)
                          (rd (stockpiles sample_sys0) 0)) = 1500%Z
   ∧ economy_getPrice sample_PRICE
       (cat_nprices (commodity_load sample_nodes))
       (cat_comm (commodity_load sample_nodes))
       food sample_sys0 sample_planet_A []
     = (0%Z, ["Price for commodity 'Food' not known."%string]))
  ∧ (commodity_load sample_mixed_nodes
     = mkCatalog [mkCommodity "Ore" "" 5 0; mkCommodity "Mission Cargo" "" 0 1;
                  food'; passengers] [0%Z; 2%Z] 2
     ∧ Qtrunc (sample_PRICE (credits sample_market)
                            (rd (stockpiles sample_market) 0)) = 1500%Z
     ∧ Qtrunc (sample_PRICE (credits sample_market)
                            (rd (stockpiles sample_market) 1)) = 3000%Z
     ∧ economy_getPrice sample_PRICE
         (cat_nprices (commodity_load sample_mixed_nodes))
         (cat_comm (commodity_load sample_mixed_nodes))
         food' sample_market sample_planet_A []
       = (1500%Z, [])
     ∧ economy_getPrice sample_PRICE
         (cat_nprices (commodity_load sample_mixed_nodes))
         (cat_comm (commodity_load sample_mixed_nodes))
         passengers sample_market sample_planet_A []
       = (1500%Z, [])).
Proof. vm_compute. repeat split. Qed.

(** ** The tick driver *)

Section TickDriver.

Variable PRICE : Q → Q → Q.
Variable econ_nprices : nat.
Variable trade_modifier : Q.
Variable production_modifier : Q.
Variable commodity_stack : list Commodity.

Local Abbreviation round :=
  (economy_round PRICE econ_nprices trade_modifier production_modifier
                 commodity_stack).
Local Abbreviation loop :=
  (economy_update_loop PRICE econ_nprices trade_modifier production_modifier
                       commodity_stack).

(** As long as the counter does not wrap, the loop runs [d] more rounds
    when [dt] lies in the last of the next [d] sub-steps. *)
Lemma economy_update_loop_runs (d : nat) :
  ∀ (i dt : Z) (fuel : nat) (st : galaxy),
    (0 ≤ i)%Z → (i + Z.of_nat d * 10000000 < 2 ^ 32)%Z →
    (dt ≤ i + Z.of_nat d * 10000000)%Z →
    (d = 0%nat ∨ i + (Z.of_nat d - 1) * 10000000 < dt)%Z →
    (d ≤ fuel)%nat →
    loop fuel i dt st = Some (Nat.iter d round st).
Proof.
  induction d as [|d IH]; intros i dt fuel st Hi Hmax Hhi Hlo Hfuel.
  - destruct fuel; simpl; rewrite bool_decide_false by lia; done.
  - destruct fuel as [|fuel]; [lia|]. simpl loop.
    rewrite bool_decide_true by lia.
    assert (uint_add_step i = i + 10000000)%Z as ->.
    { unfold uint_add_step. apply Z.mod_small. lia. }
    rewrite IH by lia.
    by rewrite Nat.iter_succ_r.
Qed.

(** Up to the last multiple of the sub-step below [2^32], the driver
    reprices once and then runs the round [ceiling(dt / 10,000,000)]
    times. *)
Lemma economy_update_rounds (dt : Z) (fuel : nat) (st : galaxy) :
  (0 ≤ dt ≤ 4290000000)%Z → (rounds_needed dt ≤ fuel)%nat →
  economy_update PRICE econ_nprices trade_modifier production_modifier
                 commodity_stack fuel dt st
  = Some (Nat.iter (rounds_needed dt) round
            (refresh_prices PRICE econ_nprices commodity_stack st)).
Proof.
  intros Hdt Hfuel. unfold economy_update.
  apply economy_update_loop_runs; try done; unfold rounds_needed in *.
  - change (2 ^ 32)%Z with 4294967296%Z.
    rewrite Z2Nat.id by (apply Z.div_pos; lia).
    Z.div_mod_to_equations. lia.
  - rewrite Z2Nat.id by (apply Z.div_pos; lia).
    Z.div_mod_to_equations. lia.
  - destruct (decide (dt = 0%Z)) as [->|]; [by left|right].
    rewrite Z2Nat.id by (apply Z.div_pos; lia).
    Z.div_mod_to_equations. lia.
Qed.

(** The counter only takes even values below [2^32], so it never
    reaches the largest [unsigned int]. *)
Lemma economy_update_loop_diverges (fuel : nat) :
  ∀ (i : Z) (st : galaxy),
    (0 ≤ i < 2 ^ 32)%Z → (i mod 2 = 0)%Z →
    loop fuel i 4294967295 st = None.
Proof.
  change (2 ^ 32)%Z with 4294967296%Z.
  induction fuel as [|fuel IH]; intros i st Hi Heven; simpl;
    (rewrite bool_decide_true by (Z.div_mod_to_equations; lia)); [done|].
  apply IH; unfold uint_add_step; change (2 ^ 32)%Z with 4294967296%Z;
    Z.div_mod_to_equations; lia.
Qed.

End TickDriver.

(** C5 at [dt = UINT_MAX].  The stated round count is 430, but after 430
    rounds the [unsigned int] counter has wrapped around [2^32] to
    5032704, below [dt]: whatever the number of rounds allowed,
    [economy_update] is still running. *)
Theorem economy_update_wraps_forever
    (PRICE : Q → Q → Q) (econ_nprices : nat)
    (trade_modifier production_modifier : Q)
    (commodity_stack : list Commodity) (st : galaxy) :
  rounds_needed 4294967295 = 430%nat
  ∧ Nat.iter 429 uint_add_step 0%Z = 4290000000%Z
  ∧ Nat.iter 430 uint_add_step 0%Z = 5032704%Z
  ∧ ∀ fuel : nat,
      economy_update PRICE econ_nprices trade_modifier production_modifier
                     commodity_stack fuel 4294967295 st = None.
Proof.
  split; [reflexivity|]. split; [by vm_compute|]. split; [by vm_compute|].
  intros fuel. unfold economy_update.
  apply economy_update_loop_diverges; [|reflexivity].
  change (2 ^ 32)%Z with 4294967296%Z. lia.
Qed.

(** ** Repricing *)

Section RefreshPrices.

Variable PRICE : Q → Q → Q.
Variable econ_nprices : nat.
Variable commodity_stack : list Commodity.

Local Abbreviation priced st k h :=
  (stack_price commodity_stack h * PRICE (sys_credits st k) (sys_stock st k h)).

Lemma refresh_prices_goods_spec (st0 st : galaxy) (i m : nat) :
  rp_frame econ_nprices st0 st → (i < length st)%nat → (m ≤ econ_nprices)%nat →
  let st' :=
    foldl (refresh_prices_good PRICE commodity_stack i) st (seq 0 m) in
  rp_frame econ_nprices st0 st'
  ∧ ∀ k h, sys_price st' k h
           = if decide (k = i ∧ (h < m)%nat) then priced st0 k h
             else sys_price st k h.
Proof.
  intros Hfr Hi. induction m as [|m IH]; intros Hm; cbv zeta.
  - split; [done|]. intros k h. case_decide; [lia|done].
  - destruct IH as [IHfr IHst]; [lia|].
    rewrite foldl_seq_S.
    set (st1 := foldl (refresh_prices_good PRICE commodity_stack i) st (seq 0 m)) in *.
    destruct IHfr as [Hwf Hlen Hcr Hstk Hpm].
    assert (i < length st1)%nat as Hi1
        by (rewrite Hlen, <- (rp_length _ _ _ Hfr); done).
    unfold refresh_prices_good. split.
    + constructor.
      * by apply wf_upd_price.
      * by rewrite length_upd_price.
      * intros k. by rewrite credits_upd_price.
      * intros k h. by rewrite stock_upd_price.
      * intros k h. by rewrite prod_mod_upd_price.
    + intros k h.
      destruct (decide (i = k ∧ m = h)) as [[-> ->]|Hne].
      * rewrite (price_upd_price_eq econ_nprices) by (done || lia).
        rewrite decide_True by lia.
        rewrite Hcr, Hstk. done.
      * rewrite price_upd_price_ne
          by (destruct (decide (i = k)); [right; intros ->; tauto|by left]).
        rewrite IHst. repeat case_decide; try done; lia.
Qed.

Lemma refresh_prices_systems_spec (st : galaxy) (m : nat) :
  wf_galaxy econ_nprices st → (m ≤ length st)%nat →
  let st' :=
    foldl (refresh_prices_system PRICE econ_nprices commodity_stack) st
          (seq 0 m) in
  rp_frame econ_nprices st st'
  ∧ ∀ k h, sys_price st' k h
           = if decide ((k < m)%nat ∧ (h < econ_nprices)%nat)
             then priced st k h else sys_price st k h.
Proof.
  intros Hwf. induction m as [|m IH]; intros Hm; cbv zeta.
  - split; [constructor; done|]. intros k h. case_decide; [lia|done].
  - destruct IH as [IHfr IHst]; [lia|].
    rewrite foldl_seq_S.
    set (st1 := foldl _ st (seq 0 m)) in *.
    unfold refresh_prices_system.
    destruct (refresh_prices_goods_spec st st1 m econ_nprices)
      as [Hfr Hst]; [done|rewrite (rp_length _ _ _ IHfr); lia|done|].
    split; [done|]. intros k h. rewrite Hst, !IHst.
    repeat case_decide; try done; lia.
Qed.

(** [refresh_prices] stores, for every system and good [g], the price of
    [commodity_stack[g]] times the price curve, and changes nothing else
    the engine reads. *)
Lemma refresh_prices_spec (st : galaxy) :
  wf_galaxy econ_nprices st →
  rp_frame econ_nprices st (refresh_prices PRICE econ_nprices commodity_stack st)
  ∧ ∀ i g, (i < length st)%nat → (g < econ_nprices)%nat →
      sys_price (refresh_prices PRICE econ_nprices commodity_stack st) i g
      = priced st i g.
Proof.
  intros Hwf.
  destruct (refresh_prices_systems_spec st (length st) Hwf) as [Hfr Hst];
    [done|].
  split; [done|]. intros i g Hi Hg.
  unfold refresh_prices. rewrite Hst, decide_True; done.
Qed.

End RefreshPrices.

(** C6 on a data file whose first commodity has no price.  The load makes
    "Food" (slot 1, base price 10) the priced commodity 0, yet
    [refresh_prices] prices good 0 with the base price of slot 0, which is
    0: the stored price is [0 * PRICE(credits, stockpile)], not
    [10 * PRICE(credits, stockpile)]. *)
Theorem refresh_prices_reads_wrong_slot (PRICE : Q → Q → Q) :
  let cat := commodity_load sample_nodes in
  cat_nprices cat = 1%nat
  ∧ cat_comm cat = [1%Z]
  ∧ priced_base_price cat 0 = 10
  ∧ stack_price (cat_stack cat) 0 = 0
  ∧ sys_price (refresh_prices PRICE 1 (cat_stack cat) sample_galaxy) 0 0
    = 0 * PRICE (sys_credits sample_galaxy 0) (sys_stock sample_galaxy 0 0)
  ∧ ¬ sys_price
        (refresh_prices sample_PRICE 1 (cat_stack cat) sample_galaxy) 0 0
      == priced_base_price cat 0
         * sample_PRICE (sys_credits sample_galaxy 0)
                        (sys_stock sample_galaxy 0 0).
Proof.
  cbv zeta. repeat split; try reflexivity.
  vm_compute. discriminate.
Qed.

(** ** Aggregation of planetary production *)

Section RefreshEconomy.

Variable econ_nprices : nat.

Implicit Types (st : galaxy) (out : list string).

Lemma prod_mod_upd_prod_mod st (i g : nat) (f : Q → Q) (k h : nat) :
  wf_galaxy econ_nprices st → (i < length st)%nat → (g < econ_nprices)%nat →
  sys_prod_mod (upd_prod_mod i g f st) k h
  = if decide (k = i ∧ h = g) then f (sys_prod_mod st k h)
    else sys_prod_mod st k h.
Proof.
  intros Hwf Hi Hg. unfold sys_prod_mod, upd_prod_mod.
  rewrite list_lookup_alter.
  destruct (lookup_lt_is_Some_2 st i Hi) as [s Hs].
  pose proof (wf_prod_mods _ _ _ (wf_lookup _ _ _ _ Hwf Hs)) as Hlen.
  destruct (decide (i = k)) as [<-|Hik].
  - rewrite Hs. simpl. case_decide as Hh.
    + destruct Hh as [_ ->]. apply rd_alter_eq. lia.
    + apply rd_alter_ne. intros ->. by apply Hh.
  - rewrite decide_False by (intros [-> _]; done). done.
Qed.

Lemma planets_upd_prod_mod st (i g : nat) (f : Q → Q) (k : nat) :
  planets_of (upd_prod_mod i g f st) k = planets_of st k.
Proof.
  unfold planets_of, upd_prod_mod. rewrite list_lookup_alter.
  case_decide; [subst|done]. by destruct (st !! k).
Qed.

Lemma re_frame_upd_prod_mod st0 st (i g : nat) (f : Q → Q) :
  re_frame econ_nprices st0 st →
  re_frame econ_nprices st0 (upd_prod_mod i g f st).
Proof.
  intros [Hwf Hlen Hpl]. constructor.
  - by apply wf_upd_prod_mod.
  - by rewrite length_upd_prod_mod.
  - intros k. by rewrite planets_upd_prod_mod.
Qed.

(** The loop over initialized planets adds their modifiers to the cell
    of system [i] and good [comm], prints nothing and does not fault. *)
Lemma refresh_economy_planets_spec (st0 : galaxy) (i comm : nat)
    (pls : list Planet) :
  (∀ p, p ∈ pls → is_Some (planet_prod_mods p)) →
  ∀ st out,
    re_frame econ_nprices st0 st →
    (i < length st)%nat → (comm < econ_nprices)%nat →
    ∃ st',
      refresh_economy_planets i comm pls st out = Some (st', out)
      ∧ re_frame econ_nprices st0 st'
      ∧ ∀ k h, sys_prod_mod st' k h
               = if decide (k = i ∧ h = comm)
                 then foldl (λ m p, m + planet_mod p comm)
                            (sys_prod_mod st k h) pls
                 else sys_prod_mod st k h.
Proof.
  induction pls as [|p pls IH]; intros Hinit st out Hfr Hi Hcomm.
  - exists st. split; [done|]. split; [done|].
    intros k h. by case_decide.
  - destruct (Hinit p) as [a Ha]; [left|].
    cbn [refresh_economy_planets]. unfold prod_mods_plus_is_null.
    rewrite Ha.
    destruct (IH (λ q Hq, Hinit q (list_elem_of_further _ _ _ Hq))
                 (upd_prod_mod i comm (λ m, m + rd a comm) st) out)
      as (st' & Hrun & Hfr' & Hread);
      [by apply re_frame_upd_prod_mod|by rewrite length_upd_prod_mod|done|].
    exists st'. split; [done|]. split; [done|].
    intros k h. rewrite Hread.
    rewrite prod_mod_upd_prod_mod by (done || apply (re_wf _ _ _ Hfr)).
    case_decide; [|done].
    assert (planet_mod p comm = rd a comm) as Hp
        by (unfold planet_mod; by rewrite Ha).
    cbn [foldl]. by rewrite Hp.
Qed.

Lemma refresh_economy_goods_spec (st0 st : galaxy) (i m : nat) out :
  initialized st0 →
  re_frame econ_nprices st0 st →
  (i < length st)%nat → (m ≤ econ_nprices)%nat →
  ∃ st',
    foldl (refresh_economy_good i) (Some (st, out)) (seq 0 m)
    = Some (st', out)
    ∧ re_frame econ_nprices st0 st'
    ∧ ∀ k h, sys_prod_mod st' k h
             = if decide (k = i ∧ (h < m)%nat) then aggregated st0 k h
               else sys_prod_mod st k h.
Proof.
  intros Hinit Hfr Hi. induction m as [|m IH]; intros Hm.
  - exists st. split; [done|]. split; [done|].
    intros k h. case_decide; [lia|done].
  - destruct IH as (st1 & Hrun1 & Hfr1 & Hread1); [lia|].
    rewrite foldl_seq_S, Hrun1. simpl.
    assert (i < length st1)%nat as Hi1
        by (rewrite (re_length _ _ _ Hfr1), <- (re_length _ _ _ Hfr); done).
    fold (planets_of (upd_prod_mod i m (λ _, 0) st1) i).
    rewrite planets_upd_prod_mod, (re_planets _ _ _ Hfr1).
    destruct (refresh_economy_planets_spec st0 i m (planets_of st0 i)
                (λ p Hp, Hinit i p Hp)
                (upd_prod_mod i m (λ _, 0) st1) out)
      as (st2 & Hrun2 & Hfr2 & Hread2);
      [by apply re_frame_upd_prod_mod|by rewrite length_upd_prod_mod|lia|].
    exists st2. split; [done|]. split; [done|].
    intros k h. rewrite Hread2.
    rewrite !prod_mod_upd_prod_mod
      by (done || lia || apply (re_wf _ _ _ Hfr1)).
    rewrite Hread1. unfold aggregated.
    repeat case_decide; try done; try lia.
    all: repeat match goal with H : _ ∧ _ |- _ => destruct H end; subst.
    all: try done; lia.
Qed.

Lemma refresh_economy_systems_spec (st : galaxy) (m : nat) out :
  initialized st → wf_galaxy econ_nprices st → (m ≤ length st)%nat →
  ∃ st',
    foldl (refresh_economy_system econ_nprices) (Some (st, out)) (seq 0 m)
    = Some (st', out)
    ∧ re_frame econ_nprices st st'
    ∧ ∀ k h, sys_prod_mod st' k h
             = if decide ((k < m)%nat ∧ (h < econ_nprices)%nat)
               then aggregated st k h else sys_prod_mod st k h.
Proof.
  intros Hinit Hwf. induction m as [|m IH]; intros Hm.
  - exists st. split; [done|]. split; [constructor; done|].
    intros k h. case_decide; [lia|done].
  - destruct IH as (st1 & Hrun1 & Hfr1 & Hread1); [lia|].
    rewrite foldl_seq_S, Hrun1. unfold refresh_economy_system at 1.
    destruct (refresh_economy_goods_spec st st1 m econ_nprices out)
      as (st2 & Hrun2 & Hfr2 & Hread2);
      [done|done|rewrite (re_length _ _ _ Hfr1); lia|done|].
    exists st2. split; [done|]. split; [done|].
    intros k h. rewrite Hread2, Hread1.
    repeat case_decide; try done; lia.
Qed.

(** When every planet has its array, [refresh_economy] sets every
    production modifier of every system to the sum of the modifiers of
    its planets, prints its heading only and does not fault. *)
Lemma refresh_economy_initialized (st : galaxy) :
  initialized st → wf_galaxy econ_nprices st →
  ∃ st',
    refresh_economy econ_nprices st
    = Some (st', ["refreshing economy"%string])
    ∧ ∀ i g, (i < length st)%nat → (g < econ_nprices)%nat →
        sys_prod_mod st' i g = aggregated st i g.
Proof.
  intros Hinit Hwf.
  destruct (refresh_economy_systems_spec st (length st)
              ["refreshing economy"%string] Hinit Hwf)
    as (st' & Hrun & _ & Hread); [done|].
  exists st'. split; [done|].
  intros i g Hi Hg. rewrite Hread, decide_True; done.
Qed.

End RefreshEconomy.

(** C7 on a system whose first planet has no production data and whose
    second planet produces 5 of good 0.  With one priced commodity the
    first planet is reported and the loop over the planets is left: the
    second planet is not added and the modifier of the system stays 0,
    not 5.  With two priced commodities the null test fails for good 1
    and the null array is read: a fault. *)
Theorem refresh_economy_stops_at_uninitialized :
  (∃ st' : galaxy,
     refresh_economy 1 (sample_lonely 1)
     = Some (st', ["refreshing economy"%string;
                   uninitialized_msg sample_planet_A])
     ∧ sys_prod_mod st' 0 0 = 0
     ∧ Qsum (omap (λ p, (λ a, rd a 0) <$> planet_prod_mods p)
                  [sample_planet_A; sample_planet_B]) == 5)
  ∧ refresh_economy 2 (sample_lonely 2) = None.
Proof.
  split; [|reflexivity].
  eexists. split; [reflexivity|]. split; reflexivity.
Qed.

(** ** Totals under writes *)

Section Totals.

Implicit Types (st : galaxy) (f : Q → Q).

Lemma Qsum_alter (l : list Q) (i : nat) f :
  (i < length l)%nat → Qsum (alter f i l) == Qsum l + (f (rd l i) - rd l i).
Proof.
  revert i. induction l as [|x l IH]; intros i Hi; simpl in Hi; [lia|].
  destruct i as [|i].
  - unfold rd. simpl. ring.
  - change (Qsum (alter f (S i) (x :: l))) with (x + Qsum (alter f i l)).
    change (Qsum (x :: l)) with (x + Qsum l).
    change (rd (x :: l) (S i)) with (rd l i).
    rewrite IH by lia. ring.
Qed.

Lemma fmap_alter_same {A B} (v : A → B) (F : A → A) (i : nat) (l : list A) :
  (∀ x, v (F x) = v x) → v <$> alter F i l = v <$> l.
Proof.
  intros Hv. rewrite (list_fmap_alter v F (λ y, y)).
  - by apply list_alter_id.
  - apply Forall_forall. intros x _. apply Hv.
Qed.

Lemma total_credits_upd_credits st i f :
  (i < length st)%nat →
  total_credits (upd_credits i f st)
  == total_credits st + (f (sys_credits st i) - sys_credits st i).
Proof.
  intros Hi. unfold total_credits, upd_credits.
  rewrite (list_fmap_alter credits (set_credits f) f)
    by (apply Forall_forall; done).
  rewrite Qsum_alter by (by rewrite length_fmap).
  unfold rd, sys_credits. rewrite list_lookup_fmap. done.
Qed.

Lemma total_credits_upd_stock st i g f :
  total_credits (upd_stock i g f st) = total_credits st.
Proof. unfold total_credits, upd_stock. by rewrite fmap_alter_same. Qed.

Lemma total_credits_upd_bought st i g f :
  total_credits (upd_bought i g f st) = total_credits st.
Proof. unfold total_credits, upd_bought. by rewrite fmap_alter_same. Qed.

Lemma total_stock_upd_credits st i f h :
  total_stock h (upd_credits i f st) = total_stock h st.
Proof. unfold total_stock, upd_credits. by rewrite fmap_alter_same. Qed.

Lemma total_stock_upd_bought st i g f h :
  total_stock h (upd_bought i g f st) = total_stock h st.
Proof. unfold total_stock, upd_bought. by rewrite fmap_alter_same. Qed.

Lemma total_stock_upd_stock_ne st i g f h :
  g ≠ h → total_stock h (upd_stock i g f st) = total_stock h st.
Proof.
  intros Hne. unfold total_stock, upd_stock.
  rewrite fmap_alter_same; [done|].
  intros s. simpl. by apply rd_alter_ne.
Qed.

Lemma total_stock_upd_stock_eq n st i g f :
  wf_galaxy n st → (i < length st)%nat → (g < n)%nat →
  total_stock g (upd_stock i g f st)
  == total_stock g st + (f (sys_stock st i g) - sys_stock st i g).
Proof.
  intros Hwf Hi Hg. unfold total_stock, upd_stock.
  rewrite (list_fmap_alter (λ s, rd (stockpiles s) g) _ f).
  - rewrite Qsum_alter by (by rewrite length_fmap).
    assert (rd ((λ s, rd (stockpiles s) g) <$> st) i = sys_stock st i g) as ->
        by (unfold rd at 1, sys_stock; by rewrite list_lookup_fmap).
    done.
  - eapply Forall_impl; [exact Hwf|]. intros s Hs. simpl.
    apply rd_alter_eq. rewrite (wf_stockpiles _ _ _ Hs). done.
Qed.

End Totals.

(** ** Trade: conservation *)

Section TradeConservation.

Variable econ_nprices : nat.
Variable trade_modifier : Q.

(** One good over one jump moves credits and stock from one endpoint to
    the other: the totals stay. *)
Lemma trade_good_conserves (st : galaxy) (i j g : nat) :
  wf_galaxy econ_nprices st →
  (i < length st)%nat → (j < length st)%nat → (g < econ_nprices)%nat →
  total_credits (trade_good trade_modifier i j st g) == total_credits st
  ∧ ∀ h, total_stock h (trade_good trade_modifier i j st g)
         == total_stock h st.
Proof.
  intros Hwf Hi Hj Hg. unfold trade_good.
  set (price := trade_price st i j g).
  set (trade := trade_flow trade_modifier st i j g).
  split.
  - rewrite !total_credits_upd_bought, !total_credits_upd_stock.
    rewrite !total_credits_upd_credits by (rewrite ?length_upd_credits; done).
    ring.
  - intros h. rewrite !total_stock_upd_bought.
    destruct (decide (g = h)) as [<-|Hne].
    + rewrite !(total_stock_upd_stock_eq econ_nprices)
        by (rewrite ?length_upd_stock, ?length_upd_credits;
            auto using wf_upd_stock, wf_upd_credits).
      rewrite !total_stock_upd_credits. ring.
    + rewrite !total_stock_upd_stock_ne by done.
      rewrite !total_stock_upd_credits. reflexivity.
Qed.

Lemma trade_good_wf (st : galaxy) (i j g : nat) :
  wf_galaxy econ_nprices st →
  wf_galaxy econ_nprices (trade_good trade_modifier i j st g).
Proof.
  intros Hwf. unfold trade_good.
  repeat first [apply wf_upd_bought | apply wf_upd_stock | apply wf_upd_credits].
  done.
Qed.

Lemma trade_good_length (st : galaxy) (i j g : nat) :
  length (trade_good trade_modifier i j st g) = length st.
Proof.
  unfold trade_good.
  by rewrite !length_upd_bought, !length_upd_stock, !length_upd_credits.
Qed.

End TradeConservation.

Section TradeUpdateConservation.

Variable econ_nprices : nat.
Variable trade_modifier : Q.
Variable st0 : galaxy.

Local Abbreviation kept := (conserved econ_nprices st0).

Lemma conserved_upd_bought (st : galaxy) (i g : nat) (f : Q → Q) :
  kept st → kept (upd_bought i g f st).
Proof.
  intros [Hwf Hlen Hc Hs]. constructor.
  - by apply wf_upd_bought.
  - by rewrite length_upd_bought.
  - by rewrite total_credits_upd_bought.
  - intros h. by rewrite total_stock_upd_bought.
Qed.

Lemma conserved_reset_bought (st : galaxy) :
  kept st → kept (reset_bought econ_nprices st).
Proof.
  intros Hst. unfold reset_bought.
  apply foldl_invariant; [done|]. intros st1 i _ Hst1.
  apply foldl_invariant; [done|]. intros st2 g _ Hst2.
  by apply conserved_upd_bought.
Qed.

Lemma conserved_trade_good (st : galaxy) (i j g : nat) :
  (i < length st)%nat → (j < length st)%nat → (g < econ_nprices)%nat →
  kept st → kept (trade_good trade_modifier i j st g).
Proof.
  intros Hi Hj Hg [Hwf Hlen Hc Hs].
  destruct (trade_good_conserves econ_nprices trade_modifier st i j g)
    as [Hc' Hs']; try done.
  constructor.
  - by apply trade_good_wf.
  - by rewrite trade_good_length.
  - by rewrite Hc'.
  - intros h. by rewrite Hs'.
Qed.

Lemma conserved_trade_edge (st : galaxy) (i j : nat) :
  (i < length st)%nat → (j < length st)%nat →
  kept st → kept (trade_edge econ_nprices trade_modifier i j st).
Proof.
  intros Hi Hj Hst. unfold trade_edge.
  eapply proj1.
  apply (foldl_invariant (λ s, kept s ∧ length s = length st)); [done|].
  intros s g Hg [Hs Hlen]. apply elem_of_seq in Hg. split.
  - apply conserved_trade_good; [lia..|done].
  - by rewrite trade_good_length.
Qed.

Lemma conserved_trade_jump (st : galaxy) (i jumpnum : nat) :
  kept st → kept (trade_jump econ_nprices trade_modifier i st jumpnum).
Proof.
  intros Hst. unfold trade_jump.
  destruct (st !! i) as [sys1|] eqn:Hsys1; simpl; [|done].
  destruct (jumps sys1 !! jumpnum) as [targetid|]; [|done].
  unfold trade_guard.
  destruct (st !! targetid) as [sys2|] eqn:Hsys2; [|done].
  case_bool_decide; [|done].
  apply conserved_trade_edge; [..|done]; by eapply lookup_lt_Some.
Qed.

Lemma conserved_trade_update (st : galaxy) :
  kept st → kept (trade_update econ_nprices trade_modifier st).
Proof.
  intros Hst. unfold trade_update.
  apply foldl_invariant; [by apply conserved_reset_bought|].
  intros st1 i _ Hst1. unfold trade_system.
  apply foldl_invariant; [done|]. intros st2 jumpnum _ Hst2.
  by apply conserved_trade_jump.
Qed.

End TradeUpdateConservation.

(** C1.  A pass of [trade_update] leaves the sum of the credits of all
    systems, and for every priced commodity the sum of its stockpiles over
    all systems, unchanged in exact arithmetic: every good traded over a
    jump takes from one endpoint what it gives to the other. *)
Theorem trade_update_conserves
    (econ_nprices : nat) (trade_modifier : Q) (st : galaxy) :
  wf_galaxy econ_nprices st →
  (total_credits (trade_update econ_nprices trade_modifier st)
   == total_credits st
   ∧ ∀ g, (g < econ_nprices)%nat →
       total_stock g (trade_update econ_nprices trade_modifier st)
       == total_stock g st)
  ∧ ∀ (s : galaxy) (i j g : nat),
      wf_galaxy econ_nprices s →
      (i < length s)%nat → (j < length s)%nat → (g < econ_nprices)%nat →
      total_credits (trade_good trade_modifier i j s g) == total_credits s
      ∧ total_stock g (trade_good trade_modifier i j s g) == total_stock g s.
Proof.
  intros Hwf. split.
  - destruct (conserved_trade_update econ_nprices trade_modifier st st)
      as [_ _ Hc Hs]; [constructor; done|].
    split; [done|]. intros g _. apply Hs.
  - intros s i j g Hs Hi Hj Hg.
    destruct (trade_good_conserves econ_nprices trade_modifier s i j g)
      as [Hc' Hs']; done.
Qed.

Lemma trade_update_conserves_witness :
  total_credits (trade_update 1 (99 # 100) sample_galaxy)
  == total_credits sample_galaxy
  ∧ total_stock 0 (trade_update 1 (99 # 100) sample_galaxy)
    == total_stock 0 sample_galaxy.
Proof.
  destruct (trade_update_conserves 1 (99 # 100) sample_galaxy sample_galaxy_wf)
    as [[Hc Hs] _].
  split; [exact Hc|]. apply Hs. lia.
Defined.

(** ** Trade: what one good over one jump writes *)

Section TradeReads.

Variable econ_nprices : nat.
Variable trade_modifier : Q.

Implicit Types (st : galaxy) (f : Q → Q).

Lemma credits_upd_credits st i f k :
  (i < length st)%nat →
  sys_credits (upd_credits i f st) k
  = if decide (k = i) then f (sys_credits st k) else sys_credits st k.
Proof.
  intros Hi. case_decide as Hk.
  - subst k. by apply credits_upd_credits_eq.
  - by apply credits_upd_credits_ne.
Qed.

Lemma stock_upd_stock st i g f k h :
  wf_galaxy econ_nprices st → (i < length st)%nat → (g < econ_nprices)%nat →
  sys_stock (upd_stock i g f st) k h
  = if decide (k = i ∧ h = g) then f (sys_stock st k h) else sys_stock st k h.
Proof.
  intros Hwf Hi Hg. case_decide as Hk.
  - destruct Hk as [-> ->]. by apply (stock_upd_stock_eq econ_nprices).
  - apply stock_upd_stock_ne.
    destruct (decide (i = k)) as [->|]; [right; intros ->; by apply Hk|by left].
Qed.

(** Credits after one good over the jump from [i] to [j]: [i] pays
    [price * trade], then [j] receives it. *)
Lemma trade_good_credits st i j g k :
  (i < length st)%nat → (j < length st)%nat →
  let pt := trade_price st i j g * trade_flow trade_modifier st i j g in
  sys_credits (trade_good trade_modifier i j st g) k
  = let c := if decide (k = i) then sys_credits st k - pt
             else sys_credits st k in
    if decide (k = j) then c + pt else c.
Proof.
  intros Hi Hj. cbv zeta. unfold trade_good.
  rewrite !credits_upd_bought, !credits_upd_stock.
  rewrite !credits_upd_credits by (rewrite ?length_upd_credits; done).
  done.
Qed.

(** Stock after one good over the jump from [i] to [j]: [i] receives
    [trade], then [j] gives it. *)
Lemma trade_good_stock st i j g k h :
  wf_galaxy econ_nprices st →
  (i < length st)%nat → (j < length st)%nat → (g < econ_nprices)%nat →
  let t := trade_flow trade_modifier st i j g in
  sys_stock (trade_good trade_modifier i j st g) k h
  = let s := if decide (k = i ∧ h = g) then sys_stock st k h + t
             else sys_stock st k h in
    if decide (k = j ∧ h = g) then s - t else s.
Proof.
  intros Hwf Hi Hj Hg. cbv zeta. unfold trade_good.
  rewrite !stock_upd_bought.
  rewrite !stock_upd_stock
    by (rewrite ?length_upd_stock, ?length_upd_credits;
        repeat first [done | apply wf_upd_stock | apply wf_upd_credits]).
  rewrite !stock_upd_credits. done.
Qed.

Lemma trade_good_prod_mod st i j g k h :
  sys_prod_mod (trade_good trade_modifier i j st g) k h = sys_prod_mod st k h.
Proof.
  unfold trade_good.
  by rewrite !prod_mod_upd_bought, !prod_mod_upd_stock, !prod_mod_upd_credits.
Qed.

End TradeReads.

(** ** Positivity *)

(** The flow between two endpoints with positive credits and stock, damped
    by a rate in [0, 2], leaves the credits and the stock of both
    positive. *)
Lemma trade_keeps_positive (tm c1 c2 s1 s2 : Q) :
  0 <= tm → tm <= 2 → 0 < c1 → 0 < c2 → 0 < s1 → 0 < s2 →
  let price := (c1 + c2) / (s1 + s2) in
  let trade := tm * (c1 * s2 - c2 * s1) / (price * (s1 + s2) + c1 + c2) in
  0 < c1 - price * trade ∧ 0 < c2 + price * trade
  ∧ 0 < s1 + trade ∧ 0 < s2 - trade.
Proof.
  intros Htm0 Htm2 Hc1 Hc2 Hs1 Hs2 price trade.
  assert (0 < c1 * s2) as H12 by nra.
  assert (0 < c2 * s1) as H21 by nra.
  assert (tm * (c1 * s2) <= 2 * (c1 * s2)) as Ha by nra.
  assert (0 <= tm * (c1 * s2)) as Ha' by nra.
  assert (tm * (c2 * s1) <= 2 * (c2 * s1)) as Hb by nra.
  assert (0 <= tm * (c2 * s1)) as Hb' by nra.
  assert (0 < c1 * s1) as H11 by nra.
  assert (0 < c2 * s2) as H22 by nra.
  set (X := tm * (c1 * s2) - tm * (c2 * s1)).
  assert (trade == X / (2 * (c1 + c2))) as Ht
      by (unfold trade, price, X; field; split; lra).
  assert (price * trade == X / (2 * (s1 + s2))) as Hpt
      by (unfold trade, price, X; field; split; lra).
  rewrite Hpt, Ht.
  assert (X / (2 * (s1 + s2)) < c1)
    by (apply Qlt_shift_div_r; [lra|]; unfold X; lra).
  assert (- c2 < X / (2 * (s1 + s2)))
    by (apply Qlt_shift_div_l; [lra|]; unfold X; lra).
  assert (X / (2 * (c1 + c2)) < s2)
    by (apply Qlt_shift_div_r; [lra|]; unfold X; lra).
  assert (- s1 < X / (2 * (c1 + c2)))
    by (apply Qlt_shift_div_l; [lra|]; unfold X; lra).
  repeat split; lra.
Qed.

(** A positive stockpile stays positive under [production] with a
    sustained modifier. *)
Lemma production_keeps_positive (pm m s : Q) :
  sustained pm m → 0 < s → 0 < s + production pm m s.
Proof.
  intros [Hup Hdown] Hs. unfold production.
  destruct (Qle_bool 0 m) eqn:E.
  - apply Qle_bool_iff in E. specialize (Hup E).
    assert (0 < 180000 / s) by (apply Qlt_shift_div_l; lra).
    nra.
  - assert (m < 0) as Hm.
    { apply Qnot_le_lt. intros Hle. apply Qle_bool_iff in Hle. congruence. }
    specialize (Hdown Hm).
    assert (0 < s / 18000) as Hu by (apply Qlt_shift_div_l; lra).
    assert (s == 18000 * (s / 18000)) as Hs' by field.
    set (u := s / 18000) in *. rewrite Hs' at 1. nra.
Qed.

(** Only sustained modifiers do: any other takes some positive stockpile
    to zero or below. *)
Lemma production_empties_otherwise (pm m : Q) :
  ¬ sustained pm m → ∃ s, 0 < s ∧ s + production pm m s <= 0.
Proof.
  intros Hnot. destruct (Qlt_le_dec m 0) as [Hm|Hm].
  - exists 18000. split; [reflexivity|].
    rewrite production_consuming by done.
    assert (pm * m <= -18000) as Hk.
    { apply Qnot_lt_le. intros Hlt. apply Hnot. split; intros; lra. }
    assert ((18000 : Q) / 18000 == 1) as -> by reflexivity. lra.
  - assert (pm * m < 0) as Hk.
    { apply Qnot_le_lt. intros Hle. apply Hnot. split; intros; lra. }
    rewrite <- (Qopp_involutive (pm * m)) in Hk.
    set (k := - (pm * m)) in *.
    assert (pm * m == - k) as Hpm by (unfold k; ring).
    destruct (Qlt_le_dec (k * 180000) 1) as [Hsmall|Hbig].
    + exists (k * 180000). split; [lra|].
      rewrite production_producing by done. rewrite Hpm.
      assert (- k * (180000 / (k * 180000)) == -1) as -> by (field; lra).
      lra.
    + exists 1. split; [reflexivity|].
      rewrite production_producing by done. rewrite Hpm.
      assert ((180000 : Q) / 1 == 180000) as -> by reflexivity. lra.
Qed.

Section Positivity.

Variable PRICE : Q → Q → Q.
Variable econ_nprices : nat.
Variable trade_modifier : Q.
Variable production_modifier : Q.
Variable commodity_stack : list Commodity.

Hypothesis trade_modifier_lo : 0 <= trade_modifier.
Hypothesis trade_modifier_hi : trade_modifier <= 2.

Local Abbreviation ok := (healthy econ_nprices production_modifier).

Lemma healthy_upd_bought (st : galaxy) (i g : nat) (f : Q → Q) :
  ok st → ok (upd_bought i g f st).
Proof.
  intros [Hwf Hc Hs Hm]. constructor.
  - by apply wf_upd_bought.
  - intros k. rewrite length_upd_bought, credits_upd_bought. apply Hc.
  - intros k h. rewrite length_upd_bought, stock_upd_bought. apply Hs.
  - intros k h. rewrite length_upd_bought, prod_mod_upd_bought. apply Hm.
Qed.

Lemma healthy_trade_good (st : galaxy) (i j g : nat) :
  (i < length st)%nat → (j < length st)%nat → (g < econ_nprices)%nat →
  ok st → ok (trade_good trade_modifier i j st g).
Proof.
  intros Hi Hj Hg [Hwf Hc Hs Hm].
  pose proof (trade_keeps_positive trade_modifier
                (sys_credits st i) (sys_credits st j)
                (sys_stock st i g) (sys_stock st j g)
                trade_modifier_lo trade_modifier_hi
                (Hc i Hi) (Hc j Hj) (Hs i g Hi Hg) (Hs j g Hj Hg))
    as (Hc1 & Hc2 & Hs1 & Hs2).
  cbv zeta in Hc1, Hc2, Hs1, Hs2.
  fold (trade_price st i j g) in Hc1, Hc2, Hs1, Hs2.
  fold (trade_flow trade_modifier st i j g) in Hc1, Hc2, Hs1, Hs2.
  constructor.
  - by apply trade_good_wf.
  - intros k. rewrite trade_good_length. intros Hk.
    rewrite trade_good_credits by done. cbv zeta.
    specialize (Hc k Hk).
    repeat case_decide; subst; lra.
  - intros k h. rewrite trade_good_length. intros Hk Hh.
    rewrite (trade_good_stock econ_nprices) by done. cbv zeta.
    specialize (Hs k h Hk Hh).
    repeat case_decide;
      repeat match goal with H : _ ∧ _ |- _ => destruct H end; subst; lra.
  - intros k h. rewrite trade_good_length, trade_good_prod_mod. apply Hm.
Qed.

Lemma healthy_trade_edge (st : galaxy) (i j : nat) :
  (i < length st)%nat → (j < length st)%nat →
  ok st → ok (trade_edge econ_nprices trade_modifier i j st).
Proof.
  intros Hi Hj Hst. unfold trade_edge.
  eapply proj1.
  apply (foldl_invariant (λ s, ok s ∧ length s = length st)); [done|].
  intros s g Hg [Hs Hlen]. apply elem_of_seq in Hg. split.
  - apply healthy_trade_good; [lia..|done].
  - by rewrite trade_good_length.
Qed.

Lemma healthy_trade_jump (st : galaxy) (i jumpnum : nat) :
  ok st → ok (trade_jump econ_nprices trade_modifier i st jumpnum).
Proof.
  intros Hst. unfold trade_jump.
  destruct (st !! i) as [sys1|] eqn:Hsys1; simpl; [|done].
  destruct (jumps sys1 !! jumpnum) as [targetid|]; [|done].
  unfold trade_guard.
  destruct (st !! targetid) as [sys2|] eqn:Hsys2; [|done].
  case_bool_decide; [|done].
  apply healthy_trade_edge; [..|done]; by eapply lookup_lt_Some.
Qed.

Lemma healthy_trade_update (st : galaxy) :
  ok st → ok (trade_update econ_nprices trade_modifier st).
Proof.
  intros Hst. unfold trade_update.
  apply foldl_invariant.
  - unfold reset_bought.
    apply foldl_invariant; [done|]. intros st1 i _ Hst1.
    apply foldl_invariant; [done|]. intros st2 g _ Hst2.
    by apply healthy_upd_bought.
  - intros st1 i _ Hst1. unfold trade_system.
    apply foldl_invariant; [done|]. intros st2 jumpnum _ Hst2.
    by apply healthy_trade_jump.
Qed.

End Positivity.

(** [produce_consume] writes stockpiles only, and keeps them positive
    under sustained modifiers, whatever the credits are. *)
Lemma stocked_produce_consume
    (econ_nprices : nat) (production_modifier : Q) (st : galaxy) :
  wf_galaxy econ_nprices st → stocked econ_nprices st →
  sustainable econ_nprices production_modifier st →
  stocked econ_nprices (produce_consume econ_nprices production_modifier st).
Proof.
  intros Hwf Hs Hm.
  destruct (produce_consume_spec econ_nprices production_modifier st Hwf)
    as [[Hwf' Hlen Hcr Hpm] Hst].
  intros k h. rewrite Hlen. intros Hk Hh. rewrite Hst by done.
  apply production_keeps_positive; [by apply Hm|by apply Hs].
Qed.

Lemma healthy_produce_consume
    (econ_nprices : nat) (production_modifier : Q) (st : galaxy) :
  healthy econ_nprices production_modifier st →
  healthy econ_nprices production_modifier
    (produce_consume econ_nprices production_modifier st).
Proof.
  intros [Hwf Hc Hs Hm].
  pose proof (stocked_produce_consume _ _ _ Hwf Hs Hm) as Hs'.
  destruct (produce_consume_spec econ_nprices production_modifier st Hwf)
    as [[Hwf' Hlen Hcr Hpm] Hst].
  constructor; [done| |done|].
  - intros k. rewrite Hlen, Hcr. apply Hc.
  - intros k h. rewrite Hlen, Hpm. apply Hm.
Qed.

(** [refresh_prices] writes prices only. *)
Lemma stocked_refresh_prices
    (PRICE : Q → Q → Q) (econ_nprices : nat)
    (commodity_stack : list Commodity) (st : galaxy) :
  wf_galaxy econ_nprices st → stocked econ_nprices st →
  stocked econ_nprices (refresh_prices PRICE econ_nprices commodity_stack st).
Proof.
  intros Hwf Hs.
  destruct (refresh_prices_spec PRICE econ_nprices commodity_stack st Hwf)
    as [[Hwf' Hlen Hcr Hstk Hpm] _].
  intros k h. rewrite Hlen, Hstk. apply Hs.
Qed.

Lemma healthy_refresh_prices
    (PRICE : Q → Q → Q) (econ_nprices : nat) (production_modifier : Q)
    (commodity_stack : list Commodity) (st : galaxy) :
  healthy econ_nprices production_modifier st →
  healthy econ_nprices production_modifier
    (refresh_prices PRICE econ_nprices commodity_stack st).
Proof.
  intros [Hwf Hc Hs Hm].
  pose proof (stocked_refresh_prices PRICE _ commodity_stack _ Hwf Hs) as Hs'.
  destruct (refresh_prices_spec PRICE econ_nprices commodity_stack st Hwf)
    as [[Hwf' Hlen Hcr Hstk Hpm] _].
  constructor; [done| |done|].
  - intros k. rewrite Hlen, Hcr. apply Hc.
  - intros k h. rewrite Hlen, Hpm. apply Hm.
Qed.

(** Trade does not look at production modifiers: with production switched
    off every modifier is sustained, and the invariant is that of credits
    and stockpiles alone. *)
Lemma positive_trade_update
    (econ_nprices : nat) (trade_modifier : Q) (st : galaxy) :
  0 <= trade_modifier → trade_modifier <= 2 →
  wf_galaxy econ_nprices st → funded st → stocked econ_nprices st →
  stocked econ_nprices (trade_update econ_nprices trade_modifier st)
  ∧ funded (trade_update econ_nprices trade_modifier st).
Proof.
  intros Htm0 Htm2 Hwf Hc Hs.
  assert (healthy econ_nprices 0 st) as Hst.
  { constructor; [done..|]. intros k h _ _. split; intros _; lra. }
  destruct (healthy_trade_update econ_nprices trade_modifier 0 Htm0 Htm2
              st Hst) as [_ Hc' Hs' _].
  done.
Qed.

Lemma healthy_economy_update_loop
    (PRICE : Q → Q → Q) (econ_nprices : nat)
    (trade_modifier production_modifier : Q)
    (commodity_stack : list Commodity) (dt : Z) (fuel : nat) :
  0 <= trade_modifier → trade_modifier <= 2 →
  ∀ (i : Z) (st st' : galaxy),
    healthy econ_nprices production_modifier st →
    economy_update_loop PRICE econ_nprices trade_modifier production_modifier
                        commodity_stack fuel i dt st = Some st' →
    healthy econ_nprices production_modifier st'.
Proof.
  intros Htm0 Htm2.
  induction fuel as [|fuel IH]; intros i st st' Hst; simpl;
    case_bool_decide.
  - done.
  - by intros [= <-].
  - apply IH. unfold economy_round.
    apply healthy_refresh_prices.
    apply healthy_produce_consume.
    apply healthy_trade_update; done.
  - by intros [= <-].
Qed.

Lemma sample_galaxy_stocked : stocked 1 sample_galaxy.
Proof. intros [|[|k]] [|h] Hk Hh; simpl in *; try lia; reflexivity. Qed.

Lemma sample_galaxy_funded : funded sample_galaxy.
Proof. intros [|[|k]] Hk; simpl in *; try lia; reflexivity. Qed.

Lemma sample_galaxy_sustainable : sustainable 1 (1 # 10) sample_galaxy.
Proof.
  intros [|[|k]] [|h] Hk Hh; simpl in *; try lia;
    vm_compute; split; intros H; (exact H || reflexivity).
Qed.

(** C3, as the code has it, in exact arithmetic.  There is no clamp.  On
    a well-formed galaxy whose stockpiles are all strictly positive:
    [refresh_prices] writes no stockpile; [produce_consume] leaves every
    stockpile strictly positive when every production modifier [m] is
    sustained, that is [production_modifier * m >= 0] for [m >= 0] and
    [production_modifier * m > -18000] for [m < 0]; [trade_update] leaves
    every stockpile and all credits strictly positive when all credits are
    strictly positive and [0 <= trade_modifier <= 2]; and under the
    conditions of both, every completed [economy_update] leaves every
    stockpile and all credits strictly positive.  So no stockpile that is
    zero or negative reaches a division. *)
Theorem stockpiles_stay_positive
    (PRICE : Q → Q → Q) (econ_nprices : nat)
    (trade_modifier production_modifier : Q)
    (commodity_stack : list Commodity) (st : galaxy) :
  wf_galaxy econ_nprices st → stocked econ_nprices st →
  ((∀ k h, sys_stock (refresh_prices PRICE econ_nprices commodity_stack st) k h
           = sys_stock st k h)
   ∧ stocked econ_nprices
       (refresh_prices PRICE econ_nprices commodity_stack st))
  ∧ (sustainable econ_nprices production_modifier st →
     stocked econ_nprices
       (produce_consume econ_nprices production_modifier st))
  ∧ (funded st → 0 <= trade_modifier → trade_modifier <= 2 →
     stocked econ_nprices (trade_update econ_nprices trade_modifier st)
     ∧ funded (trade_update econ_nprices trade_modifier st))
  ∧ (funded st → 0 <= trade_modifier → trade_modifier <= 2 →
     sustainable econ_nprices production_modifier st →
     ∀ (fuel : nat) (dt : Z) (st' : galaxy),
       economy_update PRICE econ_nprices trade_modifier production_modifier
                      commodity_stack fuel dt st = Some st' →
       stocked econ_nprices st' ∧ funded st').
Proof.
  intros Hwf Hs. split; [|split; [|split]].
  - split; [|by apply stocked_refresh_prices].
    apply (refresh_prices_spec PRICE econ_nprices commodity_stack st Hwf).
  - intros Hm. by apply stocked_produce_consume.
  - intros Hc Htm0 Htm2. by apply positive_trade_update.
  - intros Hc Htm0 Htm2 Hm fuel dt st' Hrun.
    assert (healthy econ_nprices production_modifier st') as [_ Hc' Hs' _].
    { apply (healthy_economy_update_loop PRICE econ_nprices trade_modifier
               production_modifier commodity_stack dt fuel Htm0 Htm2 0%Z
               (refresh_prices PRICE econ_nprices commodity_stack st) st');
        [|exact Hrun].
      by apply healthy_refresh_prices. }
    done.
Qed.

Lemma stockpiles_stay_positive_witness :
  stocked 1 (refresh_prices sample_PRICE 1 [] sample_galaxy)
  ∧ stocked 1 (produce_consume 1 (1 # 10) sample_galaxy)
  ∧ stocked 1 (trade_update 1 (99 # 100) sample_galaxy)
  ∧ ∃ st', economy_update sample_PRICE 1 (99 # 100) (1 # 10) [] 2 10000000
                          sample_galaxy = Some st'
           ∧ stocked 1 st' ∧ funded st'.
Proof.
  destruct (stockpiles_stay_positive sample_PRICE 1 (99 # 100) (1 # 10) []
              sample_galaxy sample_galaxy_wf sample_galaxy_stocked)
    as ((_ & Hr) & Hp & Ht & Hu).
  split; [exact Hr|]. split; [exact (Hp sample_galaxy_sustainable)|].
  assert (0 <= 99 # 100) as Htm0 by (vm_compute; discriminate).
  assert (99 # 100 <= 2) as Htm2 by (vm_compute; discriminate).
  split; [exact (proj1 (Ht sample_galaxy_funded Htm0 Htm2))|].
  eexists. split; [vm_compute; reflexivity|].
  apply (Hu sample_galaxy_funded Htm0 Htm2 sample_galaxy_sustainable
            2%nat 10000000%Z).
  vm_compute. reflexivity.
Defined.

(** C3, as stated, fails, and each condition above is needed.
    - A production modifier of -360000 at the initial production rate 0.1
      takes a strictly positive stockpile of 100000 to -100000 in one
      [produce_consume], and nothing clamps it.
    - At a negative production rate, a positive modifier takes a
      stockpile of 100 to -800.
    - At the initial trade rate 0.99, a system in debt (credits -1, its
      neighbour 3) with a stockpile of 1 is left with -9797/400 by one
      [trade_update].
    - At a trade rate of 3, with all credits and stockpiles positive, one
      [trade_update] leaves a stockpile negative; so does a trade rate of
      -1.
    - In binary64, within all the conditions: at the initial production
      rate and modifier -170000 (their product is -17000) a positive
      subnormal stockpile becomes negative in one step, and at modifier
      -175000 a stockpile of 100000 is negative after 209 steps. *)
Lemma stockpiles_leave_positive_range :
  (wf_galaxy 1 sample_drained ∧ stocked 1 sample_drained
   ∧ sys_stock (produce_consume 1 (1 # 10) sample_drained) 0 0 == -100000)
  ∧ (wf_galaxy 1 sample_producer ∧ stocked 1 sample_producer
     ∧ sys_stock (produce_consume 1 (-1 # 10) sample_producer) 0 0 == -800)
  ∧ (wf_galaxy 1 sample_indebted ∧ stocked 1 sample_indebted
     ∧ sys_stock (trade_update 1 (99 # 100) sample_indebted) 0 0
       == -9797 # 400)
  ∧ (wf_galaxy 1 sample_lopsided ∧ stocked 1 sample_lopsided
     ∧ funded sample_lopsided
     ∧ sys_stock (trade_update 1 3 sample_lopsided) 1 0 < 0)
  ∧ (wf_galaxy 1 sample_scarce ∧ stocked 1 sample_scarce
     ∧ funded sample_scarce
     ∧ sys_stock (trade_update 1 (-1) sample_scarce) 0 0 == -95 # 4)
  ∧ (PrimFloat.ltb 0 subnormal_stock = true
     ∧ PrimFloat.mul rate_f64 (-170000) = (-17000)%float
     ∧ PrimFloat.ltb (produce_consume_f64 rate_f64 (-170000) subnormal_stock)
                     0 = true)
  ∧ (PrimFloat.mul rate_f64 (-175000) = (-17500)%float
     ∧ PrimFloat.ltb 0 (Nat.iter 208 (produce_consume_f64 rate_f64 (-175000))
                                 100000%float) = true
     ∧ PrimFloat.ltb (Nat.iter 209 (produce_consume_f64 rate_f64 (-175000))
                               100000%float) 0 = true).
Proof.
  assert (∀ st : galaxy, length st = 1%nat →
            0 < sys_stock st 0 0 → stocked 1 st) as Hone.
  { intros st Hlen H0 [|k] [|h] Hk Hh; try lia. done. }
  assert (∀ st : galaxy, length st = 2%nat →
            0 < sys_stock st 0 0 → 0 < sys_stock st 1 0 → stocked 1 st)
    as Htwo.
  { intros st Hlen H0 H1 [|[|k]] [|h] Hk Hh; try lia; done. }
  assert (∀ st : galaxy, length st = 2%nat →
            0 < sys_credits st 0 → 0 < sys_credits st 1 → funded st)
    as Hfunded.
  { intros st Hlen H0 H1 [|[|k]] Hk; try lia; done. }
  repeat split;
    try (apply Hone; [reflexivity..]);
    try (apply Htwo; [reflexivity..]);
    try (apply Hfunded; [reflexivity..]);
    try (repeat constructor; fail);
    try (vm_compute; reflexivity).
Qed.

(** ** Trade: the jumps a pass visits *)

Section Skeleton.

Implicit Types (st : galaxy) (f : Q → Q).

Lemma skeleton_alter st (i : nat) (F : StarSystem → StarSystem) :
  (∀ s, id (F s) = id s ∧ jumps (F s) = jumps s) →
  skeleton (alter F i st) = skeleton st.
Proof.
  intros HF. unfold skeleton. apply fmap_alter_same.
  intros s. destruct (HF s) as [-> ->]. done.
Qed.

Lemma skeleton_upd_credits st i f : skeleton (upd_credits i f st) = skeleton st.
Proof. by apply skeleton_alter. Qed.
Lemma skeleton_upd_stock st i g f : skeleton (upd_stock i g f st) = skeleton st.
Proof. by apply skeleton_alter. Qed.
Lemma skeleton_upd_bought st i g f : skeleton (upd_bought i g f st) = skeleton st.
Proof. by apply skeleton_alter. Qed.

Lemma skeleton_lookup st st0 (i : nat) :
  skeleton st = skeleton st0 →
  id <$> st !! i = id <$> st0 !! i ∧ jumps <$> st !! i = jumps <$> st0 !! i.
Proof.
  intros Hsk. apply (f_equal (λ l, l !! i)) in Hsk.
  unfold skeleton in Hsk. rewrite !list_lookup_fmap in Hsk.
  destruct (st !! i), (st0 !! i); simpl in *; try done.
  by injection Hsk as -> ->.
Qed.

Lemma skeleton_length st st0 :
  skeleton st = skeleton st0 → length st = length st0.
Proof.
  intros Hsk. apply (f_equal length) in Hsk.
  unfold skeleton in Hsk. by rewrite !length_fmap in Hsk.
Qed.

Lemma skeleton_guard st st0 (i j : nat) :
  skeleton st = skeleton st0 → trade_guard st i j = trade_guard st0 i j.
Proof.
  intros Hsk. destruct (skeleton_lookup st st0 j Hsk) as [Hid _].
  unfold trade_guard.
  destruct (st !! j), (st0 !! j); simpl in *; try done.
  by injection Hid as ->.
Qed.

Lemma skeleton_jumps_of st st0 (i : nat) :
  skeleton st = skeleton st0 → jumps_of st i = jumps_of st0 i.
Proof.
  intros Hsk. destruct (skeleton_lookup st st0 i Hsk) as [_ Hj].
  unfold jumps_of. by rewrite Hj.
Qed.

Lemma jump_lookup st (i jumpnum : nat) :
  (st !! i) ≫= (λ sys1, jumps sys1 !! jumpnum) = jumps_of st i !! jumpnum.
Proof. unfold jumps_of. by destruct (st !! i). Qed.

Lemma sys_njumps_length st (i : nat) : sys_njumps st i = length (jumps_of st i).
Proof. unfold sys_njumps, jumps_of. by destruct (st !! i). Qed.

End Skeleton.

Section Visits.

Variable econ_nprices : nat.
Variable trade_modifier : Q.

Local Abbreviation over_jump :=
  (λ (s : galaxy) (e : nat * nat),
     trade_edge econ_nprices trade_modifier e.1 e.2 s).

Lemma skeleton_trade_good (st : galaxy) (i j g : nat) :
  skeleton (trade_good trade_modifier i j st g) = skeleton st.
Proof.
  unfold trade_good.
  by rewrite !skeleton_upd_bought, !skeleton_upd_stock, !skeleton_upd_credits.
Qed.

Lemma skeleton_trade_edge (st : galaxy) (i j : nat) :
  skeleton (trade_edge econ_nprices trade_modifier i j st) = skeleton st.
Proof.
  unfold trade_edge.
  apply (foldl_invariant (λ s, skeleton s = skeleton st)); [done|].
  intros s g _ Hs. by rewrite skeleton_trade_good.
Qed.

Lemma skeleton_reset_bought (st : galaxy) :
  skeleton (reset_bought econ_nprices st) = skeleton st.
Proof.
  unfold reset_bought.
  apply (foldl_invariant (λ s, skeleton s = skeleton st)); [done|].
  intros s1 i _ Hs1.
  apply (foldl_invariant (λ s, skeleton s = skeleton st)); [done|].
  intros s2 g _ Hs2. by rewrite skeleton_upd_bought.
Qed.

Lemma skeleton_over_jumps (st : galaxy) (l : list (nat * nat)) :
  skeleton (foldl over_jump st l) = skeleton st.
Proof.
  apply (foldl_invariant (λ s, skeleton s = skeleton st)); [done|].
  intros s e _ Hs. by rewrite skeleton_trade_edge.
Qed.

(** The loop over [jumpnum], run on the first [m] jumps of system [i]. *)
Lemma trade_jumps_visits (st0 st : galaxy) (i m : nat) :
  skeleton st = skeleton st0 →
  foldl (trade_jump econ_nprices trade_modifier i) st (seq 0 m)
  = foldl over_jump st (visited_among st0 i (take m (jumps_of st0 i))).
Proof.
  intros Hsk. induction m as [|m IH]; [done|].
  rewrite foldl_seq_S, IH.
  set (st1 := foldl over_jump st _).
  assert (skeleton st1 = skeleton st0) as Hsk1
      by (unfold st1; by rewrite skeleton_over_jumps).
  unfold trade_jump.
  rewrite jump_lookup, (skeleton_jumps_of st1 st0 i Hsk1).
  destruct (jumps_of st0 i !! m) as [targetid|] eqn:Hm.
  - rewrite (take_S_r _ _ _ Hm). unfold visited_among.
    rewrite filter_app, fmap_app, foldl_app.
    rewrite (skeleton_guard st1 st0 i targetid Hsk1).
    rewrite filter_cons, filter_nil.
    destruct (trade_guard st0 i targetid); reflexivity.
  - apply lookup_ge_None in Hm. unfold st1. rewrite !take_ge by lia. done.
Qed.

Lemma trade_system_visits (st0 st : galaxy) (i : nat) :
  skeleton st = skeleton st0 →
  trade_system econ_nprices trade_modifier st i
  = foldl over_jump st (visited_from st0 i).
Proof.
  intros Hsk. unfold trade_system.
  rewrite (trade_jumps_visits st0) by done.
  rewrite sys_njumps_length, (skeleton_jumps_of st st0 i Hsk).
  unfold visited_from. by rewrite take_ge.
Qed.

Lemma trade_systems_visits (st0 st : galaxy) (m : nat) :
  skeleton st = skeleton st0 →
  foldl (trade_system econ_nprices trade_modifier) st (seq 0 m)
  = foldl over_jump st (seq 0 m ≫= visited_from st0).
Proof.
  intros Hsk. induction m as [|m IH]; [done|].
  rewrite foldl_seq_S, IH, seq_S, bind_app, foldl_app.
  rewrite (trade_system_visits st0)
    by (by rewrite skeleton_over_jumps).
  simpl. by rewrite app_nil_r.
Qed.

(** [trade_update] clears [bought] and then trades over the visited
    jumps, one after the other. *)
Lemma trade_update_visits (st : galaxy) :
  trade_update econ_nprices trade_modifier st
  = foldl over_jump (reset_bought econ_nprices st) (visited_jumps st).
Proof.
  unfold trade_update, visited_jumps.
  apply trade_systems_visits, skeleton_reset_bought.
Qed.

End Visits.

Section VisitedJumps.

Implicit Types (st : galaxy) (l : list (nat * nat)) (e : nat * nat).

Lemma elem_of_visited_jumps st (i j : nat) :
  (i, j) ∈ visited_jumps st
  ↔ (i < length st)%nat ∧ j ∈ jumps_of st i ∧ trade_guard st i j.
Proof.
  unfold visited_jumps, visited_from, visited_among.
  rewrite list_elem_of_bind. split.
  - intros (k & Hin & Hk). apply elem_of_seq in Hk.
    apply list_elem_of_fmap in Hin as (j' & [= -> ->] & Hj').
    apply list_elem_of_filter in Hj' as [Hg Hj'].
    split; [lia|done].
  - intros (Hi & Hj & Hg). exists i. split.
    + apply list_elem_of_fmap. exists j. split; [done|].
      by apply list_elem_of_filter.
    + apply elem_of_seq. lia.
Qed.

Lemma NoDup_visited_jumps st :
  (∀ k, NoDup (jumps_of st k)) → NoDup (visited_jumps st).
Proof.
  intros Hnd. unfold visited_jumps, visited_from, visited_among.
  apply NoDup_bind.
  - intros i1 i2 [a b] _ _ H1 H2.
    apply list_elem_of_fmap in H1 as (? & [= -> _] & _).
    apply list_elem_of_fmap in H2 as (? & [= -> _] & _).
    done.
  - intros i _. apply NoDup_fmap_2; [intros ? ? [= ->]; done|].
    apply NoDup_filter, Hnd.
  - apply NoDup_seq.
Qed.

(** When every system carries its stack index as identifier, the guard
    lets a jump through exactly when it leads to a higher index. *)
Lemma trade_guard_index st (i j : nat) :
  (∀ k s, st !! k = Some s → id s = Z.of_nat k) →
  trade_guard st i j ↔ (i < j)%nat ∧ (j < length st)%nat.
Proof.
  intros Hid. unfold trade_guard.
  destruct (st !! j) as [sys2|] eqn:Hj.
  - rewrite (Hid j sys2 Hj), bool_decide_spec.
    apply lookup_lt_Some in Hj. lia.
  - apply lookup_ge_None in Hj. simpl. split; [done|lia].
Qed.

Lemma occurrences_never e l : e ∉ l → occurrences e l = 0%nat.
Proof.
  unfold occurrences. induction l as [|x l IH]; intros Hnot; [done|].
  rewrite filter_cons. apply not_elem_of_cons in Hnot as [Hne Hnot].
  rewrite decide_False by done. by apply IH.
Qed.

Lemma occurrences_once e l : NoDup l → e ∈ l → occurrences e l = 1%nat.
Proof.
  induction 1 as [|x l Hx Hnd IH]; [by inversion 1|].
  intros Hin. unfold occurrences. rewrite filter_cons.
  case_decide as Hxe.
  - subst x. simpl. f_equal. by apply occurrences_never.
  - apply IH. apply elem_of_cons in Hin as [->|]; done.
Qed.

End VisitedJumps.

(** The effect of one good over the jump from a system [i] to another
    system [j], on the state [s] at that moment. *)
Lemma trade_good_flow
    (econ_nprices : nat) (trade_modifier : Q) (s : galaxy) (i j g : nat) :
  wf_galaxy econ_nprices s →
  (i < length s)%nat → (j < length s)%nat → i ≠ j → (g < econ_nprices)%nat →
  let credits1 := sys_credits s i in
  let credits2 := sys_credits s j in
  let stock1 := sys_stock s i g in
  let stock2 := sys_stock s j g in
  let price := (credits1 + credits2) / (stock1 + stock2) in
  let trade :=
    trade_modifier * (credits1 * stock2 - credits2 * stock1)
    / (price * (stock1 + stock2) + credits1 + credits2) in
  let s' := trade_good trade_modifier i j s g in
  sys_credits s' i = credits1 - price * trade
  ∧ sys_credits s' j = credits2 + price * trade
  ∧ sys_stock s' i g = stock1 + trade
  ∧ sys_stock s' j g = stock2 - trade.
Proof.
  intros Hwf Hi Hj Hij Hg. cbv zeta.
  rewrite !trade_good_credits by done.
  rewrite !(trade_good_stock econ_nprices) by done. cbv zeta.
  repeat case_decide; try done; exfalso; intuition congruence.
Qed.

(** C2.  On a well-formed galaxy in which every system carries its stack
    index as identifier and lists no jump twice, a pass of [trade_update]
    is the sequence of the trades over the visited jumps; a visited jump
    leads from a lower to a higher index; a jump between [a < b] is
    visited exactly once, from [a], and never from [b].  Over a visited
    jump every priced commodity is traded in turn, and for each the joint
    price and the flow are computed from the state at that moment by the
    stated formulas, after which the lower endpoint has paid [price *
    trade] and received [trade] and the higher endpoint has received
    [price * trade] and given [trade]. *)
Theorem trade_update_visits_each_jump_once
    (econ_nprices : nat) (trade_modifier : Q) (st : galaxy) :
  wf_galaxy econ_nprices st →
  (∀ k s, st !! k = Some s → id s = Z.of_nat k) →
  (∀ k, NoDup (jumps_of st k)) →
  trade_update econ_nprices trade_modifier st
  = foldl (λ s e, trade_edge econ_nprices trade_modifier e.1 e.2 s)
          (reset_bought econ_nprices st) (visited_jumps st)
  ∧ (∀ i j, (i, j) ∈ visited_jumps st →
       (i < j)%nat ∧ (j < length st)%nat ∧ j ∈ jumps_of st i)
  ∧ (∀ a b, (a < b)%nat → b ∈ jumps_of st a →
       occurrences (a, b) (visited_jumps st) = 1%nat
       ∧ occurrences (b, a) (visited_jumps st) = 0%nat)
  ∧ (∀ s i j,
       trade_edge econ_nprices trade_modifier i j s
       = foldl (trade_good trade_modifier i j) s (seq 0 econ_nprices))
  ∧ (∀ s i j g,
       wf_galaxy econ_nprices s →
       (i < j)%nat → (j < length s)%nat → (g < econ_nprices)%nat →
       let credits1 := sys_credits s i in
       let credits2 := sys_credits s j in
       let stock1 := sys_stock s i g in
       let stock2 := sys_stock s j g in
       let price := (credits1 + credits2) / (stock1 + stock2) in
       let trade :=
         trade_modifier * (credits1 * stock2 - credits2 * stock1)
         / (price * (stock1 + stock2) + credits1 + credits2) in
       let s' := trade_good trade_modifier i j s g in
       sys_credits s' i = credits1 - price * trade
       ∧ sys_credits s' j = credits2 + price * trade
       ∧ sys_stock s' i g = stock1 + trade
       ∧ sys_stock s' j g = stock2 - trade).
Proof.
  intros Hwf Hid Hnd. split; [apply trade_update_visits|].
  split; [|split; [|split]].
  - intros i j Hin. apply elem_of_visited_jumps in Hin as (Hi & Hj & Hg).
    apply (trade_guard_index st i j Hid) in Hg. tauto.
  - intros a b Hab Hb.
    assert (a < length st)%nat as Ha.
    { unfold jumps_of in Hb. destruct (st !! a) eqn:E; [|by inversion Hb].
      by eapply lookup_lt_Some. }
    assert (b < length st)%nat as Hb'.
    { unfold jumps_of in Hb.
      destruct (st !! a) as [sa|] eqn:E; [|by inversion Hb].
      simpl in Hb. pose proof (wf_jumps _ _ _ (wf_lookup _ _ _ _ Hwf E)) as Hj.
      rewrite Forall_forall in Hj. by apply Hj. }
    split.
    + apply occurrences_once; [by apply NoDup_visited_jumps|].
      apply elem_of_visited_jumps. split; [done|]. split; [done|].
      apply (trade_guard_index st a b Hid). lia.
    + apply occurrences_never. intros Hin.
      apply elem_of_visited_jumps in Hin as (_ & _ & Hg).
      apply (trade_guard_index st b a Hid) in Hg. lia.
  - done.
  - intros s i j g Hs Hij Hj Hg.
    apply (trade_good_flow econ_nprices); [done|lia|done|lia|done].
Qed.

Lemma trade_update_visits_each_jump_once_witness :
  trade_update 1 (99 # 100) sample_galaxy
  = foldl (λ s e, trade_edge 1 (99 # 100) e.1 e.2 s)
          (reset_bought 1 sample_galaxy) (visited_jumps sample_galaxy)
  ∧ occurrences (0%nat, 1%nat) (visited_jumps sample_galaxy) = 1%nat
  ∧ occurrences (1%nat, 0%nat) (visited_jumps sample_galaxy) = 0%nat.
Proof.
  destruct (trade_update_visits_each_jump_once 1 (99 # 100) sample_galaxy)
    as (Hrun & _ & Honce & _).
  - apply sample_galaxy_wf.
  - intros [|[|k]] s [= <-]; reflexivity.
  - intros [|[|k]]; simpl; [apply NoDup_singleton..|apply NoDup_nil_2].
  - split; [exact Hrun|]. apply Honce; [lia|]. simpl. constructor.
Defined.

(** * Further properties of the engine *)

(** ** Trade: how far one good over one jump goes *)

(** X1.  One good traded over a jump between two different systems
    multiplies the imbalance [credits1 * stock2 - credits2 * stock1] of
    that good by [1 - trade_modifier], provided the two systems together
    hold some credits and some stock: the step closes the share
    [trade_modifier] of the gap to equal prices. *)
Theorem trade_good_shrinks_imbalance
    (econ_nprices : nat) (trade_modifier : Q) (st : galaxy) (i j g : nat) :
  wf_galaxy econ_nprices st →
  (i < length st)%nat → (j < length st)%nat → i ≠ j → (g < econ_nprices)%nat →
  ¬ sys_credits st i + sys_credits st j == 0 →
  ¬ sys_stock st i g + sys_stock st j g == 0 →
  imbalance (trade_good trade_modifier i j st g) i j g
  == (1 - trade_modifier) * imbalance st i j g.
Proof.
  intros Hwf Hi Hj Hij Hg Hc Hs. unfold imbalance.
  destruct (trade_good_flow econ_nprices trade_modifier st i j g)
    as (-> & -> & -> & ->); try done.
  field. split; [done|].
  intros Hd. apply Hc. lra.
Qed.

Lemma trade_good_shrinks_imbalance_witness :
  imbalance (trade_good (99 # 100) 0 1 sample_galaxy 0) 0 1 0
  == (1 - (99 # 100)) * imbalance sample_galaxy 0 1 0.
Proof.
  apply (trade_good_shrinks_imbalance 1 (99 # 100) sample_galaxy 0 1 0).
  - apply sample_galaxy_wf.
  - simpl. lia.
  - simpl. lia.
  - lia.
  - lia.
  - vm_compute. discriminate.
  - vm_compute. discriminate.
Defined.

(** ** Trade: equilibrium *)

Section Equilibrium.

Variable econ_nprices : nat.
Variable trade_modifier : Q.
Variable st0 : galaxy.

Hypothesis st0_balanced : balanced econ_nprices st0.

Local Abbreviation still := (same_holdings econ_nprices st0).

Lemma still_upd_bought (st : galaxy) (i g : nat) (f : Q → Q) :
  still st → still (upd_bought i g f st).
Proof.
  intros [Hwf Hlen Hc Hs]. constructor.
  - by apply wf_upd_bought.
  - by rewrite length_upd_bought.
  - intros k. by rewrite credits_upd_bought.
  - intros k h. by rewrite stock_upd_bought.
Qed.

(** At equal prices nothing flows. *)
Lemma balanced_no_flow (st : galaxy) (i j g : nat) :
  (i < length st)%nat → (j < length st)%nat → (g < econ_nprices)%nat →
  still st → trade_flow trade_modifier st i j g == 0.
Proof.
  intros Hi Hj Hg [Hwf Hlen Hc Hs]. unfold trade_flow.
  assert (sys_credits st i * sys_stock st j g
          - sys_credits st j * sys_stock st i g == 0) as ->.
  { rewrite !Hc, !Hs.
    apply (balanced_prices _ _ st0_balanced); by rewrite <- ?Hlen. }
  unfold Qdiv. ring.
Qed.

Lemma still_trade_good (st : galaxy) (i j g : nat) :
  (i < length st)%nat → (j < length st)%nat → (g < econ_nprices)%nat →
  still st → still (trade_good trade_modifier i j st g).
Proof.
  intros Hi Hj Hg Hst.
  pose proof (balanced_no_flow st i j g Hi Hj Hg Hst) as Hflow.
  destruct Hst as [Hwf Hlen Hc Hs]. constructor.
  - by apply trade_good_wf.
  - by rewrite trade_good_length.
  - intros k. rewrite trade_good_credits by done. cbv zeta.
    repeat case_decide; rewrite ?Hflow, Hc; ring.
  - intros k h. rewrite (trade_good_stock econ_nprices) by done. cbv zeta.
    repeat case_decide; rewrite ?Hflow, Hs; ring.
Qed.

Lemma still_trade_update (st : galaxy) :
  still st → still (trade_update econ_nprices trade_modifier st).
Proof.
  intros Hst. unfold trade_update.
  apply foldl_invariant.
  - unfold reset_bought.
    apply foldl_invariant; [done|]. intros st1 i _ Hst1.
    apply foldl_invariant; [done|]. intros st2 g _ Hst2.
    by apply still_upd_bought.
  - intros st1 i _ Hst1. unfold trade_system.
    apply foldl_invariant; [done|]. intros st2 jumpnum _ Hst2.
    unfold trade_jump.
    destruct (st2 !! i) as [sys1|] eqn:Hsys1; simpl; [|done].
    destruct (jumps sys1 !! jumpnum) as [targetid|]; [|done].
    unfold trade_guard.
    destruct (st2 !! targetid) as [sys2|] eqn:Hsys2; [|done].
    case_bool_decide; [|done].
    apply lookup_lt_Some in Hsys1, Hsys2.
    unfold trade_edge. eapply proj1.
    apply (foldl_invariant (λ s, still s ∧ length s = length st2)); [done|].
    intros s g Hin [Hs Hlen]. apply elem_of_seq in Hin. split.
    + apply still_trade_good; [lia..|done].
    + by rewrite trade_good_length.
Qed.

End Equilibrium.

(** X2.  A galaxy with positive credits and stockpiles in which all
    systems value every good alike is a fixed point of trade: after a
    pass of [trade_update] every system has the credits and the
    stockpiles it had, and the galaxy is still in that equilibrium. *)
Theorem trade_update_keeps_equilibrium
    (econ_nprices : nat) (trade_modifier : Q) (st : galaxy) :
  balanced econ_nprices st →
  (∀ k, sys_credits (trade_update econ_nprices trade_modifier st) k
        == sys_credits st k)
  ∧ (∀ k h, sys_stock (trade_update econ_nprices trade_modifier st) k h
            == sys_stock st k h)
  ∧ balanced econ_nprices (trade_update econ_nprices trade_modifier st).
Proof.
  intros Hbal.
  destruct (still_trade_update econ_nprices trade_modifier st Hbal st)
    as [Hwf Hlen Hc Hs].
  { destruct Hbal. constructor; done. }
  split; [done|]. split; [done|].
  destruct Hbal as [_ Hpc Hps Hpr]. constructor; [done|..]; rewrite Hlen.
  - intros k Hk. rewrite Hc. by apply Hpc.
  - intros k h Hk Hh. rewrite Hs. by apply Hps.
  - intros i j g Hi Hj Hg. unfold imbalance. rewrite !Hc, !Hs.
    by apply Hpr.
Qed.

Lemma sample_even_balanced : balanced 1 sample_even.
Proof.
  constructor; [repeat constructor|..]; simpl.
  - intros [|[|k]] Hk; try lia; reflexivity.
  - intros [|[|k]] [|h] Hk Hh; try lia; reflexivity.
  - intros [|[|i]] [|[|j]] [|g] Hi Hj Hg; try lia; reflexivity.
Qed.

Lemma trade_update_keeps_equilibrium_witness :
  sys_credits (trade_update 1 (99 # 100) sample_even) 0 == 100000000
  ∧ sys_stock (trade_update 1 (99 # 100) sample_even) 1 0 == 100000.
Proof.
  destruct (trade_update_keeps_equilibrium 1 (99 # 100) sample_even
              sample_even_balanced) as (Hc & Hs & _).
  split; [apply Hc|apply Hs].
Defined.

(** ** Trade: what a pass leaves alone, and the telemetry it writes *)

Section TradeFrame.

Variable econ_nprices : nat.
Variable trade_modifier : Q.

Implicit Types (st : galaxy) (f : Q → Q).

Lemma lookup_alter_same {A} (obs : StarSystem → A)
    (F : StarSystem → StarSystem) (i k : nat) st :
  (∀ s, obs (F s) = obs s) → obs <$> alter F i st !! k = obs <$> st !! k.
Proof.
  intros Hobs. rewrite list_lookup_alter. case_decide; [subst|done].
  destruct (st !! k); simpl; [|done]. by rewrite Hobs.
Qed.

Lemma trade_frame_alter st0 st (i : nat) (F : StarSystem → StarSystem) :
  (∀ s, id (F s) = id s ∧ jumps (F s) = jumps s ∧ planets (F s) = planets s
        ∧ prices (F s) = prices s ∧ prod_mods (F s) = prod_mods s) →
  trade_frame st0 st → trade_frame st0 (alter F i st).
Proof.
  intros HF [Hlen Hsk Hpl Hpr Hpm]. constructor.
  - by rewrite length_alter.
  - rewrite skeleton_alter; [done|]. intros s. destruct (HF s); tauto.
  - intros k. rewrite <- Hpl. unfold planets_of.
    rewrite (lookup_alter_same planets); [done|]. intros s. apply HF.
  - intros k h. rewrite <- Hpr. unfold sys_price.
    rewrite (lookup_alter_same (λ s, rd (prices s) h)); [done|].
    intros s. destruct (HF s) as (_ & _ & _ & -> & _). done.
  - intros k h. rewrite <- Hpm. unfold sys_prod_mod.
    rewrite (lookup_alter_same (λ s, rd (prod_mods s) h)); [done|].
    intros s. destruct (HF s) as (_ & _ & _ & _ & ->). done.
Qed.

Lemma trade_frame_upd_credits st0 st i f :
  trade_frame st0 st → trade_frame st0 (upd_credits i f st).
Proof. by apply trade_frame_alter. Qed.
Lemma trade_frame_upd_stock st0 st i g f :
  trade_frame st0 st → trade_frame st0 (upd_stock i g f st).
Proof. by apply trade_frame_alter. Qed.
Lemma trade_frame_upd_bought st0 st i g f :
  trade_frame st0 st → trade_frame st0 (upd_bought i g f st).
Proof. by apply trade_frame_alter. Qed.

Lemma trade_frame_trade_good st0 st (i j g : nat) :
  trade_frame st0 st → trade_frame st0 (trade_good trade_modifier i j st g).
Proof.
  intros Hst. unfold trade_good.
  repeat first [apply trade_frame_upd_bought | apply trade_frame_upd_stock
               | apply trade_frame_upd_credits].
  done.
Qed.

Lemma trade_frame_trade_update st0 st :
  trade_frame st0 st →
  trade_frame st0 (trade_update econ_nprices trade_modifier st).
Proof.
  intros Hst. unfold trade_update.
  apply foldl_invariant.
  - unfold reset_bought.
    apply foldl_invariant; [done|]. intros st1 i _ Hst1.
    apply foldl_invariant; [done|]. intros st2 g _ Hst2.
    by apply trade_frame_upd_bought.
  - intros st1 i _ Hst1. unfold trade_system.
    apply foldl_invariant; [done|]. intros st2 jumpnum _ Hst2.
    unfold trade_jump.
    destruct ((st2 !! i) ≫= _) as [targetid|]; [|done].
    destruct (trade_guard st2 i targetid); [|done].
    unfold trade_edge.
    apply foldl_invariant; [done|]. intros s g _ Hs.
    by apply trade_frame_trade_good.
Qed.

End TradeFrame.

(** X3.  A pass of [trade_update] writes credits, stockpiles and [bought]
    only: the number of systems, their identifiers, jumps and planets,
    and every price and production modifier are as before. *)
Theorem trade_update_leaves_rest_alone
    (econ_nprices : nat) (trade_modifier : Q) (st : galaxy) :
  length (trade_update econ_nprices trade_modifier st) = length st
  ∧ (id <$> trade_update econ_nprices trade_modifier st) = (id <$> st)
  ∧ (jumps <$> trade_update econ_nprices trade_modifier st) = (jumps <$> st)
  ∧ (∀ k, planets_of (trade_update econ_nprices trade_modifier st) k
          = planets_of st k)
  ∧ (∀ k h, sys_price (trade_update econ_nprices trade_modifier st) k h
            = sys_price st k h)
  ∧ (∀ k h, sys_prod_mod (trade_update econ_nprices trade_modifier st) k h
            = sys_prod_mod st k h).
Proof.
  destruct (trade_frame_trade_update econ_nprices trade_modifier st st)
    as [Hlen Hsk Hpl Hpr Hpm]; [constructor; done|].
  split; [done|].
  assert (∀ a b : galaxy, skeleton a = skeleton b →
            id <$> a = id <$> b ∧ jumps <$> a = jumps <$> b) as Hsplit.
  { intros a b Hab. unfold skeleton in Hab. split.
    - apply (f_equal (fmap fst)) in Hab.
      rewrite <- !list_fmap_compose in Hab. exact Hab.
    - apply (f_equal (fmap snd)) in Hab.
      rewrite <- !list_fmap_compose in Hab. exact Hab. }
  destruct (Hsplit _ _ Hsk). done.
Qed.

Section Bought.

Variable econ_nprices : nat.
Variable trade_modifier : Q.

Implicit Types (st : galaxy) (f : Q → Q).











End Bought.



(** ** Repricing twice, and two updates in a row *)

Section Idempotence.

Variable PRICE : Q → Q → Q.
Variable econ_nprices : nat.
Variable commodity_stack : list Commodity.

Lemma list_alter_same {A} (l : list A) (i : nat) (f : A → A) (x : A) :
  l !! i = Some x → f x = x → alter f i l = l.
Proof.
  revert i. induction l as [|y l IH]; intros [|i] Hl Hf; simpl in *;
    try done.
  - injection Hl as ->. unfold alter. simpl. by rewrite Hf.
  - unfold alter in *. simpl. f_equal. by apply IH.
Qed.

(** Storing the price that is already there changes nothing. *)
Lemma upd_price_same (st : galaxy) (i g : nat) (v : Q) :
  wf_galaxy econ_nprices st → (i < length st)%nat → (g < econ_nprices)%nat →
  sys_price st i g = v → upd_price i g (λ _, v) st = st.
Proof.
  intros Hwf Hi Hg Hv. unfold upd_price.
  destruct (lookup_lt_is_Some_2 st i Hi) as [s Hs].
  apply (list_alter_same _ _ _ s Hs).
  pose proof (wf_prices _ _ _ (wf_lookup _ _ _ _ Hwf Hs)) as Hlen.
  unfold sys_price in Hv. rewrite Hs in Hv. simpl in Hv.
  destruct (lookup_lt_is_Some_2 (prices s) g) as [x Hx]; [lia|].
  unfold rd in Hv. rewrite Hx in Hv. simpl in Hv. subst x.
  destruct s. unfold set_prices. simpl in *. f_equal.
  by apply (list_alter_same _ _ _ v).
Qed.

Local Abbreviation priced_up :=
  (all_priced PRICE econ_nprices commodity_stack).

Lemma refresh_prices_priced_up (st : galaxy) :
  wf_galaxy econ_nprices st → priced_up st →
  refresh_prices PRICE econ_nprices commodity_stack st = st.
Proof.
  intros Hwf Hup. unfold refresh_prices.
  apply (foldl_invariant (λ s, s = st)); [done|].
  intros s i Hi ->. apply elem_of_seq in Hi.
  unfold refresh_prices_system.
  apply (foldl_invariant (λ s, s = st)); [done|].
  intros s g Hg ->. apply elem_of_seq in Hg.
  unfold refresh_prices_good.
  apply upd_price_same; [done|lia|lia|].
  apply Hup; lia.
Qed.

Lemma refresh_prices_makes_priced_up (st : galaxy) :
  wf_galaxy econ_nprices st →
  wf_galaxy econ_nprices (refresh_prices PRICE econ_nprices commodity_stack st)
  ∧ priced_up (refresh_prices PRICE econ_nprices commodity_stack st).
Proof.
  intros Hwf.
  destruct (refresh_prices_spec PRICE econ_nprices commodity_stack st Hwf)
    as [[Hwf' Hlen Hcr Hstk _] Hpr].
  split; [done|]. intros i g Hi Hg. rewrite Hlen in Hi.
  rewrite Hpr, Hcr, Hstk; done.
Qed.

End Idempotence.

(** X5.  Repricing is idempotent: on a well-formed galaxy a second
    [refresh_prices] right after the first changes nothing at all. *)
Theorem refresh_prices_idempotent
    (PRICE : Q → Q → Q) (econ_nprices : nat)
    (commodity_stack : list Commodity) (st : galaxy) :
  wf_galaxy econ_nprices st →
  refresh_prices PRICE econ_nprices commodity_stack
    (refresh_prices PRICE econ_nprices commodity_stack st)
  = refresh_prices PRICE econ_nprices commodity_stack st.
Proof.
  intros Hwf.
  destruct (refresh_prices_makes_priced_up PRICE econ_nprices commodity_stack
              st Hwf) as [Hwf' Hup].
  by apply refresh_prices_priced_up.
Qed.

Lemma refresh_prices_idempotent_witness :
  refresh_prices sample_PRICE 1 [mkCommodity "Food" "" 10 0]
    (refresh_prices sample_PRICE 1 [mkCommodity "Food" "" 10 0] sample_galaxy)
  = refresh_prices sample_PRICE 1 [mkCommodity "Food" "" 10 0] sample_galaxy.
Proof.
  apply (refresh_prices_idempotent sample_PRICE 1
           [mkCommodity "Food" "" 10 0] sample_galaxy).
  apply sample_galaxy_wf.
Defined.

Section UpdatesInARow.

Variable PRICE : Q → Q → Q.
Variable econ_nprices : nat.
Variable trade_modifier : Q.
Variable production_modifier : Q.
Variable commodity_stack : list Commodity.

Local Abbreviation round :=
  (economy_round PRICE econ_nprices trade_modifier production_modifier
                 commodity_stack).
Local Abbreviation reprice := (refresh_prices PRICE econ_nprices commodity_stack).
Local Abbreviation update :=
  (economy_update PRICE econ_nprices trade_modifier production_modifier
                  commodity_stack).
Local Abbreviation in_sync st :=
  (wf_galaxy econ_nprices st
   ∧ all_priced PRICE econ_nprices commodity_stack st).

Lemma wf_trade_update (st : galaxy) :
  wf_galaxy econ_nprices st →
  wf_galaxy econ_nprices (trade_update econ_nprices trade_modifier st).
Proof.
  intros Hwf.
  apply (conserved_trade_update econ_nprices trade_modifier st st).
  constructor; done.
Qed.

Lemma in_sync_round (st : galaxy) : wf_galaxy econ_nprices st → in_sync (round st).
Proof.
  intros Hwf. unfold economy_round.
  apply refresh_prices_makes_priced_up.
  apply (produce_consume_spec econ_nprices production_modifier).
  by apply wf_trade_update.
Qed.

Lemma in_sync_rounds (n : nat) (st : galaxy) :
  in_sync st → in_sync (Nat.iter n round st).
Proof.
  intros Hst. destruct n as [|n]; [done|]. simpl.
  apply in_sync_round.
  induction n as [|n IH]; [apply Hst|]. simpl. by apply in_sync_round.
Qed.

Lemma update_result (dt : Z) (fuel : nat) (st : galaxy) :
  wf_galaxy econ_nprices st →
  (0 ≤ dt ≤ 4290000000)%Z → (rounds_needed dt ≤ fuel)%nat →
  update fuel dt st = Some (Nat.iter (rounds_needed dt) round (reprice st))
  ∧ in_sync (Nat.iter (rounds_needed dt) round (reprice st)).
Proof.
  intros Hwf Hdt Hfuel. split.
  - by apply economy_update_rounds.
  - apply in_sync_rounds. by apply refresh_prices_makes_priced_up.
Qed.

End UpdatesInARow.

(** X6.  For [0 <= dt <= 4290000000] and a well-formed galaxy,
    [economy_update(dt)] returns after exactly [ceiling(dt / 10,000,000)]
    rounds of trade, production and repricing on the repriced galaxy, and
    what it returns is well formed with every price in step with the
    credits and the stockpile it is computed from. *)
Theorem economy_update_returns_in_sync
    (PRICE : Q → Q → Q) (econ_nprices : nat)
    (trade_modifier production_modifier : Q)
    (commodity_stack : list Commodity)
    (dt : Z) (fuel : nat) (st : galaxy) :
  wf_galaxy econ_nprices st →
  (0 ≤ dt ≤ 4290000000)%Z → (rounds_needed dt ≤ fuel)%nat →
  ∃ st' : galaxy,
    economy_update PRICE econ_nprices trade_modifier production_modifier
                   commodity_stack fuel dt st = Some st'
    ∧ st' = Nat.iter (rounds_needed dt)
              (economy_round PRICE econ_nprices trade_modifier
                             production_modifier commodity_stack)
              (refresh_prices PRICE econ_nprices commodity_stack st)
    ∧ wf_galaxy econ_nprices st'
    ∧ all_priced PRICE econ_nprices commodity_stack st'.
Proof.
  intros Hwf Hdt Hfuel.
  destruct (update_result PRICE econ_nprices trade_modifier
              production_modifier commodity_stack dt fuel st Hwf Hdt Hfuel)
    as [Hrun [Hwf' Hup]].
  eexists. split; [exact Hrun|]. done.
Qed.

Lemma economy_update_returns_in_sync_witness :
  ∃ st' : galaxy,
    economy_update sample_PRICE 1 (99 # 100) (1 # 10)
                   [mkCommodity "Food" "" 10 0] 3 25000000 sample_galaxy
    = Some st'
    ∧ st' = Nat.iter (rounds_needed 25000000)
              (economy_round sample_PRICE 1 (99 # 100) (1 # 10)
                             [mkCommodity "Food" "" 10 0])
              (refresh_prices sample_PRICE 1 [mkCommodity "Food" "" 10 0]
                              sample_galaxy)
    ∧ wf_galaxy 1 st'
    ∧ all_priced sample_PRICE 1 [mkCommodity "Food" "" 10 0] st'.
Proof.
  apply (economy_update_returns_in_sync sample_PRICE 1 (99 # 100) (1 # 10)
           [mkCommodity "Food" "" 10 0] 25000000 3 sample_galaxy).
  - apply sample_galaxy_wf.
  - lia.
  - vm_compute. lia.
Defined.

(** X7.  Splitting an update at a multiple of the sub-step changes
    nothing: for [a] a multiple of 10,000,000 and [a + b <= 4290000000],
    [economy_update(a)] followed by [economy_update(b)] returns what
    [economy_update(a + b)] returns. *)
Theorem economy_update_splits
    (PRICE : Q → Q → Q) (econ_nprices : nat)
    (trade_modifier production_modifier : Q)
    (commodity_stack : list Commodity)
    (a b : Z) (fuel : nat) (st : galaxy) :
  wf_galaxy econ_nprices st →
  (0 ≤ a)%Z → (0 ≤ b)%Z → (a + b ≤ 4290000000)%Z →
  (a mod 10000000 = 0)%Z → (rounds_needed (a + b) ≤ fuel)%nat →
  economy_update PRICE econ_nprices trade_modifier production_modifier
                 commodity_stack fuel a st
  ≫= economy_update PRICE econ_nprices trade_modifier production_modifier
                    commodity_stack fuel b
  = economy_update PRICE econ_nprices trade_modifier production_modifier
                   commodity_stack fuel (a + b) st.
Proof.
  intros Hwf Ha Hb Hab Hmod Hfuel.
  assert (rounds_needed (a + b) = rounds_needed b + rounds_needed a)%nat
    as Hsum.
  { unfold rounds_needed.
    rewrite <- Z2Nat.inj_add by (apply Z.div_pos; lia).
    f_equal. Z.div_mod_to_equations. lia. }
  destruct (update_result PRICE econ_nprices trade_modifier
              production_modifier commodity_stack a fuel st Hwf)
    as [Hrun1 [Hwf1 Hup1]]; [lia|lia|].
  rewrite Hrun1. simpl.
  set (st1 := Nat.iter (rounds_needed a) _ _) in *.
  rewrite !economy_update_rounds by (done || lia).
  rewrite (refresh_prices_priced_up PRICE econ_nprices commodity_stack st1)
    by done.
  rewrite Hsum, Nat.iter_add. done.
Qed.

Lemma economy_update_splits_witness :
  economy_update sample_PRICE 1 (99 # 100) (1 # 10)
                 [mkCommodity "Food" "" 10 0] 3 10000000 sample_galaxy
  ≫= economy_update sample_PRICE 1 (99 # 100) (1 # 10)
                    [mkCommodity "Food" "" 10 0] 3 15000000
  = economy_update sample_PRICE 1 (99 # 100) (1 # 10)
                   [mkCommodity "Food" "" 10 0] 3 (10000000 + 15000000)
                   sample_galaxy.
Proof.
  apply (economy_update_splits sample_PRICE 1 (99 # 100) (1 # 10)
           [mkCommodity "Food" "" 10 0] 10000000 15000000 3 sample_galaxy).
  - apply sample_galaxy_wf.
  - lia.
  - lia.
  - lia.
  - reflexivity.
  - vm_compute. lia.
Defined.

(** ** Production and consumption: direction and threshold *)

Lemma production_direction (pm m s : Q) :
  0 < pm → 0 < s →
  (0 < m → 0 < production pm m s)
  ∧ (m == 0 → production pm m s == 0)
  ∧ (m < 0 → production pm m s < 0
             ∧ (0 < s + production pm m s ↔ -18000 < pm * m)).
Proof.
  intros Hpm Hs. split; [|split]; intros Hm.
  - rewrite production_producing by lra.
    assert (0 < 180000 / s) by (apply Qlt_shift_div_l; lra).
    assert (0 < pm * m) by nra. nra.
  - rewrite production_producing by lra. rewrite Hm. ring.
  - rewrite production_consuming by done.
    assert (0 < s / 18000) as Hu by (apply Qlt_shift_div_l; lra).
    assert (s == 18000 * (s / 18000)) as Hs' by field.
    set (u := s / 18000) in *.
    assert (pm * m < 0) by nra.
    split; [nra|].
    rewrite Hs' at 1. split; intros H'; nra.
Qed.

(** With rounding the step can fail to move a stockpile: in binary64, at
    the initial production rate, a stockpile of 1e12 with the positive
    modifier 0.001 is left as it is. *)
Lemma produce_consume_f64_absorbs :
  PrimFloat.ltb 0 0x1.0624dd2f1a9fcp-10 = true
  ∧ produce_consume_f64 rate_f64 0x1.0624dd2f1a9fcp-10 1000000000000
    = 1000000000000%float.
Proof. vm_compute. repeat split. Qed.

(** X8.  In exact arithmetic, with a positive production rate,
    [produce_consume] moves a positive stockpile in the direction of its
    production modifier: up for a positive modifier, not at all for a
    zero modifier, down for a negative one; and a consumed stockpile
    stays strictly positive exactly when [production_modifier * modifier
    > -18000].  (With rounding the directions hold weakly at best: see
    [produce_consume_f64_absorbs].) *)
Theorem produce_consume_direction
    (econ_nprices : nat) (production_modifier : Q) (st : galaxy) (i g : nat) :
  wf_galaxy econ_nprices st → (i < length st)%nat → (g < econ_nprices)%nat →
  0 < production_modifier → 0 < sys_stock st i g →
  let m := sys_prod_mod st i g in
  let s := sys_stock st i g in
  let s' := sys_stock (produce_consume econ_nprices production_modifier st) i g in
  (0 < m → s < s')
  ∧ (m == 0 → s' == s)
  ∧ (m < 0 → s' < s ∧ (0 < s' ↔ -18000 < production_modifier * m)).
Proof.
  intros Hwf Hi Hg Hpm Hs. cbv zeta.
  rewrite (proj2 (produce_consume_spec econ_nprices production_modifier st Hwf))
    by done.
  destruct (production_direction production_modifier (sys_prod_mod st i g)
              (sys_stock st i g) Hpm Hs) as (Hup & Hzero & Hdown).
  split; [|split]; intros Hm.
  - specialize (Hup Hm). lra.
  - specialize (Hzero Hm). lra.
  - destruct (Hdown Hm) as [Hneg Hiff]. split; [lra|done].
Qed.

Lemma produce_consume_direction_witness :
  sys_stock sample_galaxy 0 0
  < sys_stock (produce_consume 1 (1 # 10) sample_galaxy) 0 0
  ∧ sys_stock (produce_consume 1 (1 # 10) sample_galaxy) 1 0
    < sys_stock sample_galaxy 1 0.
Proof.
  split.
  - destruct (produce_consume_direction 1 (1 # 10) sample_galaxy 0 0)
      as (Hup & _ & _);
      [apply sample_galaxy_wf|simpl; lia|lia|reflexivity|reflexivity|].
    apply Hup. reflexivity.
  - destruct (produce_consume_direction 1 (1 # 10) sample_galaxy 1 0)
      as (_ & _ & Hdown);
      [apply sample_galaxy_wf|simpl; lia|lia|reflexivity|reflexivity|].
    destruct Hdown as [Hless _]; [reflexivity|exact Hless].
Defined.

(** ** The catalog *)

Section Catalog.

Implicit Types (nodes : list (string * string * Z)) (c : Catalog).

Lemma commodity_load_snoc nodes (x : string * string * Z) :
  commodity_load (nodes ++ [x]) = commodity_load_node (commodity_load nodes) x.
Proof. unfold commodity_load. by rewrite foldl_app. Qed.

Lemma node_price_app_l nodes (x : string * string * Z) (k : nat) :
  (k < length nodes)%nat → node_price (nodes ++ [x]) k = node_price nodes k.
Proof. intros Hk. unfold node_price. by rewrite lookup_app_l. Qed.

Lemma node_price_last nodes (x : string * string * Z) :
  node_price (nodes ++ [x]) (length nodes) = x.2.
Proof.
  unfold node_price. rewrite lookup_app_r by lia.
  by rewrite Nat.sub_diag.
Qed.

Lemma filter_seq_ext (P1 P2 : nat → Prop)
    `{∀ k, Decision (P1 k)} `{∀ k, Decision (P2 k)} (n : nat) :
  (∀ k, (k < n)%nat → P1 k ↔ P2 k) →
  filter P1 (seq 0 n) = filter P2 (seq 0 n).
Proof.
  intros Hext. induction n as [|n IH]; [done|].
  rewrite seq_S, !filter_app, IH by (intros k Hk; apply Hext; lia).
  f_equal. simpl. rewrite !filter_cons, !filter_nil.
  destruct (decide (P1 n)) as [H1|H1], (decide (P2 n)) as [H2|H2];
    try done; exfalso; apply (Hext n) in H1 || apply (Hext n) in H2;
    try lia; done.
Qed.

Lemma priced_slots_snoc nodes (x : string * string * Z) :
  priced_slots (nodes ++ [x])
  = priced_slots nodes
    ++ (if bool_decide (0 < x.2)%Z then [length nodes] else []).
Proof.
  unfold priced_slots.
  rewrite length_app.
  replace (length nodes + length [x])%nat with (S (length nodes))
    by (simpl; lia).
  rewrite seq_S, filter_app.
  f_equal.
  - apply filter_seq_ext. intros k Hk. by rewrite node_price_app_l.
  - simpl. rewrite filter_cons, filter_nil, node_price_last.
    case_bool_decide; by case_decide.
Qed.

Lemma priced_slots_bound nodes (k : nat) :
  k ∈ priced_slots nodes → (k < length nodes)%nat.
Proof.
  unfold priced_slots. rewrite list_elem_of_filter, elem_of_seq. lia.
Qed.

Lemma priced_slots_length nodes :
  (length (priced_slots nodes) ≤ length nodes)%nat.
Proof.
  unfold priced_slots.
  etrans; [apply length_filter|]. by rewrite length_seq.
Qed.

Lemma commodity_load_loaded nodes : loaded nodes (commodity_load nodes).
Proof.
  induction nodes as [|x nodes IH] using rev_ind.
  - constructor; done.
  - rewrite commodity_load_snoc.
    destruct IH as [Hnodes Hcomm Hnp Hidx].
    set (c := commodity_load nodes) in *.
    assert (length (cat_stack c) = length nodes) as Hlen
        by (rewrite <- (length_fmap commodity_node), Hnodes; done).
    pose proof (priced_slots_length nodes) as Hle.
    destruct x as [[nm descr] pr]. unfold commodity_load_node.
    pose proof (priced_slots_snoc nodes (nm, descr, pr)) as Hsnoc.
    simpl in Hsnoc.
    destruct (decide (0 < pr)%Z) as [Hpr|Hpr];
      [rewrite bool_decide_true in Hsnoc |- * by done
      |rewrite bool_decide_false in Hsnoc |- * by done].
    + constructor; simpl; rewrite ?Hsnoc.
      * rewrite fmap_alter_same by (by intros []).
        rewrite fmap_app, Hnodes. done.
      * rewrite fmap_app, Hcomm, length_app, Hlen. simpl.
        do 3 f_equal. lia.
      * rewrite length_app, Hnp. simpl. lia.
      * intros k e. rewrite list_lookup_alter.
        destruct (decide (cat_nprices c = k)) as [<-|Hk].
        -- rewrite bool_decide_true by lia.
           destruct ((cat_stack c ++ _) !! cat_nprices c); [|done].
           by intros [= <-].
        -- intros He. destruct (decide (k < length nodes)%nat) as [Hkl|Hkl].
           ++ rewrite lookup_app_l in He by lia.
              rewrite (Hidx k e He).
              repeat case_bool_decide; try done; lia.
           ++ rewrite lookup_app_r in He by lia.
              destruct (k - length (cat_stack c))%nat eqn:E; [|done].
              injection He as <-. simpl.
              rewrite bool_decide_false by lia. done.
    + constructor; simpl; rewrite ?Hsnoc.
      * rewrite fmap_app, Hnodes. done.
      * by rewrite app_nil_r.
      * by rewrite app_nil_r.
      * intros k e He.
        destruct (decide (k < length nodes)%nat) as [Hkl|Hkl].
        -- rewrite lookup_app_l in He by lia. by apply Hidx.
        -- rewrite lookup_app_r in He by lia.
           destruct (k - length (cat_stack c))%nat eqn:E; [|done].
           injection He as <-. simpl.
           rewrite bool_decide_false by lia. done.
Qed.

End Catalog.

Lemma priced_slots_ascending (nodes : list (string * string * Z))
    (i j a b : nat) :
  (i < j)%nat → priced_slots nodes !! i = Some a →
  priced_slots nodes !! j = Some b → (a < b)%nat.
Proof.
  revert i j a b. induction nodes as [|x nodes IH] using rev_ind;
    intros i j a b Hij Ha Hb; [done|].
  rewrite priced_slots_snoc in Ha, Hb.
  destruct (decide (j < length (priced_slots nodes))%nat) as [Hj|Hj].
  - rewrite lookup_app_l in Ha, Hb by lia. apply (IH i j a b Hij Ha Hb).
  - rewrite lookup_app_r in Hb by lia.
    case_bool_decide; [|done].
    destruct (j - length (priced_slots nodes))%nat eqn:E; [|done].
    injection Hb as <-.
    rewrite lookup_app_l in Ha by lia.
    apply priced_slots_bound, list_elem_of_lookup. eauto.
Qed.

(** X9.  After [commodity_load] the stack holds the commodities of the
    data file in order, with their names, descriptions and prices;
    [econ_nprices] is the length of [econ_comm]; [econ_comm] lists, in
    strictly ascending order, exactly the slots of the stack whose
    commodity has a positive price. *)
Theorem commodity_load_builds_priced_subset
    (nodes : list (string * string * Z)) :
  let c := commodity_load nodes in
  commodity_node <$> cat_stack c = nodes
  ∧ cat_nprices c = length (cat_comm c)
  ∧ (∀ k : nat, Z.of_nat k ∈ cat_comm c
                ↔ ∃ e, cat_stack c !! k = Some e ∧ (0 < price e)%Z)
  ∧ (∀ slot, slot ∈ cat_comm c → (0 ≤ slot < Z.of_nat (length (cat_stack c)))%Z)
  ∧ (∀ (i j : nat) a b, (i < j)%nat → cat_comm c !! i = Some a →
       cat_comm c !! j = Some b → (a < b)%Z).
Proof.
  cbv zeta. destruct (commodity_load_loaded nodes) as [Hnodes Hcomm Hnp _].
  set (c := commodity_load nodes) in *.
  assert (length (cat_stack c) = length nodes) as Hlen
      by (rewrite <- (length_fmap commodity_node), Hnodes; done).
  split; [done|]. split; [by rewrite Hcomm, length_fmap|].
  split; [|split].
  - intros k. rewrite Hcomm.
    rewrite (list_elem_of_fmap_inj Z.of_nat).
    unfold priced_slots. rewrite list_elem_of_filter, elem_of_seq.
    unfold node_price. rewrite <- Hnodes at 1. rewrite list_lookup_fmap.
    split.
    + intros [Hpr Hk]. destruct (cat_stack c !! k) as [e|]; [|simpl in Hpr; lia].
      exists e. done.
    + intros (e & He & Hpr). rewrite He. simpl. split; [done|].
      apply lookup_lt_Some in He. lia.
  - intros slot. rewrite Hcomm. intros Hin.
    apply list_elem_of_fmap in Hin as (k & -> & Hk).
    apply priced_slots_bound in Hk. lia.
  - intros i j a b Hij. rewrite Hcomm, !list_lookup_fmap.
    destruct (priced_slots nodes !! i) as [a'|] eqn:Ha; [|done].
    destruct (priced_slots nodes !! j) as [b'|] eqn:Hb; [|done].
    intros [= <-] [= <-].
    pose proof (priced_slots_ascending nodes i j a' b' Hij Ha Hb). lia.
Qed.

(** X10.  [commodity_load] numbers the stack by position, not by
    price: whatever its price, the entry at slot [k] ends up with index
    [k] when [k < econ_nprices] and with index 0 otherwise. *)
Theorem commodity_load_index_by_position
    (nodes : list (string * string * Z)) (k : nat) (e : Commodity) :
  cat_stack (commodity_load nodes) !! k = Some e →
  index e = if bool_decide (k < cat_nprices (commodity_load nodes))%nat
            then Z.of_nat k else 0%Z.
Proof.
  intros He.
  destruct (commodity_load_loaded nodes) as [_ _ _ Hindex].
  exact (Hindex k e He).
Qed.

Lemma commodity_load_index_by_position_witness :
  index (mkCommodity "Food" "" 10 0)
  = if bool_decide (1 < cat_nprices (commodity_load sample_nodes))%nat
    then Z.of_nat 1 else 0%Z.
Proof.
  apply (commodity_load_index_by_position sample_nodes 1
           (mkCommodity "Food" "" 10 0)).
  reflexivity.
Defined.

(** ** Lookup by name *)

Lemma commodity_scan_spec (nm : string) (rest : list Commodity) (i : nat) :
  match commodity_scan nm i rest with
  | Some k =>
      ∃ j e, k = (i + j)%nat ∧ rest !! j = Some e ∧ name e = nm
             ∧ ∀ j' e', (j' < j)%nat → rest !! j' = Some e' → name e' ≠ nm
  | None => ∀ e, e ∈ rest → name e ≠ nm
  end.
Proof.
  revert i. induction rest as [|c rest IH]; intros i; simpl.
  - intros e He. by apply elem_of_nil in He.
  - destruct (String.eqb_spec (name c) nm) as [Heq|Hne].
    + exists 0%nat, c. split; [lia|]. split; [done|]. split; [done|].
      intros j' e' Hj'. lia.
    + specialize (IH (S i)).
      destruct (commodity_scan nm (S i) rest) as [k|].
      * destruct IH as (j & e & -> & Hj & He & Hfirst).
        exists (S j), e. split; [lia|]. split; [done|]. split; [done|].
        intros [|j'] e' Hj' He'; simpl in He'.
        -- by injection He' as <-.
        -- apply (Hfirst j' e'); [lia|done].
      * intros e He. apply elem_of_cons in He as [->|He]; [done|].
        by apply IH.
Qed.

(** X11.  Lookup by name returns the first slot of the stack whose name
    is the one asked for, and no slot when there is none.
    [commodity_get] and [commodity_getW] return the same; the former
    logs exactly one warning on a miss, and neither logs anything on a
    hit. *)
Theorem commodity_get_first_match
    (commodity_stack : list Commodity) (nm : string)
    (warnings : list string) :
  (nm ∉ name <$> commodity_stack →
     commodity_getW commodity_stack nm = None
     ∧ commodity_get commodity_stack nm warnings
       = (None, warnings ++ [commodity_not_found_msg nm]))
  ∧ (nm ∈ name <$> commodity_stack →
     ∃ (k : nat) (e : Commodity),
       commodity_getW commodity_stack nm = Some k
       ∧ commodity_get commodity_stack nm warnings = (Some k, warnings)
       ∧ commodity_stack !! k = Some e ∧ name e = nm
       ∧ ∀ j e', (j < k)%nat → commodity_stack !! j = Some e' → name e' ≠ nm).
Proof.
  pose proof (commodity_scan_spec nm commodity_stack 0) as Hscan.
  unfold commodity_getW, commodity_get.
  destruct (commodity_scan nm 0 commodity_stack) as [k|].
  - destruct Hscan as (j & e & -> & Hj & He & Hfirst). simpl. split.
    + intros Hnot. exfalso. apply Hnot.
      apply list_elem_of_fmap. exists e. split; [done|].
      by eapply list_elem_of_lookup_2.
    + intros _. exists j, e. done.
  - split; [done|].
    intros Hin. apply list_elem_of_fmap in Hin as (e & -> & He).
    by destruct (Hscan e He).
Qed.

Lemma commodity_get_first_match_witness :
  commodity_getW [mkCommodity "Food" "" 10 0; mkCommodity "Ore" "" 20 1]
                 "Gold" = None
  ∧ ∃ (k : nat) (e : Commodity),
      commodity_getW [mkCommodity "Food" "" 10 0; mkCommodity "Ore" "" 20 1]
                     "Ore" = Some k
      ∧ commodity_get [mkCommodity "Food" "" 10 0; mkCommodity "Ore" "" 20 1]
                      "Ore" [] = (Some k, [])
      ∧ [mkCommodity "Food" "" 10 0; mkCommodity "Ore" "" 20 1] !! k = Some e
      ∧ name e = "Ore"%string
      ∧ ∀ j e', (j < k)%nat →
          [mkCommodity "Food" "" 10 0; mkCommodity "Ore" "" 20 1] !! j
          = Some e' → name e' ≠ "Ore"%string.
Proof.
  split.
  - apply (proj1 (commodity_get_first_match
                    [mkCommodity "Food" "" 10 0; mkCommodity "Ore" "" 20 1]
                    "Gold" [])).
    simpl. intros Hin.
    repeat (apply elem_of_cons in Hin as [Hin|Hin]; [discriminate Hin|]).
    by apply elem_of_nil in Hin.
  - apply (proj2 (commodity_get_first_match
                    [mkCommodity "Food" "" 10 0; mkCommodity "Ore" "" 20 1]
                    "Ore" [])).
    simpl. right. left.
Defined.

(** X12.  Load, then look up: every name of the data file is found by
    [commodity_getW] at the slot of the first node that carries it, and
    the entry there has the description and the price of that node; a
    name that is not in the data file is not found. *)
Theorem commodity_load_then_get
    (nodes : list (string * string * Z)) (nm : string) :
  (nm ∉ (λ n, n.1.1) <$> nodes →
     commodity_getW (cat_stack (commodity_load nodes)) nm = None)
  ∧ (∀ (k : nat) (descr : string) (pr : Z),
       nodes !! k = Some (nm, descr, pr) →
       (∀ j n, (j < k)%nat → nodes !! j = Some n → n.1.1 ≠ nm) →
       commodity_getW (cat_stack (commodity_load nodes)) nm = Some k
       ∧ ∃ e, cat_stack (commodity_load nodes) !! k = Some e
              ∧ name e = nm ∧ description e = descr ∧ price e = pr).
Proof.
  destruct (commodity_load_loaded nodes) as [Hnodes _ _ _].
  set (stack := cat_stack (commodity_load nodes)) in *.
  assert (∀ j, nodes !! j = commodity_node <$> stack !! j) as Hlook
      by (intros j; by rewrite <- Hnodes, list_lookup_fmap).
  pose proof (commodity_scan_spec nm stack 0) as Hscan.
  unfold commodity_getW.
  split.
  - intros Hnot.
    destruct (commodity_scan nm 0 stack) as [k|]; [|done].
    destruct Hscan as (j & e & _ & Hj & He & _).
    exfalso. apply Hnot. apply list_elem_of_fmap.
    exists (commodity_node e). split; [by rewrite <- He|].
    apply list_elem_of_lookup. exists j. by rewrite Hlook, Hj.
  - intros k descr pr Hk Hfirst.
    rewrite Hlook in Hk.
    destruct (stack !! k) as [e|] eqn:He; [|done].
    injection Hk as Hname Hdescr Hpr.
    destruct (commodity_scan nm 0 stack) as [k'|].
    + destruct Hscan as (j & e' & -> & Hj & He' & Hfirst'). simpl.
      destruct (Nat.lt_trichotomy j k) as [Hlt|[->|Hgt]].
      * exfalso. apply (Hfirst j (commodity_node e') Hlt); [|done].
        by rewrite Hlook, Hj.
      * split; [done|]. exists e. done.
      * exfalso. by apply (Hfirst' k e Hgt He).
    + exfalso. apply (Hscan e); [|done]. by eapply list_elem_of_lookup_2.
Qed.

Lemma commodity_load_then_get_witness :
  commodity_getW (cat_stack (commodity_load sample_nodes)) "Food"
  = Some 1%nat
  ∧ ∃ e, cat_stack (commodity_load sample_nodes) !! 1%nat = Some e
         ∧ name e = "Food"%string ∧ description e = ""%string
         ∧ price e = 10%Z.
Proof.
  apply (proj2 (commodity_load_then_get sample_nodes "Food") 1%nat
               ""%string 10%Z).
  - reflexivity.
  - intros [|j] n Hlt Hn; [|lia]. injection Hn as <-. discriminate.
Defined.

(** ** Ordering commodities *)

Lemma ascii_compare_refl (a : Ascii.ascii) : Ascii.compare a a = Eq.
Proof. unfold Ascii.compare. apply N.compare_refl. Qed.

Lemma string_compare_refl (s : string) : String.compare s s = Eq.
Proof.
  induction s as [|a s IH]; simpl; [done|]. by rewrite ascii_compare_refl.
Qed.

Lemma ascii_compare_lt_trans (a b c : Ascii.ascii) :
  Ascii.compare a b = Lt → Ascii.compare b c = Lt → Ascii.compare a c = Lt.
Proof.
  unfold Ascii.compare. rewrite !N.compare_lt_iff. apply N.lt_trans.
Qed.

Lemma string_compare_lt_trans (a b c : string) :
  String.compare a b = Lt → String.compare b c = Lt →
  String.compare a c = Lt.
Proof.
  revert b c. induction a as [|x a IH]; intros [|y b] [|z c]; simpl;
    try done.
  destruct (Ascii.compare x y) eqn:Hxy; try done;
    destruct (Ascii.compare y z) eqn:Hyz; try done.
  - apply Ascii.compare_eq_iff in Hxy, Hyz. subst.
    rewrite ascii_compare_refl. apply IH.
  - apply Ascii.compare_eq_iff in Hxy. subst. by rewrite Hyz.
  - apply Ascii.compare_eq_iff in Hyz. subst. by rewrite Hxy.
  - by rewrite (ascii_compare_lt_trans x y z).
Qed.

Lemma commodity_compareTech_neg (c1 c2 : Commodity) :
  (commodity_compareTech c1 c2 < 0)%Z
  ↔ (price c2 < price c1)%Z
    ∨ (price c1 = price c2 ∧ String.compare (name c1) (name c2) = Lt).
Proof.
  unfold commodity_compareTech, strcmp.
  repeat case_bool_decide; destruct (String.compare (name c1) (name c2));
    split; intros H'; try lia; try (destruct H' as [?|[? ?]]; done || lia).
  all: right; split; [lia|done].
Qed.

Lemma commodity_compareTech_pos (c1 c2 : Commodity) :
  (commodity_compareTech c1 c2 > 0)%Z
  ↔ (price c1 < price c2)%Z
    ∨ (price c1 = price c2 ∧ String.compare (name c1) (name c2) = Gt).
Proof.
  unfold commodity_compareTech, strcmp.
  repeat case_bool_decide; destruct (String.compare (name c1) (name c2));
    split; intros H'; try lia; try (destruct H' as [?|[? ?]]; done || lia).
  all: right; split; [lia|done].
Qed.

(** X13.  [commodity_compareTech] is a consistent ordering for [qsort]:
    a commodity compares equal to itself; two commodities compare equal
    exactly when they agree in price and name; swapping the arguments
    swaps the sign; "sorts before" is transitive; and the dearer
    commodity sorts before the cheaper one. *)
Theorem commodity_compareTech_orders (c1 c2 c3 : Commodity) :
  commodity_compareTech c1 c1 = 0%Z
  ∧ (commodity_compareTech c1 c2 = 0%Z
     ↔ price c1 = price c2 ∧ name c1 = name c2)
  ∧ ((commodity_compareTech c1 c2 < 0)%Z
     ↔ (commodity_compareTech c2 c1 > 0)%Z)
  ∧ ((commodity_compareTech c1 c2 < 0)%Z →
     (commodity_compareTech c2 c3 < 0)%Z →
     (commodity_compareTech c1 c3 < 0)%Z)
  ∧ ((price c2 < price c1)%Z → (commodity_compareTech c1 c2 < 0)%Z).
Proof.
  split; [|split; [|split; [|split]]].
  - unfold commodity_compareTech, strcmp.
    rewrite !bool_decide_false by lia. by rewrite string_compare_refl.
  - unfold commodity_compareTech, strcmp. split.
    + repeat case_bool_decide; try done.
      destruct (String.compare (name c1) (name c2)) eqn:E; try done.
      intros _. split; [lia|]. by apply String.compare_eq_iff.
    + intros [Hp ->]. rewrite !bool_decide_false by lia.
      by rewrite string_compare_refl.
  - rewrite commodity_compareTech_neg, commodity_compareTech_pos.
    rewrite (String.compare_antisym (name c1) (name c2)).
    destruct (String.compare (name c2) (name c1)); simpl;
      split; intros [?|[? ?]]; try done; (by left) || (right; split; done).
  - rewrite !commodity_compareTech_neg.
    intros [H12|[H12 Hn12]] [H23|[H23 Hn23]]; try (left; lia).
    right. split; [lia|]. by eapply string_compare_lt_trans.
  - intros Hp. apply commodity_compareTech_neg. by left.
Qed.

(** ** Load, then ask for a price *)

Lemma priced_slots_all (nodes : list (string * string * Z)) :
  Forall (λ n, (0 < n.2)%Z) nodes → priced_slots nodes = seq 0 (length nodes).
Proof.
  intros Hall. unfold priced_slots.
  induction nodes as [|x nodes IH] using rev_ind; [done|].
  rewrite Forall_app, Forall_singleton in Hall. destruct Hall as [Hall Hx].
  rewrite length_app.
  replace (length nodes + length [x])%nat with (S (length nodes))
    by (simpl; lia).
  rewrite seq_S, filter_app. f_equal.
  - etrans; [|apply (IH Hall)].
    apply filter_seq_ext. intros k Hk. by rewrite node_price_app_l.
  - simpl. rewrite filter_cons, filter_nil, node_price_last.
    rewrite decide_True by done. done.
Qed.

(** X14.  When every commodity of the data file has a positive price,
    the catalog is consistent: [econ_comm] is the identity, every entry
    carries its own slot as index, and [economy_getPrice] on the entry at
    slot [k] logs nothing and returns the price curve at the system's
    credits and its stockpile [k], truncated. *)
Theorem economy_getPrice_after_load
    (PRICE : Q → Q → Q) (nodes : list (string * string * Z))
    (k : nat) (e : Commodity) (sys : StarSystem) (p : Planet)
    (warnings : list string) :
  Forall (λ n, (0 < n.2)%Z) nodes →
  cat_stack (commodity_load nodes) !! k = Some e →
  cat_comm (commodity_load nodes) = Z.of_nat <$> seq 0 (length nodes)
  ∧ cat_nprices (commodity_load nodes) = length nodes
  ∧ index e = Z.of_nat k
  ∧ economy_getPrice PRICE (cat_nprices (commodity_load nodes))
                     (cat_comm (commodity_load nodes)) e sys p warnings
    = (Qtrunc (PRICE (credits sys) (rd (stockpiles sys) k)), warnings).
Proof.
  intros Hall He.
  destruct (commodity_load_loaded nodes) as [Hnodes Hcomm Hnp Hidx].
  rewrite (priced_slots_all nodes Hall) in Hcomm, Hnp.
  rewrite length_seq in Hnp.
  set (c := commodity_load nodes) in *.
  assert (k < length nodes)%nat as Hk.
  { apply lookup_lt_Some in He.
    by rewrite <- (length_fmap commodity_node), Hnodes in He. }
  assert (index e = Z.of_nat k) as Hie
      by (rewrite (Hidx k e He), bool_decide_true by lia; done).
  split; [done|]. split; [done|]. split; [done|].
  assert (∀ j, (j < length nodes)%nat → cat_comm c !! j = Some (Z.of_nat j))
    as Hid.
  { intros j Hj. rewrite Hcomm, list_lookup_fmap, lookup_seq_lt by done.
    done. }
  pose proof (getPrice_scan_spec (cat_comm c) (index e) (cat_nprices c) 0)
    as (Hr & Hbefore & Hat).
  cbv zeta in *. unfold economy_getPrice.
  set (r := getPrice_scan (cat_comm c) (index e) 0 (cat_nprices c)) in *.
  assert (r = k) as ->.
  { destruct (decide (r ≤ k)%nat) as [Hle|Hgt].
    - specialize (Hat ltac:(lia)). rewrite Hid, Hie in Hat by lia.
      injection Hat. lia.
    - exfalso. apply (Hbefore k); [lia|]. rewrite Hid, Hie by lia. done. }
  rewrite bool_decide_false by lia. done.
Qed.

Lemma economy_getPrice_after_load_witness :
  economy_getPrice sample_PRICE
    (cat_nprices (commodity_load [("Food"%string, ""%string, 10%Z)]))
    (cat_comm (commodity_load [("Food"%string, ""%string, 10%Z)]))
    (mkCommodity "Food" "" 10 0) sample_sys0 sample_planet_A []
  = (Qtrunc (sample_PRICE (credits sample_sys0)
                          (rd (stockpiles sample_sys0) 0)), []).
Proof.
  apply (economy_getPrice_after_load sample_PRICE
           [("Food"%string, ""%string, 10%Z)] 0
           (mkCommodity "Food" "" 10 0) sample_sys0 sample_planet_A []).
  - repeat constructor.
  - reflexivity.
Defined.

(** ** The buy-cost integrator: more costs more *)

Lemma Qtrunc_floor (q : Q) : 0 <= q → Qtrunc q = Qfloor q.
Proof.
  destruct q as [n d]. unfold Qle, Qtrunc. simpl. intros Hn.
  apply Z.quot_div_nonneg; lia.
Qed.

Lemma Qtrunc_mono (a b : Q) :
  0 <= a → a <= b → (0 ≤ Qtrunc a ≤ Qtrunc b)%Z.
Proof.
  intros Ha Hab. rewrite !Qtrunc_floor by lra. split.
  - change 0%Z with (Qfloor 0). by apply Qfloor_resp_le.
  - by apply Qfloor_resp_le.
Qed.

Section BuyCost.

Variable PRICE : Q → Q → Q.
Hypothesis PRICE_nonneg : ∀ c g, 0 <= c → 0 < g → 0 <= PRICE c g.

Variables p_creds p_goods : Q.
Hypothesis p_creds_nonneg : 0 <= p_creds.

(** While buying, the credits of the seller do not fall, one unit of
    stock goes per round, and the running cost does not fall. *)
Lemma buying_rounds (k : nat) :
  inject_Z (Z.of_nat k) < p_goods →
  ∃ c g f,
    Nat.iter k (price_of_buying_step PRICE 1) (p_creds, p_goods, 0)
    = (c, g, f)
    ∧ 0 <= c ∧ g == p_goods - inject_Z (Z.of_nat k) ∧ 0 <= f
    ∧ bought_so_far PRICE 1 p_creds p_goods k = f
    ∧ bought_so_far PRICE 1 p_creds p_goods (S k) = f + PRICE c g
    ∧ 0 <= PRICE c g.
Proof.
  unfold bought_so_far.
  induction k as [|k IH]; intros Hk.
  - exists p_creds, p_goods, 0. simpl.
    split; [done|]. split; [done|]. split; [ring|]. split; [done|].
    split; [done|]. split; [done|].
    apply PRICE_nonneg; [done|]. simpl in Hk. exact Hk.
  - rewrite Nat2Z.inj_succ, <- Z.add_1_r, inject_Z_plus in Hk.
    change (inject_Z 1) with 1 in Hk.
    destruct IH as (c & g & f & Hiter & Hc & Hg & Hf & _ & _ & Hp); [lra|].
    rewrite !Nat.iter_succ, Hiter. cbn [price_of_buying_step snd].
    eexists _, _, _. split; [reflexivity|].
    change (inject_Z 1) with 1. change (inject_Z (1 * 1)) with 1.
    assert (g - 1 == p_goods - inject_Z (Z.of_nat (S k))) as Hg'.
    { rewrite Nat2Z.inj_succ, <- Z.add_1_r, inject_Z_plus.
      change (inject_Z 1) with 1. rewrite Hg. ring. }
    split; [nra|]. split; [done|]. split; [lra|].
    split; [done|]. split; [done|].
    apply PRICE_nonneg; [nra|]. rewrite Hg'.
    rewrite Nat2Z.inj_succ, <- Z.add_1_r, inject_Z_plus.
    change (inject_Z 1) with 1. lra.
Qed.

Lemma price_of_buying_running (n_tons : Z) :
  1 < p_goods - inject_Z n_tons →
  price_of_buying PRICE n_tons p_creds p_goods
  = Qtrunc (bought_so_far PRICE (if bool_decide (0 < n_tons)%Z then 1 else -1)
                          p_creds p_goods (Z.abs_nat n_tons)).
Proof.
  intros Hroom. unfold price_of_buying, bought_so_far.
  destruct (Qle_bool (p_goods - inject_Z n_tons) 1) eqn:E.
  - apply Qle_bool_iff in E. lra.
  - by destruct (Nat.iter _ _ _) as [[c g] f].
Qed.

End BuyCost.

(** X15.  With a price curve that is not negative for non-negative
    credits and positive stock, and a seller whose credits are not
    negative: as long as the stock left stays above one unit, the cost
    is not negative and buying one more unit never costs less.  For
    [0 <= n_tons] and [p_goods - (n_tons + 1) > 1] the cost of
    [n_tons + 1] is at least the cost of [n_tons]. *)
Theorem price_of_buying_more_costs_more
    (PRICE : Q → Q → Q) (n_tons : Z) (p_creds p_goods : Q) :
  (∀ c g, 0 <= c → 0 < g → 0 <= PRICE c g) →
  0 <= p_creds →
  (0 ≤ n_tons)%Z → 1 < p_goods - inject_Z (n_tons + 1) →
  (0 ≤ price_of_buying PRICE n_tons p_creds p_goods
   ≤ price_of_buying PRICE (n_tons + 1) p_creds p_goods)%Z.
Proof.
  intros Hpos Hc Hn Hroom.
  rewrite inject_Z_plus in Hroom.
  change (inject_Z 1) with 1 in Hroom.
  rewrite !price_of_buying_running
    by (rewrite ?inject_Z_plus; change (inject_Z 1) with 1; lra).
  rewrite (bool_decide_true (0 < n_tons + 1)%Z) by lia.
  replace (Z.abs_nat (n_tons + 1)) with (S (Z.abs_nat n_tons)) by lia.
  assert (bought_so_far PRICE (if bool_decide (0 < n_tons)%Z then 1 else -1)
            p_creds p_goods (Z.abs_nat n_tons)
          = bought_so_far PRICE 1 p_creds p_goods (Z.abs_nat n_tons)) as ->.
  { case_bool_decide; [done|].
    replace n_tons with 0%Z by lia. done. }
  destruct (buying_rounds PRICE Hpos p_creds p_goods Hc (Z.abs_nat n_tons))
    as (c & g & f & _ & _ & _ & Hf & -> & -> & Hp).
  { rewrite Zabs2Nat.id_abs, Z.abs_eq by done. lra. }
  apply Qtrunc_mono; lra.
Qed.

Lemma sample_PRICE_nonneg (c g : Q) : 0 <= c → 0 < g → 0 <= sample_PRICE c g.
Proof. intros Hc Hg. unfold sample_PRICE. apply Qle_shift_div_l; lra. Qed.

Lemma price_of_buying_more_costs_more_witness :
  (0 ≤ price_of_buying sample_PRICE 3 100000000 100000
   ≤ price_of_buying sample_PRICE (3 + 1) 100000000 100000)%Z.
Proof.
  apply (price_of_buying_more_costs_more sample_PRICE 3 100000000 100000).
  - apply sample_PRICE_nonneg.
  - vm_compute. discriminate.
  - lia.
  - reflexivity.
Defined.

(** ** Credits for display *)

Lemma inject_Z_le (a b : Z) : (a ≤ b)%Z → inject_Z a <= inject_Z b.
Proof. intros Hab. by rewrite <- Zle_Qle. Qed.

Lemma inject_Z_lt (a b : Z) : (a < b)%Z → inject_Z a < inject_Z b.
Proof. intros Hab. by rewrite <- Zlt_Qlt. Qed.

Lemma scaled_value (c u : Z) :
  (0 < u)%Z → (u ≤ c)%Z →
  inject_Z c / inject_Z u * inject_Z u == inject_Z c
  ∧ 1 <= inject_Z c / inject_Z u
  ∧ ((c < 1000 * u)%Z → inject_Z c / inject_Z u < 1000).
Proof.
  intros Hu Hc.
  pose proof (inject_Z_lt 0 u Hu) as Hu'. change (inject_Z 0) with 0 in Hu'.
  pose proof (inject_Z_le u c Hc) as Hc'.
  split; [field; lra|]. split.
  - apply Qle_shift_div_l; lra.
  - intros Hhi. apply Qlt_shift_div_r; [done|].
    apply inject_Z_lt in Hhi. rewrite inject_Z_mult in Hhi.
    exact Hhi.
Qed.

(** X16.  [credits2str] prints the plain integer when the precision is
    negative or the amount is below 1000.  Otherwise it prints the amount
    in units of the suffix it chooses, and the number printed in front of
    the suffix is at least 1 and, except for the largest suffix Q, below
    1000. *)
Theorem credits2str_scales (credits decimals : Z) :
  ((decimals < 0)%Z ∨ (credits < 1000)%Z →
     credits2str credits decimals = PlainCredits credits)
  ∧ ((0 ≤ decimals)%Z → (1000 ≤ credits)%Z →
     ∃ (value : Q) (suffix : string),
       credits2str credits decimals = ScaledCredits decimals value suffix
       ∧ value * suffix_unit suffix == inject_Z credits
       ∧ 1 <= value
       ∧ (suffix ≠ "Q"%string → value < 1000)).
Proof.
  split.
  - intros Hplain. unfold credits2str.
    repeat case_bool_decide; try done; lia.
  - intros Hdec Hbig. unfold credits2str.
    rewrite bool_decide_false by lia.
    repeat case_bool_decide; try lia; eexists _, _; (split; [reflexivity|]).
    + destruct (scaled_value credits 1000000000000000) as (Hv & Hlo & _);
        [lia..|].
      split; [exact Hv|]. split; [exact Hlo|]. intros Hne. by destruct Hne.
    + destruct (scaled_value credits 1000000000000) as (Hv & Hlo & Hhi);
        [lia..|].
      split; [exact Hv|]. split; [exact Hlo|]. intros _. apply Hhi. lia.
    + destruct (scaled_value credits 1000000000) as (Hv & Hlo & Hhi);
        [lia..|].
      split; [exact Hv|]. split; [exact Hlo|]. intros _. apply Hhi. lia.
    + destruct (scaled_value credits 1000000) as (Hv & Hlo & Hhi); [lia..|].
      split; [exact Hv|]. split; [exact Hlo|]. intros _. apply Hhi. lia.
    + destruct (scaled_value credits 1000) as (Hv & Hlo & Hhi); [lia..|].
      split; [exact Hv|]. split; [exact Hlo|]. intros _. apply Hhi. lia.
Qed.

Lemma credits2str_scales_witness :
  credits2str 999 2 = PlainCredits 999
  ∧ ∃ (value : Q) (suffix : string),
      credits2str 1500000 2 = ScaledCredits 2 value suffix
      ∧ value * suffix_unit suffix == inject_Z 1500000
      ∧ 1 <= value
      ∧ (suffix ≠ "Q"%string → value < 1000).
Proof.
  split.
  - apply (proj1 (credits2str_scales 999 2)). right. lia.
  - apply (proj2 (credits2str_scales 1500000 2)); lia.
Defined.

(** ** Aggregation: what it leaves alone *)

Section RefreshEconomyFrame.

Variable econ_nprices : nat.
Variable P : galaxy → Prop.
Hypothesis P_upd_prod_mod :
  ∀ st i g f, P st → P (upd_prod_mod i g f st).

Lemma refresh_economy_planets_keeps (i comm : nat) (pls : list Planet) :
  ∀ st out st' out',
    P st → refresh_economy_planets i comm pls st out = Some (st', out') →
    P st'.
Proof.
  induction pls as [|p pls IH]; intros st out st' out' Hst; simpl.
  - by intros [= <- _].
  - destruct (prod_mods_plus_is_null p comm); [by intros [= <- _]|].
    destruct (planet_prod_mods p) as [a|]; [|done].
    apply IH. by apply P_upd_prod_mod.
Qed.

Lemma refresh_economy_keeps (st st' : galaxy) (out' : list string) :
  P st → refresh_economy econ_nprices st = Some (st', out') → P st'.
Proof.
  intros Hst. unfold refresh_economy.
  set (K := λ acc : option (galaxy * list string),
         ∀ s o, acc = Some (s, o) → P s).
  enough (K (foldl (refresh_economy_system econ_nprices)
                   (Some (st, ["refreshing economy"%string]))
                   (seq 0 (length st)))) as HK by (intros Hrun; eapply HK, Hrun).
  apply foldl_invariant; [by intros s o [= <- _]|].
  intros acc i _ Hacc. unfold refresh_economy_system.
  apply foldl_invariant; [done|].
  intros acc' comm _ Hacc' s o. unfold refresh_economy_good.
  destruct acc' as [[s1 o1]|]; [|done]. simpl.
  apply refresh_economy_planets_keeps.
  apply P_upd_prod_mod. by eapply Hacc'.
Qed.

End RefreshEconomyFrame.

Lemma pm_frame_upd_prod_mod (st0 st : galaxy) (i g : nat) (f : Q → Q) :
  pm_frame st0 st → pm_frame st0 (upd_prod_mod i g f st).
Proof.
  intros [Hsk Hc Hs Hp Hb]. unfold upd_prod_mod. constructor.
  - by rewrite skeleton_alter.
  - intros k. rewrite <- Hc. unfold sys_credits.
    by rewrite (lookup_alter_same credits).
  - intros k h. rewrite <- Hs. unfold sys_stock.
    by rewrite (lookup_alter_same (λ s, rd (stockpiles s) h)).
  - intros k h. rewrite <- Hp. unfold sys_price.
    by rewrite (lookup_alter_same (λ s, rd (prices s) h)).
  - intros k h. rewrite <- Hb. unfold sys_bought.
    by rewrite (lookup_alter_same (λ s, rd (bought s) h)).
Qed.

(** X17.  On a well-formed galaxy whose planets all have their
    production arrays, [refresh_economy] does not fault, prints only its
    heading, sets every production modifier of every system to the sum
    of the modifiers of the planets of that system, and leaves credits,
    stockpiles, prices, telemetry, identifiers and jumps as they were. *)
Theorem refresh_economy_sums_planets (econ_nprices : nat) (st : galaxy) :
  initialized st → wf_galaxy econ_nprices st →
  ∃ st' : galaxy,
    refresh_economy econ_nprices st
    = Some (st', ["refreshing economy"%string])
    ∧ (∀ i g, (i < length st)%nat → (g < econ_nprices)%nat →
         sys_prod_mod st' i g = aggregated st i g)
    ∧ pm_frame st st'.
Proof.
  intros Hinit Hwf.
  destruct (refresh_economy_initialized econ_nprices st Hinit Hwf)
    as (st' & Hrun & Hread).
  exists st'. split; [done|]. split; [done|].
  apply (refresh_economy_keeps econ_nprices (pm_frame st)
           (pm_frame_upd_prod_mod st) st st' _ ltac:(by constructor) Hrun).
Qed.

Lemma sample_inhabited_initialized : initialized sample_inhabited.
Proof.
  intros [|i] p Hp; simpl in Hp; [|by apply elem_of_nil in Hp].
  repeat (apply elem_of_cons in Hp as [->|Hp]; [by eexists|]).
  by apply elem_of_nil in Hp.
Qed.

Lemma refresh_economy_sums_planets_witness :
  ∃ st' : galaxy,
    refresh_economy 2 sample_inhabited
    = Some (st', ["refreshing economy"%string])
    ∧ (∀ i g, (i < length sample_inhabited)%nat → (g < 2)%nat →
         sys_prod_mod st' i g = aggregated sample_inhabited i g)
    ∧ pm_frame sample_inhabited st'.
Proof.
  apply (refresh_economy_sums_planets 2 sample_inhabited).
  - apply sample_inhabited_initialized.
  - repeat constructor.
Defined.

(** ** Initialization *)

Section Init.

Variable econ_nprices : nat.

Lemma list_alter_twice {A} (f g : A → A) (i : nat) (l : list A) :
  alter f i (alter g i l) = alter (λ x, f (g x)) i l.
Proof.
  revert i. induction l as [|x l IH]; intros [|i]; try done.
  unfold alter in *. simpl. f_equal. apply IH.
Qed.

Lemma list_alter_all {A} (F : A → A) (l : list A) (m : nat) :
  (m ≤ length l)%nat →
  foldl (λ l i, alter F i l) l (seq 0 m) = (F <$> take m l) ++ drop m l.
Proof.
  induction m as [|m IH]; intros Hm.
  - by rewrite take_0, drop_0.
  - rewrite foldl_seq_S, IH by lia.
    destruct (lookup_lt_is_Some_2 l m) as [x Hx]; [lia|].
    rewrite (take_S_r _ _ _ Hx), fmap_app. simpl.
    rewrite (drop_S _ _ _ Hx).
    assert (length (F <$> take m l) = m) as Hlen
        by (rewrite length_fmap, length_take; lia).
    rewrite <- (assoc_L (++)). simpl.
    apply list_eq. intros k.
    rewrite list_lookup_alter.
    case_decide as Hk; [subst k|].
    + rewrite !lookup_app_r by lia. rewrite Hlen, Nat.sub_diag. done.
    + destruct (decide (k < m)%nat).
      * by rewrite !lookup_app_l by lia.
      * rewrite !lookup_app_r by lia. rewrite Hlen.
        destruct (k - m)%nat as [|d] eqn:E; [lia|]. done.
Qed.

(** The loop that fills [stockpiles] with the starting goods. *)
Lemma fill_stockpiles (v : Q) (m : nat) :
  (m ≤ econ_nprices)%nat →
  foldl (λ a g, alter (λ _, v) g a) (replicate econ_nprices 0) (seq 0 m)
  = replicate m v ++ replicate (econ_nprices - m) 0.
Proof.
  induction m as [|m IH]; intros Hm.
  - simpl. by rewrite Nat.sub_0_r.
  - rewrite foldl_seq_S, IH by lia.
    apply list_eq. intros k. rewrite list_lookup_alter.
    case_decide as Hk; [subst k|].
    + rewrite (lookup_app_r (replicate m v))
        by (rewrite length_replicate; lia).
      rewrite (lookup_app_l (replicate (S m) v))
        by (rewrite length_replicate; lia).
      rewrite !lookup_replicate_2 by (rewrite ?length_replicate; lia).
      done.
    + destruct (decide (k < m)%nat).
      * rewrite !lookup_app_l by (rewrite length_replicate; lia).
        by rewrite !lookup_replicate_2 by lia.
      * rewrite !lookup_app_r by (rewrite length_replicate; lia).
        rewrite !length_replicate.
        destruct (decide (k < econ_nprices)%nat).
        -- by rewrite !lookup_replicate_2 by lia.
        -- rewrite !(proj1 (lookup_replicate_None _ _ _)) by lia. done.
Qed.

Lemma upd_stock_all (i : nat) (v : Q) (st : galaxy) (m : nat) :
  foldl (λ st g, upd_stock i g (λ _, v) st) st (seq 0 m)
  = alter (set_stockpiles
             (λ a, foldl (λ a g, alter (λ _, v) g a) a (seq 0 m))) i st.
Proof.
  induction m as [|m IH].
  - simpl. symmetry. apply list_alter_id. by intros [].
  - rewrite foldl_seq_S, IH. unfold upd_stock.
    rewrite list_alter_twice. apply list_alter_ext; [|done].
    intros s _. unfold set_stockpiles.
    cbn [id credits stockpiles prices prod_mods bought jumps planets].
    by rewrite foldl_seq_S.
Qed.

Lemma economy_init_system_fresh (st : galaxy) (i : nat) :
  economy_init_system econ_nprices st i
  = alter (fresh_system econ_nprices) i st.
Proof.
  unfold economy_init_system. rewrite upd_stock_all, !list_alter_twice.
  apply list_alter_ext; [|done].
  intros s _. unfold fresh_system, set_bought, set_stockpiles. simpl.
  rewrite fill_stockpiles by done.
  by rewrite Nat.sub_diag, app_nil_r.
Qed.

Lemma foldl_same {A B} (f g : A → B → A) (a : A) (l : list B) :
  (∀ a b, f a b = g a b) → foldl f a l = foldl g a l.
Proof.
  intros Hfg. revert a. induction l as [|b l IH]; intros a; [done|].
  simpl. by rewrite Hfg, IH.
Qed.

(** The loop of [economy_init] over the systems. *)
Lemma economy_init_systems (st : galaxy) :
  foldl (economy_init_system econ_nprices) st (seq 0 (length st))
  = fresh_system econ_nprices <$> st.
Proof.
  transitivity (foldl (λ l i, alter (fresh_system econ_nprices) i l) st
                      (seq 0 (length st))).
  - apply foldl_same. intros s i. apply economy_init_system_fresh.
  - rewrite list_alter_all by done. by rewrite take_ge, drop_ge, app_nil_r.
Qed.

End Init.

Section InitResult.

Variable PRICE : Q → Q → Q.
Variable econ_nprices : nat.
Variable commodity_stack : list Commodity.

Lemma refresh_prices_keeps (P : galaxy → Prop) (st : galaxy) :
  (∀ s i g f, P s → P (upd_price i g f s)) →
  P st → P (refresh_prices PRICE econ_nprices commodity_stack st).
Proof.
  intros Hupd Hst. unfold refresh_prices.
  apply foldl_invariant; [done|]. intros s i _ Hs.
  unfold refresh_prices_system.
  apply foldl_invariant; [done|]. intros s' g _ Hs'.
  by apply Hupd.
Qed.

Lemma fresh_credits (st : galaxy) (i : nat) :
  (i < length st)%nat →
  sys_credits (fresh_system econ_nprices <$> st) i = 100000000.
Proof.
  intros Hi. unfold sys_credits. rewrite list_lookup_fmap.
  by destruct (lookup_lt_is_Some_2 st i Hi) as [s ->].
Qed.

Lemma fresh_reads (st : galaxy) (i g : nat) :
  (i < length st)%nat → (g < econ_nprices)%nat →
  sys_stock (fresh_system econ_nprices <$> st) i g = 100000
  ∧ sys_bought (fresh_system econ_nprices <$> st) i g = 0.
Proof.
  intros Hi Hg. unfold sys_stock, sys_bought.
  rewrite list_lookup_fmap.
  destruct (lookup_lt_is_Some_2 st i Hi) as [s ->]. simpl.
  unfold rd. by rewrite !lookup_replicate_2 by done.
Qed.

Lemma fresh_wf (st : galaxy) :
  jumps_in_range st → wf_galaxy econ_nprices (fresh_system econ_nprices <$> st).
Proof.
  intros Hj. unfold wf_galaxy. rewrite length_fmap.
  apply Forall_fmap. eapply Forall_impl; [exact Hj|].
  intros s Hs. constructor; simpl; by rewrite ?length_replicate.
Qed.

Lemma fresh_planets (st : galaxy) (k : nat) :
  planets_of (fresh_system econ_nprices <$> st) k = planets_of st k.
Proof.
  unfold planets_of. rewrite list_lookup_fmap. by destruct (st !! k).
Qed.

Lemma fresh_skeleton (st : galaxy) :
  skeleton (fresh_system econ_nprices <$> st) = skeleton st.
Proof. unfold skeleton. by rewrite <- list_fmap_compose. Qed.

End InitResult.

Lemma skeleton_upd_price (st : galaxy) (i g : nat) (f : Q → Q) :
  skeleton (upd_price i g f st) = skeleton st.
Proof. by apply skeleton_alter. Qed.

Lemma bought_upd_price (st : galaxy) (i g : nat) (f : Q → Q) (k h : nat) :
  sys_bought (upd_price i g f st) k h = sys_bought st k h.
Proof.
  unfold sys_bought, upd_price.
  by rewrite (lookup_alter_same (λ s, rd (bought s) h)).
Qed.

(** What [economy_init] returns on an economy that is not yet
    initialized. *)
Lemma economy_init_result
    (PRICE : Q → Q → Q) (econ_nprices : nat)
    (commodity_stack : list Commodity) (w : Econ) :
  econ_initialized w = false →
  initialized (econ_systems w) → jumps_in_range (econ_systems w) →
  ∃ w' : Econ,
    economy_init PRICE econ_nprices commodity_stack w = Some w'
    ∧ econ_initialized w' = true
    ∧ econ_trade_modifier w' = 99 # 100
    ∧ econ_out w'
      = econ_out w ++ ["Init ing economy"; "refreshing economy"]%string
    ∧ wf_galaxy econ_nprices (econ_systems w')
    ∧ skeleton (econ_systems w') = skeleton (econ_systems w)
    ∧ (∀ i, (i < length (econ_systems w))%nat →
         sys_credits (econ_systems w') i = 100000000)
    ∧ (∀ i g, (i < length (econ_systems w))%nat → (g < econ_nprices)%nat →
         sys_stock (econ_systems w') i g = 100000
         ∧ sys_bought (econ_systems w') i g = 0
         ∧ sys_prod_mod (econ_systems w') i g = aggregated (econ_systems w) i g
         ∧ sys_price (econ_systems w') i g
           = stack_price commodity_stack g * PRICE 100000000 100000)
    ∧ economy_init PRICE econ_nprices commodity_stack w'
      = Some (mkEcon true (99 # 100) (econ_systems w')
                     (econ_out w' ++ ["Init ing economy"%string])).
Proof.
  intros Hfresh Hinit Hjumps. unfold economy_init at 1.
  rewrite Hfresh, economy_init_systems.
  set (st := econ_systems w) in *.
  set (st1 := fresh_system econ_nprices <$> st).
  pose proof (fresh_wf econ_nprices st Hjumps) as Hwf1. fold st1 in Hwf1.
  assert (initialized st1) as Hinit1.
  { intros k p. unfold st1. rewrite fresh_planets. apply Hinit. }
  destruct (refresh_economy_initialized econ_nprices st1 Hinit1 Hwf1)
    as (st2 & Hrun & Hpm2).
  rewrite Hrun. simpl.
  pose proof (refresh_economy_keeps econ_nprices (pm_frame st1)
                (pm_frame_upd_prod_mod st1) st1 st2 _
                ltac:(by constructor) Hrun) as [Hsk2 Hc2 Hs2 _ Hb2].
  pose proof (refresh_economy_keeps econ_nprices (wf_galaxy econ_nprices)
                (λ s i g f, wf_upd_prod_mod econ_nprices s i g f)
                st1 st2 _ Hwf1 Hrun) as Hwf2.
  destruct (refresh_prices_spec PRICE econ_nprices commodity_stack st2 Hwf2)
    as [[Hwf3 Hlen3 Hc3 Hs3 Hpm3] Hpr3].
  set (st3 := refresh_prices PRICE econ_nprices commodity_stack st2) in *.
  assert (length st2 = length st) as Hlen2.
  { rewrite (skeleton_length st2 st1 Hsk2). unfold st1.
    by rewrite length_fmap. }
  eexists. split; [reflexivity|]. simpl.
  split; [done|]. split; [done|].
  split; [by rewrite <- (assoc_L (++))|].
  split; [done|]. split; [|split; [|split]].
  - unfold st3.
    rewrite (refresh_prices_keeps PRICE econ_nprices commodity_stack
               (λ s, skeleton s = skeleton st2));
      [|intros; by rewrite skeleton_upd_price|done].
    rewrite Hsk2. apply fresh_skeleton.
  - intros i Hi. rewrite Hc3, Hc2. by apply fresh_credits.
  - intros i g Hi Hg.
    pose proof (fresh_credits econ_nprices st i Hi) as Hc1.
    destruct (fresh_reads econ_nprices st i g Hi Hg) as (Hs1 & Hb1).
    fold st1 in Hc1, Hs1, Hb1.
    rewrite Hs3, Hs2, Hs1.
    rewrite Hpm3, Hpm2 by (unfold st1; rewrite ?length_fmap; done).
    rewrite Hpr3 by lia. rewrite Hc2, Hs2, Hc1, Hs1.
    split; [done|]. split; [|split; [|done]].
    + unfold st3.
      rewrite (refresh_prices_keeps PRICE econ_nprices commodity_stack
                 (λ s, sys_bought s i g = sys_bought st2 i g));
        [by rewrite Hb2|intros; by rewrite bought_upd_price|done].
    + unfold aggregated, st1. by rewrite fresh_planets.
  - done.
Qed.

(** X18.  On an economy that is not yet initialized, whose planets all
    have their production arrays and whose jumps lead to systems of the
    stack, [economy_init] does not fault; it marks the economy
    initialized, sets the trade rate to 0.99, and leaves a well-formed
    galaxy with the systems, identifiers and jumps it found, in which
    every system has 100,000,000 credits, 100,000 units of every priced
    commodity, no recorded transfers, the production modifiers summed
    from its planets and the prices [refresh_prices] computes from these.
    A second [economy_init] only prints its heading. *)
Theorem economy_init_starts_economy
    (PRICE : Q → Q → Q) (econ_nprices : nat)
    (commodity_stack : list Commodity) (w : Econ) :
  econ_initialized w = false →
  initialized (econ_systems w) → jumps_in_range (econ_systems w) →
  ∃ w' : Econ,
    economy_init PRICE econ_nprices commodity_stack w = Some w'
    ∧ econ_initialized w' = true
    ∧ econ_trade_modifier w' = 99 # 100
    ∧ econ_out w'
      = econ_out w ++ ["Init ing economy"; "refreshing economy"]%string
    ∧ wf_galaxy econ_nprices (econ_systems w')
    ∧ skeleton (econ_systems w') = skeleton (econ_systems w)
    ∧ (∀ i, (i < length (econ_systems w))%nat →
         sys_credits (econ_systems w') i = 100000000)
    ∧ (∀ i g, (i < length (econ_systems w))%nat → (g < econ_nprices)%nat →
         sys_stock (econ_systems w') i g = 100000
         ∧ sys_bought (econ_systems w') i g = 0
         ∧ sys_prod_mod (econ_systems w') i g = aggregated (econ_systems w) i g
         ∧ sys_price (econ_systems w') i g
           = stack_price commodity_stack g * PRICE 100000000 100000)
    ∧ economy_init PRICE econ_nprices commodity_stack w'
      = Some (mkEcon true (99 # 100) (econ_systems w')
                     (econ_out w' ++ ["Init ing economy"%string])).
Proof.
  intros Hfresh Hinit Hjumps.
  destruct (economy_init_result PRICE econ_nprices commodity_stack w
              Hfresh Hinit Hjumps) as (w' & Hrun & Hrest).
  exists w'. split; [exact Hrun|exact Hrest].
Qed.


Lemma economy_init_starts_economy_witness :
  ∃ w' : Econ,
    economy_init sample_PRICE 2
      [mkCommodity "Food" "" 10 0; mkCommodity "Ore" "" 20 1] sample_world
    = Some w'
    ∧ econ_initialized w' = true
    ∧ econ_trade_modifier w' = 99 # 100
    ∧ econ_out w'
      = econ_out sample_world
        ++ ["Init ing economy"; "refreshing economy"]%string
    ∧ wf_galaxy 2 (econ_systems w')
    ∧ skeleton (econ_systems w') = skeleton (econ_systems sample_world)
    ∧ (∀ i, (i < length (econ_systems sample_world))%nat →
         sys_credits (econ_systems w') i = 100000000)
    ∧ (∀ i g, (i < length (econ_systems sample_world))%nat → (g < 2)%nat →
         sys_stock (econ_systems w') i g = 100000
         ∧ sys_bought (econ_systems w') i g = 0
         ∧ sys_prod_mod (econ_systems w') i g
           = aggregated (econ_systems sample_world) i g
         ∧ sys_price (econ_systems w') i g
           = stack_price [mkCommodity "Food" "" 10 0; mkCommodity "Ore" "" 20 1]
                         g
             * sample_PRICE 100000000 100000)
    ∧ economy_init sample_PRICE 2
        [mkCommodity "Food" "" 10 0; mkCommodity "Ore" "" 20 1] w'
      = Some (mkEcon true (99 # 100) (econ_systems w')
                     (econ_out w' ++ ["Init ing economy"%string])).
Proof.
  apply (economy_init_starts_economy sample_PRICE 2
           [mkCommodity "Food" "" 10 0; mkCommodity "Ore" "" 20 1]
           sample_world).
  - reflexivity.
  - apply sample_inhabited_initialized.
  - repeat constructor.
Defined.

(** X19.  A freshly initialized economy is in trade equilibrium: the
    galaxy [economy_init] returns has positive credits and stockpiles
    and equal prices everywhere, so that a pass of [trade_update] on it,
    at any trade rate, changes no credits and no stockpile. *)
Theorem economy_init_then_trade
    (PRICE : Q → Q → Q) (econ_nprices : nat)
    (commodity_stack : list Commodity) (trade_modifier : Q) (w : Econ) :
  econ_initialized w = false →
  initialized (econ_systems w) → jumps_in_range (econ_systems w) →
  ∃ w' : Econ,
    economy_init PRICE econ_nprices commodity_stack w = Some w'
    ∧ balanced econ_nprices (econ_systems w')
    ∧ (∀ k, sys_credits
              (trade_update econ_nprices trade_modifier (econ_systems w')) k
            == sys_credits (econ_systems w') k)
    ∧ (∀ k h, sys_stock
                (trade_update econ_nprices trade_modifier (econ_systems w'))
                k h
              == sys_stock (econ_systems w') k h).
Proof.
  intros Hfresh Hinit Hjumps.
  destruct (economy_init_result PRICE econ_nprices commodity_stack w
              Hfresh Hinit Hjumps)
    as (w' & Hrun & _ & _ & _ & Hwf & Hsk & Hcredits & Hreads & _).
  exists w'. split; [exact Hrun|].
  assert (length (econ_systems w') = length (econ_systems w)) as Hlen
      by (by apply skeleton_length).
  assert (balanced econ_nprices (econ_systems w')) as Hbal.
  { constructor; [done|..]; rewrite Hlen.
    - intros k Hk. by rewrite Hcredits.
    - intros k h Hk Hh. destruct (Hreads k h) as (-> & _); done.
    - intros i j g Hi Hj Hg. unfold imbalance.
      rewrite !Hcredits by done.
      destruct (Hreads i g) as (-> & _); [done..|].
      destruct (Hreads j g) as (-> & _); [done..|].
      ring. }
  split; [done|].
  destruct (still_trade_update econ_nprices trade_modifier
              (econ_systems w') Hbal (econ_systems w'))
    as [_ _ Hc Hs]; [destruct Hbal; constructor; done|].
  split; done.
Qed.

Lemma economy_init_then_trade_witness :
  ∃ w' : Econ,
    economy_init sample_PRICE 2
      [mkCommodity "Food" "" 10 0; mkCommodity "Ore" "" 20 1] sample_world
    = Some w'
    ∧ balanced 2 (econ_systems w')
    ∧ (∀ k, sys_credits (trade_update 2 (99 # 100) (econ_systems w')) k
            == sys_credits (econ_systems w') k)
    ∧ (∀ k h, sys_stock (trade_update 2 (99 # 100) (econ_systems w')) k h
              == sys_stock (econ_systems w') k h).
Proof.
  apply (economy_init_then_trade sample_PRICE 2
           [mkCommodity "Food" "" 10 0; mkCommodity "Ore" "" 20 1]
           (99 # 100) sample_world).
  - reflexivity.
  - apply sample_inhabited_initialized.
  - repeat constructor.
Defined.

(** ** Credits over a whole update *)

Lemma total_credits_reads (st st' : galaxy) :
  length st' = length st →
  (∀ k, sys_credits st' k = sys_credits st k) →
  total_credits st' = total_credits st.
Proof.
  intros Hlen Hreads. unfold total_credits. f_equal.
  apply (list_eq_same_length _ _ (length st));
    [by rewrite length_fmap|by rewrite length_fmap|].
  intros k x y Hk Hx Hy.
  specialize (Hreads k). unfold sys_credits in Hreads.
  rewrite list_lookup_fmap in Hx, Hy.
  destruct (st' !! k), (st !! k); simpl in *; congruence.
Qed.

Section CreditsOverUpdate.

Variable PRICE : Q → Q → Q.
Variable econ_nprices : nat.
Variable trade_modifier : Q.
Variable production_modifier : Q.
Variable commodity_stack : list Commodity.
Variable st0 : galaxy.

Local Abbreviation keeps_credits st :=
  (wf_galaxy econ_nprices st ∧ total_credits st == total_credits st0).

Lemma keeps_credits_refresh_prices (st : galaxy) :
  keeps_credits st →
  keeps_credits (refresh_prices PRICE econ_nprices commodity_stack st).
Proof.
  intros [Hwf Hc].
  destruct (refresh_prices_spec PRICE econ_nprices commodity_stack st Hwf)
    as [[Hwf' Hlen Hcr _ _] _].
  split; [done|]. by rewrite (total_credits_reads st _ Hlen Hcr).
Qed.

Lemma keeps_credits_produce_consume (st : galaxy) :
  keeps_credits st →
  keeps_credits (produce_consume econ_nprices production_modifier st).
Proof.
  intros [Hwf Hc].
  destruct (produce_consume_spec econ_nprices production_modifier st Hwf)
    as [[Hwf' Hlen Hcr _] _].
  split; [done|]. by rewrite (total_credits_reads st _ Hlen Hcr).
Qed.

Lemma keeps_credits_trade_update (st : galaxy) :
  keeps_credits st →
  keeps_credits (trade_update econ_nprices trade_modifier st).
Proof.
  intros [Hwf Hc].
  destruct (conserved_trade_update econ_nprices trade_modifier st st)
    as [Hwf' _ Hc' _]; [constructor; done|].
  split; [done|]. by rewrite Hc'.
Qed.

Lemma keeps_credits_loop (dt : Z) (fuel : nat) :
  ∀ (i : Z) (st st' : galaxy),
    keeps_credits st →
    economy_update_loop PRICE econ_nprices trade_modifier production_modifier
                        commodity_stack fuel i dt st = Some st' →
    keeps_credits st'.
Proof.
  induction fuel as [|fuel IH]; intros i st st' Hst; simpl;
    case_bool_decide.
  - done.
  - by intros [= <-].
  - apply IH. unfold economy_round.
    by apply keeps_credits_refresh_prices, keeps_credits_produce_consume,
      keeps_credits_trade_update.
  - by intros [= <-].
Qed.

End CreditsOverUpdate.

(** X20.  Credits are only ever moved, never made or lost: whenever
    [economy_update] returns on a well-formed galaxy, whatever [dt], the
    credits of all systems add up to what they added up to before. *)
Theorem economy_update_conserves_credits
    (PRICE : Q → Q → Q) (econ_nprices : nat)
    (trade_modifier production_modifier : Q)
    (commodity_stack : list Commodity)
    (fuel : nat) (dt : Z) (st st' : galaxy) :
  wf_galaxy econ_nprices st →
  economy_update PRICE econ_nprices trade_modifier production_modifier
                 commodity_stack fuel dt st = Some st' →
  total_credits st' == total_credits st.
Proof.
  intros Hwf Hrun. unfold economy_update in Hrun.
  eapply (keeps_credits_loop PRICE econ_nprices trade_modifier
            production_modifier commodity_stack st dt fuel 0%Z _ st');
    [|exact Hrun].
  apply keeps_credits_refresh_prices. split; [done|reflexivity].
Qed.

Lemma economy_update_conserves_credits_witness :
  total_credits
    (Nat.iter 3 (economy_round sample_PRICE 1 (99 # 100) (1 # 10)
                               [mkCommodity "Food" "" 10 0])
       (refresh_prices sample_PRICE 1 [mkCommodity "Food" "" 10 0]
                       sample_galaxy))
  == total_credits sample_galaxy.
Proof.
  apply (economy_update_conserves_credits sample_PRICE 1 (99 # 100) (1 # 10)
           [mkCommodity "Food" "" 10 0] 3 25000000 sample_galaxy).
  - apply sample_galaxy_wf.
  - apply economy_update_rounds; [lia|vm_compute; lia].
Defined.

(** ** Load, then reprice *)

(** X21.  [refresh_prices] prices good [g] with the price of node [g]
    of the data file; when every commodity of the data file has a
    positive price, that node is the priced commodity [g] itself
    ([econ_comm[g] = g]), and so every price stored is the base price of
    its own commodity times the price curve. *)
Theorem commodity_load_then_refresh_prices
    (PRICE : Q → Q → Q) (nodes : list (string * string * Z))
    (st : galaxy) (i g : nat) :
  Forall (λ n, (0 < n.2)%Z) nodes →
  wf_galaxy (cat_nprices (commodity_load nodes)) st →
  (i < length st)%nat → (g < cat_nprices (commodity_load nodes))%nat →
  sys_price (refresh_prices PRICE (cat_nprices (commodity_load nodes))
                            (cat_stack (commodity_load nodes)) st) i g
  = priced_base_price (commodity_load nodes) g
    * PRICE (sys_credits st i) (sys_stock st i g)
  ∧ priced_base_price (commodity_load nodes) g = inject_Z (node_price nodes g).
Proof.
  intros Hall Hwf Hi Hg.
  destruct (commodity_load_loaded nodes) as [Hnodes Hcomm Hnp _].
  rewrite (priced_slots_all nodes Hall) in Hcomm, Hnp.
  rewrite length_seq in Hnp.
  set (c := commodity_load nodes) in *.
  assert (priced_base_price c g = stack_price (cat_stack c) g) as Hbase.
  { unfold priced_base_price, stack_price.
    rewrite Hcomm, list_lookup_fmap, lookup_seq_lt by lia. simpl.
    by rewrite Nat2Z.id. }
  assert (stack_price (cat_stack c) g = inject_Z (node_price nodes g))
    as Hnode.
  { unfold stack_price, node_price. rewrite <- Hnodes.
    rewrite list_lookup_fmap. by destruct (cat_stack c !! g). }
  split; [|by rewrite Hbase].
  rewrite Hbase.
  by apply (refresh_prices_spec PRICE (cat_nprices c) (cat_stack c) st Hwf).
Qed.

Lemma commodity_load_then_refresh_prices_witness :
  sys_price
    (refresh_prices sample_PRICE
       (cat_nprices (commodity_load [("Food"%string, ""%string, 10%Z)]))
       (cat_stack (commodity_load [("Food"%string, ""%string, 10%Z)]))
       sample_galaxy) 0 0
  = priced_base_price (commodity_load [("Food"%string, ""%string, 10%Z)]) 0
    * sample_PRICE (sys_credits sample_galaxy 0) (sys_stock sample_galaxy 0 0).
Proof.
  apply (commodity_load_then_refresh_prices sample_PRICE
           [("Food"%string, ""%string, 10%Z)] sample_galaxy 0 0).
  - repeat constructor.
  - apply sample_galaxy_wf.
  - simpl. lia.
  - simpl. lia.
Defined.
